(** * Nomad List scrapper: the upsert engine and the pipeline driver

    A shallow embedding of [src/db/mysql_connector.py] (class
    [MySQLConnector]) and of [src/scrapper/nomad_list_scrapper.py]
    (class [NomadListScrapper]).

    The relational store is a finite map from table names to tables; a
    table is its auto-increment counter and its rows in storage order; a
    row is its primary key [id] and a finite map from column names to
    values.  Every write statement of the connector is followed at once by
    [self._connection.commit()], so one step of the store monad below
    stands for "statement, then commit" and the threaded state is the
    committed store.  Strings are compared exactly (binary collation). *)

From Stdlib Require Import ZArith Lia Ascii.
From stdpp Require Import gmap strings.

Open Scope string_scope.
Open Scope list_scope.
Open Scope Z_scope.

(** ** Values, rows, tables *)

(** The Python values the connector passes to the driver: [None], [int]
    and [str]. *)
Inductive value :=
  | VNone
  | VInt (z : Z)
  | VStr (s : string).

#[global] Instance value_eq_dec : EqDecision value.
Proof. solve_decision. Defined.

(** Python's [a != b] on such values is structural inequality. *)
Definition py_ne (a b : value) : bool := bool_decide (a <> b).

(** SQL equality: a comparison with NULL is never true. *)
Definition sql_eq (a b : value) : bool :=
  match a, b with
  | VNone, _ | _, VNone => false
  | _, _ => bool_decide (a = b)
  end.

Record row := Row { row_id : Z; row_cols : gmap string value }.

(** Reading a column; a column that was never written is NULL, and [id]
    is the primary key. *)
Definition row_get (c : string) (r : row) : value :=
  if bool_decide (c = "id") then VInt (row_id r)
  else default VNone (row_cols r !! c).

(** [SET c1 = v1, c2 = v2, ...] on one row, left to right. *)
Definition row_set (cvs : list (string * value)) (r : row) : row :=
  Row (row_id r) (foldl (fun m cv => <[cv.1 := cv.2]> m) (row_cols r) cvs).

Record table := Table { t_next : Z; t_rows : list row }.

Abbreviation database := (gmap string table).

(** Modelled from the spec: the UNIQUE keys of the schema
    ([create_schemas.sql] is not part of the sources).  Regions,
    countries and cities are unique by name, an attribute by (name,
    category), a city attribute by (entity, attribute), a monthly value
    by (entity, attribute, month_number), photos, pros and cons and
    reviews by entity and content, an edge by (entity, related entity,
    type). *)
Definition unique_key (tbl : string) : list string :=
  if bool_decide (tbl = "continents") then ["name"]
  else if bool_decide (tbl = "countries") then ["name"]
  else if bool_decide (tbl = "cities") then ["name"]
  else if bool_decide (tbl = "tabs") then ["name"]
  else if bool_decide (tbl = "attributes") then ["name"; "id_tab"]
  else if bool_decide (tbl = "city_attributes") then ["id_city"; "id_attribute"]
  else if bool_decide (tbl = "monthly_weathers_attributes")
       then ["id_city"; "id_attribute"; "month_number"]
  else if bool_decide (tbl = "photos") then ["id_city"; "src"]
  else if bool_decide (tbl = "pros_and_cons") then ["id_city"; "description"; "type"]
  else if bool_decide (tbl = "reviews") then ["id_city"; "description"]
  else if bool_decide (tbl = "cities_relationships")
       then ["id_city"; "id_related_city"; "type"]
  else [].

Definition table_names : list string :=
  ["continents"; "countries"; "cities"; "tabs"; "attributes";
   "city_attributes"; "monthly_weathers_attributes"; "photos";
   "pros_and_cons"; "reviews"; "cities_relationships"].

(** The provisioned schema with no rows; ids start at 1. *)
Definition empty_store : database :=
  list_to_map (map (fun n => (n, Table 1 [])) table_names).

(** ** The row engine *)

(** Does the stored row [r] satisfy [c1 = v1 AND c2 = v2 ...]? *)
Definition row_matches (filters : list (string * value)) (r : row) : bool :=
  forallb (fun cv => sql_eq (row_get cv.1 r) cv.2) filters.

(** Do the stored row [r] and the row [new] agree on every column of the
    unique key [key]?  A table without a unique key never collides. *)
Definition collides (key : list string) (new r : row) : bool :=
  match key with
  | [] => false
  | _ => forallb (fun c => sql_eq (row_get c r) (row_get c new)) key
  end.

(** The row that [INSERT ... (cols) VALUES (vals)] builds under id [i]. *)
Definition fresh_row (cvs : list (string * value)) (i : Z) : row :=
  row_set cvs (Row i ∅).

Definition conflicts (key : list string) (cvs : list (string * value)) (r : row) : bool :=
  collides key (fresh_row cvs 0) r.

(** [INSERT IGNORE INTO t (cols) VALUES (vals)]: the row is appended under
    a fresh id unless it collides with a stored row on the unique key;
    the second component is [cursor.lastrowid] (0 when nothing was
    inserted). *)
Definition insert_ignore (key : list string) (cvs : list (string * value))
    (t : table) : table * Z :=
  if existsb (conflicts key cvs) (t_rows t) then (t, 0)
  else (Table (t_next t + 1) (t_rows t ++ [fresh_row cvs (t_next t)]), t_next t).

(** Rewrite the first row satisfying [p] with [f]. *)
Fixpoint update_first (p : row -> bool) (f : row -> row) (rs : list row) : list row :=
  match rs with
  | [] => []
  | r :: rs' => if p r then f r :: rs' else r :: update_first p f rs'
  end.

(** [INSERT ... VALUES (vals) as new ON DUPLICATE KEY UPDATE c = new.c, ...]:
    the first colliding row has the columns [upd] overwritten by the new
    values, otherwise the row is appended. *)
Definition insert_on_duplicate (key : list string) (upd : list string)
    (cvs : list (string * value)) (t : table) : table :=
  if existsb (conflicts key cvs) (t_rows t)
  then Table (t_next t)
         (update_first (conflicts key cvs)
            (row_set (List.filter (fun cv => bool_decide (cv.1 ∈ upd)) cvs)) (t_rows t))
  else Table (t_next t + 1) (t_rows t ++ [fresh_row cvs (t_next t)]).

Definition has_id (i : Z) (r : row) : bool := bool_decide (row_id r = i).

(** [UPDATE IGNORE t SET cols = vals WHERE id = i]: the row is rewritten
    unless the rewritten row collides with another row on the unique
    key. *)
Definition update_ignore (key : list string) (cvs : list (string * value)) (i : Z)
    (t : table) : table :=
  match List.find (has_id i) (t_rows t) with
  | None => t
  | Some old =>
      if existsb (fun r => negb (has_id i r) && collides key (row_set cvs old) r) (t_rows t)
      then t
      else Table (t_next t) (update_first (has_id i) (row_set cvs) (t_rows t))
  end.

(** ** Exceptions and the store monad *)

Inductive exn :=
  | HTTPError          (* requests.HTTPError, from raise_for_status *)
  | ProgrammingError   (* pymysql: SQL syntax error, unknown table *)
  | OperationalError   (* pymysql: connection lost *)
  | AttributeError
  | TypeError
  | IndexError
  | ExtractionError.   (* whatever the detail extractor raises *)

Inductive result (A : Type) :=
  | Ok (a : A)
  | Raise (e : exn).
Arguments Ok {A} a.
Arguments Raise {A} e.

Definition M (A : Type) : Type := database -> result A * database.

Definition ret {A} (a : A) : M A := fun db => (Ok a, db).
Definition raise {A} (e : exn) : M A := fun db => (Raise e, db).
Definition bind {A B} (m : M A) (k : A -> M B) : M B :=
  fun db => match m db with
            | (Ok a, db') => k a db'
            | (Raise e, db') => (Raise e, db')
            end.

Notation "x <- m ;; k" := (bind m (fun x => k))
  (at level 100, m at next level, right associativity).
Notation "m ;;; k" := (bind m (fun _ => k))
  (at level 100, right associativity).

(** A statement on a table that does not exist raises (error 1146). *)
Definition write_table {A} (tbl : string) (f : table -> table * A) : M A :=
  fun db => match db !! tbl with
            | None => (Raise ProgrammingError, db)
            | Some t => (Ok (f t).2, <[tbl := (f t).1]> db)
            end.

Definition read_table {A} (tbl : string) (f : table -> A) : M A :=
  fun db => match db !! tbl with
            | None => (Raise ProgrammingError, db)
            | Some t => (Ok (f t), db)
            end.

(** [for x in xs: body(x)] *)
Fixpoint for_each {A} (body : A -> M unit) (xs : list A) : M unit :=
  match xs with
  | [] => ret tt
  | x :: xs' => body x ;;; for_each body xs'
  end.

(** [cursor.executemany(query, args)] for an INSERT: pymysql returns at
    once when [args] is empty, and otherwise sends the rows as one
    multi-row INSERT, which the server applies row by row in order. *)
Definition executemany (tbl : string) (stmt : list (string * value) -> table -> table)
    (args : list (list (string * value))) : M unit :=
  match args with
  | [] => ret tt
  | _ => write_table tbl (fun t => (foldl (fun t cvs => stmt cvs t) t args, tt))
  end.

(** ** The two query texts that are assembled at run time *)

Fixpoint split_on (sep : ascii) (s : string) : list string :=
  match s with
  | EmptyString => [EmptyString]
  | String c s' =>
      if Ascii.eqb c sep then EmptyString :: split_on sep s'
      else match split_on sep s' with
           | [] => [String c EmptyString]
           | w :: ws => String c w :: ws
           end
  end.

(** The blank-separated words of a statement. *)
Definition words (s : string) : list string :=
  filter (fun w => w <> EmptyString) (split_on " "%char s).

Definition ident_char (c : ascii) : bool :=
  let n := Ascii.nat_of_ascii c in
  ((48 <=? n) && (n <=? 57) || (65 <=? n) && (n <=? 90)
   || (97 <=? n) && (n <=? 122) || (n =? 95))%nat.

Fixpoint all_chars (p : ascii -> bool) (s : string) : bool :=
  match s with
  | EmptyString => true
  | String c s' => p c && all_chars p s'
  end.

Definition is_ident (s : string) : bool :=
  negb (bool_decide (s = EmptyString)) && all_chars ident_char s
  && negb (bool_decide (s = "AND")).

(** The server's reading of [AND c = %s AND c = %s ...]. *)
Fixpoint parse_and (toks : list string) : option (list string) :=
  match toks with
  | [] => Some []
  | kw :: c :: eq :: ph :: rest =>
      if bool_decide (kw = "AND") && is_ident c && bool_decide (eq = "=")
         && bool_decide (ph = "%s")
      then cs ← parse_and rest; Some (c :: cs)
      else None
  | _ => None
  end.

(** The server's reading of a WHERE clause [c = %s AND c = %s ...]: the
    columns compared, or [None] on a syntax error (error 1064). *)
Definition parse_where (clause : string) : option (list string) :=
  match words clause with
  | c :: eq :: ph :: rest =>
      if is_ident c && bool_decide (eq = "=") && bool_decide (ph = "%s")
      then cs ← parse_and rest; Some (c :: cs)
      else None
  | _ => None
  end.

(** The server's reading of the list of [IN (%s, %s, ...)]: the number of
    placeholders, or [None] on a syntax error; [IN ()] is one. *)
Definition parse_in_list (text : string) : option nat :=
  let items := split_on ","%char text in
  if forallb (fun it => bool_decide (words it = ["%s"])) items
  then Some (length items) else None.

(** [', '.join(xs)] and friends. *)
Fixpoint join (sep : string) (xs : list string) : string :=
  match xs with
  | [] => EmptyString
  | [x] => x
  | x :: xs' => x +:+ sep +:+ join sep xs'
  end.

(** ** The statements of the connector *)

(** [SELECT ... FROM tbl WHERE <clause>] with the values [args] bound to
    the placeholders in order: the matching rows in storage order. *)
Definition execute_select_where (tbl where_clause : string) (args : list value)
    : M (list row) :=
  match parse_where where_clause with
  | None => raise ProgrammingError
  | Some cols =>
      read_table tbl (fun t => List.filter (row_matches (zip cols args)) (t_rows t))
  end.

Definition name_in (names : list string) (r : row) : bool :=
  existsb (fun n => sql_eq (row_get "name" r) (VStr n)) names.

(** [SELECT id, name FROM cities WHERE name IN (<in_list>)]. *)
Definition execute_select_cities_in (in_list : string) (names : list string)
    : M (list (Z * value)) :=
  match parse_in_list in_list with
  | None => raise ProgrammingError
  | Some _ =>
      read_table "cities"
        (fun t => map (fun r => (row_id r, row_get "name" r))
                    (List.filter (name_in names) (t_rows t)))
  end.

(** ** MySQLConnector *)

(** The [domain_identifier] argument: absent, a column name, or a list or
    tuple of column names. *)
Inductive domain_identifier :=
  | DomNone
  | DomStr (s : string)
  | DomList (l : list string).

(** Python's [a in b] on two strings: [a] occurs in [b]. *)
Fixpoint str_contains (a b : string) : bool :=
  String.prefix a b
  || match b with
     | EmptyString => false
     | String _ b' => str_contains a b'
     end.

(** [domain_identifier is None or key == domain_identifier
     or key in domain_identifier] *)
Definition key_selected (di : domain_identifier) (key : string) : bool :=
  match di with
  | DomNone => true
  | DomStr s => bool_decide (key = s) || str_contains key s
  | DomList l => bool_decide (key ∈ l)
  end.

Definition where_clause_of (filters : list (string * value)) : string :=
  join " AND" (map (fun kv => kv.1 +:+ " = %s") filters).

Definition differences (r : row) (values_dict : list (string * value)) : list bool :=
  map (fun kv => py_ne (row_get kv.1 r) kv.2) values_dict.

Definition any (bs : list bool) : bool := existsb (fun b => b) bs.

Definition _upsert_and_get_id (tbl : string) (values_dict : list (string * value))
    (di : domain_identifier) : M Z :=
  let filters := List.filter (fun kv => key_selected di kv.1) values_dict in
  let where_clause := where_clause_of filters in
  found <- execute_select_where tbl where_clause (map snd filters) ;;
  match found with
  | r :: _ =>
      let row_id := row_id r in
      (if any (differences r values_dict)
       then write_table tbl (fun t => (update_ignore (unique_key tbl) values_dict row_id t, tt))
       else ret tt) ;;;
      ret row_id
  | [] =>
      write_table tbl (insert_ignore (unique_key tbl) values_dict)
  end.

(** [d.get(k)] on an insertion-ordered dict. *)
Fixpoint dict_get {A} (k : string) (d : list (string * A)) : option A :=
  match d with
  | [] => None
  | (k', v) :: d' => if bool_decide (k = k') then Some v else dict_get k d'
  end.

(** The same with a key read back from the store. *)
Definition dict_get_value {A} (k : value) (d : list (string * A)) : option A :=
  match k with
  | VStr s => dict_get s d
  | _ => None
  end.

Definition insert_ignore_stmt (tbl : string) (cvs : list (string * value)) (t : table)
    : table :=
  (insert_ignore (unique_key tbl) cvs t).1.

Definition _upsert_tab_and_attributes {A} (tab_name : string) (tab_info : list (string * A))
    : M (list (Z * value)) :=
  write_table "tabs" (insert_ignore (unique_key "tabs") [("name", VStr tab_name)]) ;;;
  found <- read_table "tabs"
             (fun t => List.filter (row_matches [("name", VStr tab_name)]) (t_rows t)) ;;
  match found with
  | [] => raise TypeError
  | r :: _ =>
      let id_tab := row_id r in
      executemany "attributes" (insert_ignore_stmt "attributes")
        (map (fun a => [("name", VStr a); ("id_tab", VInt id_tab)]) (map fst tab_info)) ;;;
      read_table "attributes"
        (fun t => map (fun r => (row_id r, row_get "name" r))
                    (List.filter (row_matches [("id_tab", VInt id_tab)]) (t_rows t)))
  end.

(** The list comprehension of [_upsert_key_value_tab_info]: [info] is the
    tuple stored under the attribute, skipped when missing or empty;
    [info[1]] on a one-element tuple raises. *)
Fixpoint city_attribute_values (id_city : Z) (attributes : list (Z * value))
    (tab_info : list (string * list value)) : result (list (list (string * value))) :=
  match attributes with
  | [] => Ok []
  | (id_attribute, attribute) :: rest =>
      match dict_get_value attribute tab_info with
      | None | Some [] => city_attribute_values id_city rest tab_info
      | Some [_] => Raise IndexError
      | Some (i0 :: i1 :: more) =>
          match city_attribute_values id_city rest tab_info with
          | Raise e => Raise e
          | Ok vs =>
              Ok ([("id_city", VInt id_city); ("id_attribute", VInt id_attribute);
                   ("description", i0); ("attribute_value", i1);
                   ("url", match more with [] => VNone | i2 :: _ => i2 end)] :: vs)
          end
      end
  end.

Definition lift {A} (r : result A) : M A :=
  match r with
  | Ok a => ret a
  | Raise e => raise e
  end.

Definition _upsert_key_value_tab_info (id_city : Z) (tab_name : string)
    (tab_info : list (string * list value)) : M unit :=
  attributes <- _upsert_tab_and_attributes tab_name tab_info ;;
  values <- lift (city_attribute_values id_city attributes tab_info) ;;
  executemany "city_attributes"
    (insert_on_duplicate (unique_key "city_attributes")
       ["description"; "attribute_value"; "url"])
    values.

(** [enumerate]: the month rows of one attribute from index [i]. *)
Fixpoint month_rows (id_city id_attribute : Z) (i : Z)
    (series : list (value * value * value)) : list (list (string * value)) :=
  match series with
  | [] => []
  | (_, v, description) :: rest =>
      [("id_city", VInt id_city); ("id_attribute", VInt id_attribute);
       ("month_number", VInt (i + 1)); ("attribute_value", v);
       ("description", description)]
      :: month_rows id_city id_attribute (i + 1) rest
  end.

(** The list comprehension of [_upsert_weather]. *)
Definition weather_values (id_city : Z) (attributes : list (Z * value))
    (tab_info : list (string * list (value * value * value)))
    : list (list (string * value)) :=
  flat_map (fun ia => month_rows id_city ia.1 0
                        (default [] (dict_get_value ia.2 tab_info)))
           attributes.

(** The detail record produced by the detail extractor.  The sections the
    connector reads with [details.get(key, default)] or [details.get(key)]
    are optional. *)
Record pros_and_cons := ProsAndCons {
  pc_pros : option (list string);
  pc_cons : option (list string)
}.

Record details := Details {
  d_continent : string;
  d_country : string;
  d_city : string;
  d_rank : value;
  d_Scores : option (list (string * list value));
  d_DigitalNomadGuide : option (list (string * list value));
  d_CostOfLiving : option (list (string * list value));
  d_Photos : option (list string);
  d_ProsAndCons : option pros_and_cons;
  d_Reviews : option (list string);
  d_Weather : option (list (string * list (value * value * value)));
  d_Near : option (list string);
  d_Next : option (list string);
  d_Similar : option (list string)
}.

Definition _upsert_weather (id_city : Z) (d : details) : M unit :=
  let tab_name := "Weather" in
  let tab_info := default [] (d_Weather d) in
  attributes <- _upsert_tab_and_attributes tab_name tab_info ;;
  executemany "monthly_weathers_attributes"
    (insert_on_duplicate (unique_key "monthly_weathers_attributes")
       ["attribute_value"; "description"])
    (weather_values id_city attributes tab_info).

(** An element of the [values] list of [_upsert_many]: a tuple, or a
    single value that the method wraps into a one-element tuple. *)
Inductive item :=
  | Scalar (v : value)
  | Tuple (vs : list value).

Definition as_tuple (it : item) : list value :=
  match it with
  | Tuple vs => vs
  | Scalar v => [v]
  end.

Definition _upsert_many (tbl : string) (id_city : Z) (columns : list string)
    (values : list item) : M unit :=
  let columns := "id_city" :: columns in
  executemany tbl (insert_ignore_stmt tbl)
    (map (fun it => zip columns (VInt id_city :: as_tuple it)) values).

Definition types : list string := ["Near"; "Next"; "Similar"].

(** [details.get(key, [])] for the three relation keys. *)
Definition related (key : string) (d : details) : list string :=
  if bool_decide (key = "Near") then default [] (d_Near d)
  else if bool_decide (key = "Next") then default [] (d_Next d)
  else if bool_decide (key = "Similar") then default [] (d_Similar d)
  else [].

(** [name in names] for a name read back from the store. *)
Definition value_in (name : value) (names : list string) : bool :=
  match name with
  | VStr s => bool_decide (s ∈ names)
  | _ => false
  end.

Fixpoint enumerate_from {A} (i : Z) (xs : list A) : list (Z * A) :=
  match xs with
  | [] => []
  | x :: xs' => (i, x) :: enumerate_from (i + 1) xs'
  end.

(** The nested loop of [_insert_relationships] over the fetched rows. *)
Definition relationship_rows (id_city : Z) (fetched : list (Z * value)) (d : details)
    : list (list (string * value)) :=
  flat_map (fun row =>
    flat_map (fun it =>
      if value_in row.2 (related it.2 d)
      then [[("id_city", VInt id_city); ("id_related_city", VInt row.1);
             ("type", VInt it.1)]]
      else [])
      (enumerate_from 0 types))
    fetched.

(** [list(set(reduce(...)))]: the names under the three keys, without
    repetition (the iteration order of a Python set is unspecified; one
    order is fixed here). *)
Definition related_cities (d : details) : list string :=
  remove_dups (foldl (fun cities_names key => cities_names ++ related key d) [] types).

Definition _insert_relationships (id_city : Z) (d : details) : M unit :=
  let cities := related_cities d in
  let in_list := join ", " (replicate (length cities) "%s") in
  executemany "cities" (insert_ignore_stmt "cities")
    (map (fun n => [("name", VStr n)]) cities) ;;;
  fetched <- execute_select_cities_in in_list cities ;;
  executemany "cities_relationships" (insert_ignore_stmt "cities_relationships")
    (relationship_rows id_city fetched d).

(** [pros_and_cons.get('pros')] on a missing section is an attribute
    error on [None]; iterating a missing list is a type error. *)
Definition pros_cons_items (pc : option pros_and_cons) : result (list item) :=
  match pc with
  | None => Raise AttributeError
  | Some pc =>
      match pc_pros pc with
      | None => Raise TypeError
      | Some pros =>
          match pc_cons pc with
          | None => Raise TypeError
          | Some cons_ =>
              Ok (map (fun pro => Tuple [VStr pro; VStr "P"]) pros
                  ++ map (fun con => Tuple [VStr con; VStr "C"]) cons_)
          end
      end
  end.

Definition insert_city_info (d : details) : M unit :=
  id_continent <- _upsert_and_get_id "continents" [("name", VStr (d_continent d))]
                    (DomStr "name") ;;
  let country := [("name", VStr (d_country d)); ("id_continent", VInt id_continent)] in
  id_country <- _upsert_and_get_id "countries" country (DomStr "name") ;;
  let city := [("name", VStr (d_city d)); ("city_rank", d_rank d);
               ("id_country", VInt id_country)] in
  id_city <- _upsert_and_get_id "cities" city (DomStr "name") ;;
  _upsert_key_value_tab_info id_city "Scores" (default [] (d_Scores d)) ;;;
  _upsert_key_value_tab_info id_city "Digital Nomad Guide"
    (default [] (d_DigitalNomadGuide d)) ;;;
  _upsert_key_value_tab_info id_city "Cost of Living" (default [] (d_CostOfLiving d)) ;;;
  _upsert_many "photos" id_city ["src"]
    (map (fun s => Scalar (VStr s)) (default [] (d_Photos d))) ;;;
  pros_cons <- lift (pros_cons_items (d_ProsAndCons d)) ;;
  _upsert_many "pros_and_cons" id_city ["description"; "type"] pros_cons ;;;
  _upsert_many "reviews" id_city ["description"]
    (map (fun s => Scalar (VStr s)) (default [] (d_Reviews d))) ;;;
  _upsert_weather id_city d ;;;
  _insert_relationships id_city d.

(** ** NomadListScrapper *)

Record response := Response { status_code : Z; content : string }.

(** What [grequests] ends a request with: a response, or an exception of
    the transport ([request.response] is [None]). *)
Inductive outcome :=
  | Responded (res : response)
  | TransportFailed.

(** A city [li] tag of the listing: whether [valid_tag] accepts it, and
    how the request for its detail page ends. *)
Record city_tag := CityTag { valid_tag : bool; fetched : outcome }.

(** The error lines and the end-of-run report that the driver sends to
    its logger (progress lines at info and debug level are left out). *)
Inductive log_record :=
  | ErrorMakingTheRequest
  | HTTPErrorRaised
  | ExceptionRaised (e : exn)
  | ScrappingFinished (total : Z)
  | SuccessesFailures (successes failures : Z).

(** What a generator hands to the loop that drives it: a log line written
    on the way, or a yielded response. *)
Inductive event :=
  | Logged (l : log_record)
  | Yield (res : response).

(** [_exception_handler]: logs the error; its result is [None]. *)
Definition _exception_handler : log_record * option response :=
  (ErrorMakingTheRequest, None).

(** [grequests.imap(reqs, size, exception_handler)]: in completion order,
    a request with a response yields it; one without is given to the
    handler, whose result is yielded unless it is [None]. *)
Fixpoint imap (exception_handler : log_record * option response) (reqs : list outcome)
    : list event :=
  match reqs with
  | [] => []
  | Responded res :: reqs' => Yield res :: imap exception_handler reqs'
  | TransportFailed :: reqs' =>
      Logged exception_handler.1
      :: match exception_handler.2 with
         | Some ex_result => Yield ex_result :: imap exception_handler reqs'
         | None => imap exception_handler reqs'
         end
  end.

(** [_fetch_details]: the tags are listed in the order their requests
    complete. *)
Definition _fetch_details (lis : list city_tag) : list event :=
  imap _exception_handler (map fetched (List.filter valid_tag lis)).

Record counters := Counters { total : Z; successes : Z; failures : Z }.

Record run := Run {
  returned : option counters;   (* the Python return value: [None] or a summary *)
  counts : counters;            (* the local variables at the end of the run *)
  logged : list log_record;
  store : database
}.

Section Driver.

(** The detail extractor, [CityScrapper.get_city_details]: details,
    [None] when there is nothing to store, or an exception. *)
Variable get_city_details : string -> result (option details).

(** [res.raise_for_status()] raises on a 4xx or 5xx status. *)
Definition _map_details (res : response) : result (option details) :=
  if (400 <=? status_code res) && (status_code res <? 600)
  then Raise HTTPError
  else get_city_details (content res).

(** The body of the [try] block; [true] when the details were stored,
    [false] on [continue]. *)
Definition try_body (res : response) : M bool :=
  details_ <- lift (_map_details res) ;;
  match details_ with
  | None => ret false
  | Some d => insert_city_info d ;;; ret true
  end.

(** One turn of the loop on a yielded response: [try], the two [except]
    clauses, [finally]. *)
Definition loop_body (res : response) (st : run) : run :=
  let c := counts st in
  match try_body res (store st) with
  | (Ok true, db) =>
      Run (returned st) (Counters (total c + 1) (successes c + 1) (failures c))
          (logged st) db
  | (Ok false, db) =>
      Run (returned st) (Counters (total c + 1) (successes c) (failures c))
          (logged st) db
  | (Raise HTTPError, db) =>
      Run (returned st) (Counters (total c + 1) (successes c) (failures c + 1))
          (logged st ++ [HTTPErrorRaised]) db
  | (Raise e, db) =>
      Run (returned st) (Counters (total c + 1) (successes c) (failures c + 1))
          (logged st ++ [ExceptionRaised e]) db
  end.

Definition loop_step (st : run) (ev : event) : run :=
  match ev with
  | Logged l => Run (returned st) (counts st) (logged st ++ [l]) (store st)
  | Yield res => loop_body res st
  end.

(** [scrap_cities], from the list of city tags on: the loop over the
    fetched details, the report, and the bare [return]. *)
Definition scrap_cities (lis : list city_tag) (db : database) : run :=
  let st := foldl loop_step (Run None (Counters 0 0 0) [] db) (_fetch_details lis) in
  Run None (counts st)
      (logged st ++ [ScrappingFinished (total (counts st));
                     SuccessesFailures (successes (counts st)) (failures (counts st))])
      (store st).

End Driver.

(** [insert_city_info] in three parts: the place (continent, country,
    city), the sections that hang on the city's id, the relationships. *)
Definition upsert_place (d : details) : M Z :=
  id_continent <- _upsert_and_get_id "continents" [("name", VStr (d_continent d))]
                    (DomStr "name") ;;
  let country := [("name", VStr (d_country d)); ("id_continent", VInt id_continent)] in
  id_country <- _upsert_and_get_id "countries" country (DomStr "name") ;;
  let city := [("name", VStr (d_city d)); ("city_rank", d_rank d);
               ("id_country", VInt id_country)] in
  _upsert_and_get_id "cities" city (DomStr "name").

Definition upsert_sections (id_city : Z) (d : details) : M unit :=
  _upsert_key_value_tab_info id_city "Scores" (default [] (d_Scores d)) ;;;
  _upsert_key_value_tab_info id_city "Digital Nomad Guide"
    (default [] (d_DigitalNomadGuide d)) ;;;
  _upsert_key_value_tab_info id_city "Cost of Living" (default [] (d_CostOfLiving d)) ;;;
  _upsert_many "photos" id_city ["src"]
    (map (fun s => Scalar (VStr s)) (default [] (d_Photos d))) ;;;
  pros_cons <- lift (pros_cons_items (d_ProsAndCons d)) ;;
  _upsert_many "pros_and_cons" id_city ["description"; "type"] pros_cons ;;;
  _upsert_many "reviews" id_city ["description"]
    (map (fun s => Scalar (VStr s)) (default [] (d_Reviews d))) ;;;
  _upsert_weather id_city d.

(** The writes of [insert_city_info] that come before the relationship
    step, with the id of the upserted city as their result. *)
Definition steps_before_relationships (d : details) : M Z :=
  id_city <- upsert_place d ;;
  upsert_sections id_city d ;;;
  ret id_city.

(** The rows of a table of the store; none when the table is missing. *)
Definition rows_of (tbl : string) (db : database) : list row :=
  match db !! tbl with
  | Some t => t_rows t
  | None => []
  end.

(** Example data. *)
Definition lisbon : details :=
  Details "Europe" "Portugal" "Lisbon" (VInt 1)
    (Some [("Fun", [VStr "Great nightlife"; VInt 8])]) None None
    (Some ["a.jpg"]) (Some (ProsAndCons (Some ["sunny"]) (Some ["hilly"])))
    (Some ["nice"])
    (Some [("Temp", [(VStr "Jan", VInt 10, VStr "cold")])])
    (Some ["Porto"]) None None.

Definition porto : details :=
  Details "Europe" "Portugal" "Porto" (VInt 2)
    None None None None (Some (ProsAndCons (Some []) (Some []))) None None
    (Some ["Lisbon"]) None None.

Definition example_extractor (content : string) : result (option details) :=
  if bool_decide (content = "lisbon") then Ok (Some lisbon)
  else if bool_decide (content = "porto") then Ok (Some porto)
  else if bool_decide (content = "empty") then Ok None
  else Raise ExtractionError.

(** The responses a stream of events yields. *)
Fixpoint yielded (evs : list event) : list response :=
  match evs with
  | [] => []
  | Yield res :: evs' => res :: yielded evs'
  | Logged _ :: evs' => yielded evs'
  end.

Definition responded (t : city_tag) : Prop :=
  valid_tag t = true /\ exists res, fetched t = Responded res.

Definition answered (content : string) : city_tag :=
  CityTag true (Responded (Response 200 content)).

Definition unreachable : city_tag := CityTag true TransportFailed.

Definition initial_run (db : database) : run := Run None (Counters 0 0 0) [] db.

Definition lonely : details :=
  Details "Europe" "Malta" "Valletta" (VInt 7)
    (Some [("Fun", [VStr "Quiet"; VInt 5])]) None None
    (Some ["v.jpg"]) (Some (ProsAndCons (Some ["sea"]) (Some []))) None None
    None (Some []) None.

(** ** Notions used in the statements *)

Definition ids_ok (t : table) : Prop :=
  NoDup (row_id <$> t_rows t) /\ Forall (fun r => row_id r < t_next t) (t_rows t).

(** The values [cvs] collide with the row they themselves make. *)
Definition self_conflict (key : list string) (cvs : list (string * value)) : Prop :=
  forall i, conflicts key cvs (fresh_row cvs i) = true.

Definition insert_all (tbl : string) (t : table) (args : list (list (string * value)))
    : table :=
  foldl (fun t cvs => insert_ignore_stmt tbl cvs t) t args.

Definition preserves {A} (T : string) (m : M A) : Prop :=
  forall db r db', m db = (r, db') -> db' !! T = db !! T.

Definition set_cols (m : gmap string value) (cvs : list (string * value))
    : gmap string value :=
  foldl (fun m cv => <[cv.1 := cv.2]> m) m cvs.

(** What [_upsert_and_get_id] does to the table when the WHERE clause has
    the single filter [kv]. *)
Definition upsert_table (key : list string) (values_dict : list (string * value))
    (kv : string * value) (t : table) : table * Z :=
  match List.filter (row_matches [kv]) (t_rows t) with
  | r :: _ =>
      (if any (differences r values_dict)
       then update_ignore key values_dict (row_id r) t else t, row_id r)
  | [] => insert_ignore key values_dict t
  end.

Definition named (n : string) (r : row) : bool :=
  bool_decide (row_get "name" r = VStr n).

Definition name_row (n : string) : list (string * value) := [("name", VStr n)].

Definition name_rows (names : list string) : list (list (string * value)) :=
  map name_row names.

Definition edge_row (id_city id_related type : Z) : list (string * value) :=
  [("id_city", VInt id_city); ("id_related_city", VInt id_related); ("type", VInt type)].

(** The values of the key columns of a row. *)
Definition key_of (key : list string) (r : row) : list value :=
  map (fun c => row_get c r) key.

(** The columns of [cvs] that ON DUPLICATE KEY UPDATE overwrites. *)
Definition upd_part (upd : list string) (cvs : list (string * value))
    : list (string * value) :=
  List.filter (fun cv => bool_decide (cv.1 ∈ upd)) cvs.

(** The first row that collides with [cvs] already holds its values. *)
Definition stored (key upd : list string) (cvs : list (string * value)) (t : table)
    : Prop :=
  exists r rest,
    List.filter (conflicts key cvs) (t_rows t) = r :: rest
    /\ row_set (upd_part upd cvs) r = r.

Definition upsert_all (key upd : list string) (t : table)
    (args : list (list (string * value))) : table :=
  foldl (fun t cvs => insert_on_duplicate key upd cvs t) t args.

(** The UNIQUE constraint: no two rows collide with the same values. *)
Definition key_unique (key : list string) (t : table) : Prop :=
  forall cvs, (length (List.filter (conflicts key cvs) (t_rows t)) <= 1)%nat.

(** The store satisfies its schema: primary keys are unique and below the
    auto-increment counter, and the UNIQUE keys hold. *)
Definition store_ok (db : database) : Prop :=
  forall tbl t, db !! tbl = Some t -> ids_ok t /\ key_unique (unique_key tbl) t.

Definition attr_row (a : string) (id_tab : Z) : list (string * value) :=
  [("name", VStr a); ("id_tab", VInt id_tab)].

Definition attr_rows (id_tab : Z) (keys : list string) : list (list (string * value)) :=
  map (fun a => attr_row a id_tab) keys.

(** [SELECT id, name FROM attributes WHERE id_tab = ...] on a table. *)
Definition selected_attributes (id_tab : Z) (t : table) : list (Z * value) :=
  map (fun r => (row_id r, row_get "name" r))
      (List.filter (row_matches [("id_tab", VInt id_tab)]) (t_rows t)).

(** The id of the first row of [tabs] with the given name. *)
Definition tab_id (tab_name : string) (t : table) : Z :=
  match List.filter (named tab_name) (t_rows t) with
  | r :: _ => row_id r
  | [] => 0
  end.

Definition month_row (id_city id_attribute month : Z) (v description : value)
    : list (string * value) :=
  [("id_city", VInt id_city); ("id_attribute", VInt id_attribute);
   ("month_number", VInt month); ("attribute_value", v); ("description", description)].

Definition month_key (id_city id_attribute month : Z) (r : row) : bool :=
  bool_decide (row_get "id_city" r = VInt id_city
               /\ row_get "id_attribute" r = VInt id_attribute
               /\ row_get "month_number" r = VInt month).

Definition monthly_key : list string := unique_key "monthly_weathers_attributes".
Definition monthly_upd : list string := ["attribute_value"; "description"].

Definition series_of (info : list (string * list (value * value * value)))
    (attribute : value) : list (value * value * value) :=
  default [] (dict_get_value attribute info).


Definition lisbon_weather : list (value * value * value) :=
  [(VStr "Jan", VInt 15, VStr "mild"); (VStr "Feb", VInt 16, VStr "mild");
   (VStr "Mar", VInt 18, VStr "mild"); (VStr "Apr", VInt 20, VStr "warm");
   (VStr "May", VInt 22, VStr "warm"); (VStr "Jun", VInt 26, VStr "hot");
   (VStr "Jul", VInt 28, VStr "hot"); (VStr "Aug", VInt 29, VStr "hot");
   (VStr "Sep", VInt 27, VStr "hot"); (VStr "Oct", VInt 23, VStr "warm");
   (VStr "Nov", VInt 18, VStr "mild"); (VStr "Dec", VInt 15, VStr "mild")].

Definition lisbon_year : details :=
  Details "Europe" "Portugal" "Lisbon" (VInt 1)
    None None None None (Some (ProsAndCons (Some []) (Some []))) None
    (Some [("Temperature", lisbon_weather)])
    (Some ["Porto"]) None None.

(** [t'] is [t] with rows appended. *)
Definition grows (t t' : table) : Prop :=
  exists extra, t_rows t' = t_rows t ++ extra.

(** [t'] is [t] with rows appended, none of them under the tab [id_tab]. *)
Definition grows_off (id_tab : Z) (t t' : table) : Prop :=
  exists extra, t_rows t' = t_rows t ++ extra
                /\ Forall (fun r => row_get "id_tab" r <> VInt id_tab) extra.

(** Does the response end in the no-data signal? *)
Definition no_data (g : string -> result (option details)) (res : response) : bool :=
  match _map_details g res with
  | Ok None => true
  | _ => false
  end.

(** Python's [l[:n]]: the first [n] elements, or all but the last [-n]
    when [n] is negative. *)
Definition slice_to {A} (n : Z) (l : list A) : list A :=
  if 0 <=? n then take (Z.to_nat n) l
  else take (Z.to_nat (Z.of_nat (length l) + n)) l.

(** [_get_cities], from the city tags that the parser finds in the page
    on ([None] when there is no page): all of them, or a slice. *)
Definition _get_cities (page_tags : option (list city_tag)) (num_of_cities : option Z)
    : option (list city_tag) :=
  match page_tags with
  | None => None
  | Some list_of_cities_html =>
      Some (match num_of_cities with
            | None => list_of_cities_html
            | Some n => slice_to n list_of_cities_html
            end)
  end.

(** A tab name is spliced between single quotes into the text of the
    SELECT of [_upsert_tab_and_attributes]; a name with a quote or a
    backslash changes that statement, and the statements about tab names
    below leave such names out. *)
Definition plain_name (s : string) : bool :=
  all_chars (fun c => negb (Ascii.eqb c "'"%char) && negb (Ascii.eqb c "\"%char)) s.

(** ** How the store may change *)

Section Evolution.

(** What may happen to each table, by name. *)
Variable R : string -> table -> table -> Prop.

(** No table is created or dropped, and each one changes as [R] allows. *)
Definition evolves (db db' : database) : Prop :=
  forall tbl, match db !! tbl, db' !! tbl with
              | Some t, Some t' => R tbl t t'
              | None, None => True
              | _, _ => False
              end.

(** The computation changes the store as [R] allows, whether it returns
    or raises. *)
Definition respects {A} (m : M A) : Prop :=
  forall db, evolves db (m db).2.

End Evolution.

(** The rows of [t] are still there in [t'], under the same ids and in
    the same order, and the primary keys are still unique. *)
Definition keeps_rows (t t' : table) : Prop :=
  (exists extra, row_id <$> t_rows t' = (row_id <$> t_rows t) ++ extra)
  /\ (ids_ok t -> ids_ok t').

(** The tables that [insert_city_info] writes with INSERT IGNORE alone,
    and [continents], whose only column is its key. *)
Definition append_only : list string :=
  ["continents"; "tabs"; "attributes"; "photos"; "pros_and_cons"; "reviews";
   "cities_relationships"].

Definition appends (tbl : string) (t t' : table) : Prop :=
  tbl ∈ append_only -> grows t t'.

(** The values of one row of [city_attributes]. *)
Definition attribute_row (id_city id_attribute : Z) (description v url : value)
    : list (string * value) :=
  [("id_city", VInt id_city); ("id_attribute", VInt id_attribute);
   ("description", description); ("attribute_value", v); ("url", url)].

Definition attribute_key (id_city id_attribute : Z) (r : row) : bool :=
  bool_decide (row_get "id_city" r = VInt id_city
               /\ row_get "id_attribute" r = VInt id_attribute).

Definition attributes_key : list string := unique_key "city_attributes".
Definition attributes_upd : list string := ["description"; "attribute_value"; "url"].

(** [info[2] if len(info) > 2 else None], on the elements after the
    first two. *)
Definition url_of (more : list value) : value :=
  match more with
  | [] => VNone
  | i2 :: _ => i2
  end.

(** A record whose Near list names the city itself. *)
Definition lisbon_near_itself : details :=
  Details "Europe" "Portugal" "Lisbon" (VInt 1)
    None None None None (Some (ProsAndCons (Some []) (Some []))) None None
    (Some ["Lisbon"]) None None.

(** ** The loop over any storage layer *)

(** The loop reaches the storage layer through the one call
    [mysql_connector.insert_city_info(details)] and treats whatever that
    call raises alike.  [persist] stands for the call as the loop sees
    it: it changes the store and returns or raises.  The connector's own
    [insert_city_info] is one such call, the call on a connection that
    was lost is another. *)
Section DriverOver.

Variable get_city_details : string -> result (option details).
Variable persist : details -> M unit.

Definition try_body_over (res : response) : M bool :=
  details_ <- lift (_map_details get_city_details res) ;;
  match details_ with
  | None => ret false
  | Some d => persist d ;;; ret true
  end.

Definition loop_body_over (res : response) (st : run) : run :=
  let c := counts st in
  match try_body_over res (store st) with
  | (Ok true, db) =>
      Run (returned st) (Counters (total c + 1) (successes c + 1) (failures c))
          (logged st) db
  | (Ok false, db) =>
      Run (returned st) (Counters (total c + 1) (successes c) (failures c))
          (logged st) db
  | (Raise HTTPError, db) =>
      Run (returned st) (Counters (total c + 1) (successes c) (failures c + 1))
          (logged st ++ [HTTPErrorRaised]) db
  | (Raise e, db) =>
      Run (returned st) (Counters (total c + 1) (successes c) (failures c + 1))
          (logged st ++ [ExceptionRaised e]) db
  end.

Definition loop_step_over (st : run) (ev : event) : run :=
  match ev with
  | Logged l => Run (returned st) (counts st) (logged st ++ [l]) (store st)
  | Yield res => loop_body_over res st
  end.

Definition scrap_cities_over (lis : list city_tag) (db : database) : run :=
  let st := foldl loop_step_over (Run None (Counters 0 0 0) [] db) (_fetch_details lis) in
  Run None (counts st)
      (logged st ++ [ScrappingFinished (total (counts st));
                     SuccessesFailures (successes (counts st)) (failures (counts st))])
      (store st).

End DriverOver.

(** A statement sent on a connection that was lost: pymysql raises
    [OperationalError] (2006, 2013) and nothing is written. *)
Definition connection_lost (d : details) : M unit := raise OperationalError.

(** The line that the [except] clauses log for an exception. *)
Definition error_line (e : exn) : log_record :=
  match e with
  | HTTPError => HTTPErrorRaised
  | _ => ExceptionRaised e
  end.

(** The tables [tabs] and [attributes] after the tab [X] with the
    attribute names [keys] was registered. *)
Definition tabs_after (X : string) (tt : table) : table :=
  insert_ignore_stmt "tabs" (name_row X) tt.

Definition attributes_after (X : string) (keys : list string) (tt ta : table) : table :=
  insert_all "attributes" ta (attr_rows (tab_id X (tabs_after X tt)) keys).

(** Later states [tt'], [ta'] of [tabs] and [attributes] in which the tab
    [X] is as it is in [tt], [ta]: rows were added, and no attribute was
    added under the tab. *)
Definition settled_tab (X : string) (tt ta tt' ta' : table) : Prop :=
  grows tt tt' /\ grows_off (tab_id X tt) ta ta'.

(** * Properties *)

(** ** The monad *)

Lemma bind_ok {A B} (m : M A) (k : A -> M B) db a db' :
  m db = (Ok a, db') -> bind m k db = k a db'.
Proof. intros H. unfold bind. by rewrite H. Qed.

Lemma bind_raise {A B} (m : M A) (k : A -> M B) db e db' :
  m db = (Raise e, db') -> bind m k db = (Raise e, db').
Proof. intros H. unfold bind. by rewrite H. Qed.

Lemma bind_inv_ok {A B} (m : M A) (k : A -> M B) db b db'' :
  bind m k db = (Ok b, db'') ->
  exists a db', m db = (Ok a, db') /\ k a db' = (Ok b, db'').
Proof.
  unfold bind. destruct (m db) as [[a|e] db'] eqn:E; [eauto | discriminate].
Qed.

Lemma bind_assoc {A B C} (m : M A) (k : A -> M B) (h : B -> M C) db :
  bind (bind m k) h db = bind m (fun a => bind (k a) h) db.
Proof. unfold bind. by destruct (m db) as [[a|e] db']. Qed.

(** Binds with pointwise equal continuations are equal. *)
Lemma bind_ext {A B} (m : M A) (k k' : A -> M B) db :
  (forall a db', k a db' = k' a db') -> bind m k db = bind m k' db.
Proof. intros H. unfold bind. destruct (m db) as [[a|e] db']; auto. Qed.

(** A computation that returns [a] leaves the store it leaves. *)
Lemma run_ok {A} (m : M A) db a : (m db).1 = Ok a -> m db = (Ok a, (m db).2).
Proof. destruct (m db) as [r db']. simpl. by intros ->. Qed.

Lemma insert_city_info_steps d db :
  insert_city_info d db
  = bind (steps_before_relationships d) (fun id_city => _insert_relationships id_city d) db.
Proof.
  unfold insert_city_info, steps_before_relationships, upsert_place, upsert_sections.
  repeat (rewrite ?bind_assoc; apply bind_ext; intros).
  rewrite ?bind_assoc.
  repeat (apply bind_ext; intros; rewrite ?bind_assoc).
  reflexivity.
Qed.

(** ** The pipeline driver *)

Section DriverFacts.

Variable g : string -> result (option details).

Lemma loop_body_counts res st :
  total (counts (loop_body g res st)) = total (counts st) + 1
  /\ successes (counts st) <= successes (counts (loop_body g res st))
  /\ failures (counts st) <= failures (counts (loop_body g res st))
  /\ successes (counts (loop_body g res st)) + failures (counts (loop_body g res st))
     <= successes (counts st) + failures (counts st) + 1.
Proof.
  unfold loop_body.
  destruct (try_body g res (store st)) as [[[|]|[]] db']; simpl; lia.
Qed.

Lemma loop_accounting evs st :
  let st' := foldl (loop_step g) st evs in
  total (counts st') = total (counts st) + Z.of_nat (length (yielded evs))
  /\ successes (counts st) <= successes (counts st')
  /\ failures (counts st) <= failures (counts st')
  /\ successes (counts st') + failures (counts st')
     <= successes (counts st) + failures (counts st) + Z.of_nat (length (yielded evs)).
Proof.
  revert st. induction evs as [|[l|res] evs IH]; intros st; simpl.
  - lia.
  - specialize (IH (Run (returned st) (counts st) (logged st ++ [l]) (store st))).
    simpl in IH. exact IH.
  - specialize (IH (loop_body g res st)). simpl in IH.
    pose proof (loop_body_counts res st). lia.
Qed.

(** The log has no influence on the counters and on the store. *)
Lemma loop_body_log_irrelevant res st st' :
  counts st = counts st' -> store st = store st' ->
  counts (loop_body g res st) = counts (loop_body g res st')
  /\ store (loop_body g res st) = store (loop_body g res st').
Proof.
  intros Hc Hs. unfold loop_body. rewrite Hc, Hs.
  destruct (try_body g res (store st')) as [[[|]|[]] db']; simpl; auto.
Qed.

Lemma loop_log_irrelevant evs st st' :
  counts st = counts st' -> store st = store st' ->
  counts (foldl (loop_step g) st evs) = counts (foldl (loop_step g) st' evs)
  /\ store (foldl (loop_step g) st evs) = store (foldl (loop_step g) st' evs).
Proof.
  revert st st'. induction evs as [|[l|res] evs IH]; intros st st' Hc Hs; simpl.
  - auto.
  - apply IH; simpl; auto.
  - destruct (loop_body_log_irrelevant res st st' Hc Hs). apply IH; auto.
Qed.

Lemma imap_app h l1 l2 : imap h (l1 ++ l2) = imap h l1 ++ imap h l2.
Proof.
  induction l1 as [|[res|] l1 IH]; simpl; [done| by rewrite IH |].
  destruct h.2; simpl; by rewrite IH.
Qed.

Lemma fetch_details_app l1 l2 :
  _fetch_details (l1 ++ l2) = _fetch_details l1 ++ _fetch_details l2.
Proof.
  unfold _fetch_details. by rewrite List.filter_app, map_app, imap_app.
Qed.

Lemma yielded_app e1 e2 : yielded (e1 ++ e2) = yielded e1 ++ yielded e2.
Proof. induction e1 as [|[l|res] e1 IH]; simpl; by rewrite ?IH. Qed.

Lemma yielded_responded l :
  Forall responded l -> length (yielded (_fetch_details l)) = length l.
Proof.
  induction 1 as [|t l [Hv [res Hr]] _ IH]; [done|].
  change (t :: l) with ([t] ++ l). rewrite fetch_details_app, yielded_app, length_app, IH.
  unfold _fetch_details. simpl. rewrite Hv. simpl. by rewrite Hr.
Qed.

(** What one turn of the loop adds to the log depends on the store
    alone. *)
Lemma loop_body_logs res st st' :
  store st = store st' ->
  exists added, logged (loop_body g res st) = logged st ++ added
                /\ logged (loop_body g res st') = logged st' ++ added.
Proof.
  intros Hs. unfold loop_body. rewrite Hs.
  destruct (try_body g res (store st')) as [[[|]|[]] db']; simpl;
    first [ by exists []; rewrite !app_nil_r | by eexists ].
Qed.

(** Two runs of the loop from the same counters and store add the same
    lines to their logs. *)
Lemma loop_logs evs st st' :
  counts st = counts st' -> store st = store st' ->
  exists added, logged (foldl (loop_step g) st evs) = logged st ++ added
                /\ logged (foldl (loop_step g) st' evs) = logged st' ++ added.
Proof.
  revert st st'. induction evs as [|[l|res] evs IH]; intros st st' Hc Hs; simpl.
  - exists []. by rewrite !app_nil_r.
  - destruct (IH (Run (returned st) (counts st) (logged st ++ [l]) (store st))
                (Run (returned st') (counts st') (logged st' ++ [l]) (store st'))
                Hc Hs) as (added & H1 & H2).
    exists (l :: added). rewrite H1, H2. simpl. by rewrite <- !app_assoc.
  - destruct (loop_body_log_irrelevant res st st' Hc Hs) as [Hc' Hs'].
    destruct (loop_body_logs res st st' Hs) as (a1 & Ha & Ha').
    destruct (IH _ _ Hc' Hs') as (added & H1 & H2).
    exists (a1 ++ added). by rewrite H1, H2, Ha, Ha', <- !app_assoc.
Qed.

(** C3: the code diverges from the claim.  A request that fails in the
    transport is handed to the exception handler, which logs it and
    returns [None], so nothing is yielded for it and the loop never sees
    it: the run counts and persists exactly what the run without that
    request does, its log is the log of that run with the handler's line
    put in, and with the other [n - 1] requests answered the total is
    [n - 1], not [n]; no failure is counted for the failed request. *)
Theorem transport_failure_is_skipped (l1 l2 : list city_tag) (t : city_tag) db :
  valid_tag t = true ->
  fetched t = TransportFailed ->
  counts (scrap_cities g (l1 ++ t :: l2) db) = counts (scrap_cities g (l1 ++ l2) db)
  /\ store (scrap_cities g (l1 ++ t :: l2) db) = store (scrap_cities g (l1 ++ l2) db)
  /\ (exists before after,
        logged (scrap_cities g (l1 ++ l2) db) = before ++ after
        /\ logged (scrap_cities g (l1 ++ t :: l2) db)
           = before ++ ErrorMakingTheRequest :: after)
  /\ (Forall responded (l1 ++ l2) ->
      total (counts (scrap_cities g (l1 ++ t :: l2) db))
      = Z.of_nat (length (l1 ++ t :: l2)) - 1).
Proof.
  intros Hv Hf.
  assert (Ht : _fetch_details [t] = [Logged ErrorMakingTheRequest]).
  { unfold _fetch_details. simpl. rewrite Hv. simpl. by rewrite Hf. }
  assert (He : _fetch_details (l1 ++ t :: l2)
               = _fetch_details l1 ++ Logged ErrorMakingTheRequest :: _fetch_details l2).
  { change (t :: l2) with ([t] ++ l2). by rewrite !fetch_details_app, Ht. }
  unfold scrap_cities. simpl. rewrite He, fetch_details_app, !foldl_app. simpl.
  set (st1 := foldl (loop_step g) _ (_fetch_details l1)).
  destruct (loop_log_irrelevant (_fetch_details l2)
              (Run (returned st1) (counts st1) (logged st1 ++ [ErrorMakingTheRequest])
                 (store st1)) st1 eq_refl eq_refl) as [Hc Hs].
  destruct (loop_logs (_fetch_details l2)
              (Run (returned st1) (counts st1) (logged st1 ++ [ErrorMakingTheRequest])
                 (store st1)) st1 eq_refl eq_refl) as (added & Hl & Hl').
  split; [exact Hc|]. split; [exact Hs|]. split.
  - exists (logged st1),
      (added ++ [ScrappingFinished
                   (total (counts (foldl (loop_step g) st1 (_fetch_details l2))));
                 SuccessesFailures
                   (successes (counts (foldl (loop_step g) st1 (_fetch_details l2))))
                   (failures (counts (foldl (loop_step g) st1 (_fetch_details l2))))]).
    rewrite Hl, Hl', Hc. simpl. by rewrite <- !app_assoc.
  - intros Hall. rewrite Hc.
    pose proof (loop_accounting (_fetch_details l1 ++ _fetch_details l2)
                  (Run None (Counters 0 0 0) [] db)) as [Htot _].
    rewrite foldl_app in Htot. fold st1 in Htot. rewrite Htot.
    rewrite <- fetch_details_app, (yielded_responded _ Hall). simpl.
    rewrite !length_app. simpl. lia.
Qed.

(** With the connector's [insert_city_info] as the storage layer, the
    loop over any storage layer is the loop of [scrap_cities]. *)
Lemma scrap_cities_over_connector lis db :
  scrap_cities_over g insert_city_info lis db = scrap_cities g lis db.
Proof. reflexivity. Qed.

Lemma loop_body_over_total persist res st :
  total (counts (loop_body_over g persist res st)) = total (counts st) + 1.
Proof.
  unfold loop_body_over.
  by destruct (try_body_over g persist res (store st)) as [[[|]|[]] db'].
Qed.

Lemma loop_over_total persist evs st :
  total (counts (foldl (loop_step_over g persist) st evs))
  = total (counts st) + Z.of_nat (length (yielded evs)).
Proof.
  revert st. induction evs as [|[l|res] evs IH]; intros st; simpl.
  - lia.
  - by rewrite IH.
  - rewrite IH, loop_body_over_total. lia.
Qed.

(** C4, as the code has it: whatever exception the storage layer raises
    while a record is persisted, connection- and schema-level errors
    included, the loop catches it, logs it, counts one failure and goes
    on: every response that is still to come is processed and counted. *)
Theorem storage_error_is_counted persist res d e db' st rest :
  _map_details g res = Ok (Some d) ->
  persist d (store st) = (Raise e, db') ->
  counts (loop_body_over g persist res st)
  = Counters (total (counts st) + 1) (successes (counts st)) (failures (counts st) + 1)
  /\ store (loop_body_over g persist res st) = db'
  /\ logged (loop_body_over g persist res st) = logged st ++ [error_line e]
  /\ total (counts (foldl (loop_step_over g persist) st (Yield res :: rest)))
     = total (counts st) + 1 + Z.of_nat (length (yielded rest)).
Proof.
  intros Hm Hi.
  assert (Ht : try_body_over g persist res (store st) = (Raise e, db')).
  { unfold try_body_over. rewrite Hm. simpl. unfold bind at 1. simpl.
    by rewrite (bind_raise _ _ _ _ _ Hi). }
  split; [|split; [|split]].
  - unfold loop_body_over. rewrite Ht. by destruct e.
  - unfold loop_body_over. rewrite Ht. by destruct e.
  - unfold loop_body_over. rewrite Ht. by destruct e.
  - simpl. rewrite loop_over_total, loop_body_over_total. lia.
Qed.


(** C6: a response whose extraction gives [None] adds one to the total
    and nothing to the successes and to the failures; nothing is stored. *)
Theorem empty_result_counts_in_total_only res st :
  _map_details g res = Ok None ->
  counts (loop_step g st (Yield res))
  = Counters (total (counts st) + 1) (successes (counts st)) (failures (counts st))
  /\ store (loop_step g st (Yield res)) = store st
  /\ logged (loop_step g st (Yield res)) = logged st.
Proof.
  intros Hm. simpl. unfold loop_body, try_body. rewrite Hm. simpl. auto.
Qed.

End DriverFacts.

Lemma transport_failure_is_skipped_witness :
  valid_tag unreachable = true /\ fetched unreachable = TransportFailed /\
  counts (scrap_cities example_extractor ([answered "lisbon"] ++ unreachable :: [answered "porto"])
            empty_store)
  = counts (scrap_cities example_extractor ([answered "lisbon"] ++ [answered "porto"])
              empty_store).
Proof.
  split; [reflexivity|]. split; [reflexivity|].
  exact (proj1 (transport_failure_is_skipped example_extractor
                  [answered "lisbon"] [answered "porto"] unreachable empty_store
                  eq_refl eq_refl)).
Defined.

(** C3, the failing run: of three requests the second fails in the
    transport and the other two succeed; the total is 2, not 3, and no
    failure is counted; the failure shows in the log alone. *)
Lemma transport_failure_total_counterexample :
  counts (scrap_cities example_extractor
            [answered "lisbon"; unreachable; answered "porto"] empty_store)
  = Counters 2 2 0
  /\ logged (scrap_cities example_extractor
               [answered "lisbon"; unreachable; answered "porto"] empty_store)
     = [ErrorMakingTheRequest; ScrappingFinished 2; SuccessesFailures 2 0]
  /\ ~ (total (counts (scrap_cities example_extractor
                         [answered "lisbon"; unreachable; answered "porto"] empty_store)) = 3
        /\ 1 <= failures (counts (scrap_cities example_extractor
                         [answered "lisbon"; unreachable; answered "porto"] empty_store))).
Proof.
  assert (H : counts (scrap_cities example_extractor
                        [answered "lisbon"; unreachable; answered "porto"] empty_store)
              = Counters 2 2 0) by (vm_compute; reflexivity).
  split; [exact H|]. split; [vm_compute; reflexivity|]. rewrite H. simpl. lia.
Qed.

Lemma storage_error_is_counted_witness :
  _map_details example_extractor (Response 200 "lisbon") = Ok (Some lisbon)
  /\ connection_lost lisbon (store (initial_run empty_store))
     = (Raise OperationalError, empty_store)
  /\ counts (loop_body_over example_extractor connection_lost (Response 200 "lisbon")
               (initial_run empty_store))
     = Counters (0 + 1) 0 (0 + 1)
  /\ total (counts (foldl (loop_step_over example_extractor connection_lost)
                      (initial_run empty_store)
                      [Yield (Response 200 "lisbon"); Yield (Response 200 "porto")]))
     = 0 + 1 + Z.of_nat (length (yielded [Yield (Response 200 "porto")])).
Proof.
  split; [reflexivity|]. split; [reflexivity|].
  pose proof (storage_error_is_counted example_extractor connection_lost
                (Response 200 "lisbon") lisbon OperationalError empty_store
                (initial_run empty_store) [Yield (Response 200 "porto")]
                eq_refl eq_refl) as (Hc & _ & _ & Ht).
  split; [exact Hc | exact Ht].
Defined.

(** C4 as stated fails.  On a connection that was lost every record
    raises [OperationalError]; the first one does not end the run, the
    second record is processed too and both count as failures.  The same
    with the connector itself on a store without its schema, where every
    statement raises a schema-level error. *)
Lemma fatal_storage_error_counterexample :
  counts (scrap_cities_over example_extractor connection_lost
            [answered "lisbon"; answered "porto"] empty_store)
  = Counters 2 0 2
  /\ logged (scrap_cities_over example_extractor connection_lost
               [answered "lisbon"; answered "porto"] empty_store)
     = [ExceptionRaised OperationalError; ExceptionRaised OperationalError;
        ScrappingFinished 2; SuccessesFailures 0 2]
  /\ insert_city_info lisbon ∅ = (Raise ProgrammingError, ∅)
  /\ counts (scrap_cities example_extractor [answered "lisbon"; answered "porto"] ∅)
     = Counters 2 0 2
  /\ logged (scrap_cities example_extractor [answered "lisbon"; answered "porto"] ∅)
     = [ExceptionRaised ProgrammingError; ExceptionRaised ProgrammingError;
        ScrappingFinished 2; SuccessesFailures 0 2].
Proof. repeat split; vm_compute; reflexivity. Qed.


Lemma empty_result_counts_in_total_only_witness :
  _map_details example_extractor (Response 200 "empty") = Ok None
  /\ counts (loop_step example_extractor (initial_run empty_store)
               (Yield (Response 200 "empty")))
     = Counters (0 + 1) 0 0.
Proof.
  split; [reflexivity|].
  apply (empty_result_counts_in_total_only example_extractor (Response 200 "empty")
           (initial_run empty_store)); reflexivity.
Defined.

(** ** The assembled query texts *)

Lemma ident_char_not_blank c : ident_char c = true -> Ascii.eqb c " "%char = false.
Proof.
  destruct c as [[] [] [] [] [] [] [] []]; vm_compute; congruence.
Qed.

Lemma app_empty_r (s : string) : s +:+ "" = s.
Proof.
  induction s as [|c s IH]; [done|].
  change (String c s +:+ "") with (String c (s +:+ "")). by rewrite IH.
Qed.

Lemma split_on_nonempty sep s : split_on sep s <> [].
Proof.
  destruct s as [|c s]; simpl; [done|].
  destruct (Ascii.eqb c sep); [done|]. by destruct (split_on sep s).
Qed.

Lemma split_on_ident k s :
  all_chars ident_char k = true ->
  split_on " "%char (k +:+ s)
  = match split_on " "%char s with
    | [] => [k]
    | w :: ws => (k +:+ w) :: ws
    end.
Proof.
  induction k as [|c k IH]; intros H.
  - change ("" +:+ s) with s.
    pose proof (split_on_nonempty " "%char s). by destruct (split_on _ s).
  - change (String c k +:+ s) with (String c (k +:+ s)). simpl in *.
    apply andb_prop in H as [Hc Hk]. rewrite (ident_char_not_blank _ Hc), (IH Hk).
    by destruct (split_on _ s).
Qed.

Lemma parse_where_single k :
  is_ident k = true -> parse_where (k +:+ " = %s") = Some [k].
Proof.
  unfold is_ident, parse_where, words. intros H.
  rewrite (split_on_ident k " = %s") by (by destruct (all_chars ident_char k); destruct (bool_decide (k = "")); simpl in H).
  simpl. rewrite app_empty_r.
  rewrite filter_cons_True.
  2:{ intros ->. done. }
  simpl. unfold is_ident. by rewrite H.
Qed.

(** A statement with [IN ()] is a syntax error. *)
Lemma parse_in_list_empty : parse_in_list (join ", " (replicate 0 "%s")) = None.
Proof. reflexivity. Qed.

(** ** [_upsert_and_get_id] *)

Section UpsertAndGetId.

Variables (tbl : string) (values_dict : list (string * value)) (di : domain_identifier).
Variables (k : string) (v : value) (t : table) (db : database).
Hypothesis Hkey : List.filter (fun kv => key_selected di kv.1) values_dict = [(k, v)].
Hypothesis Hident : is_ident k = true.
Hypothesis Htbl : db !! tbl = Some t.

(** With a one-column natural key, a row found with every provided
    value equal to the stored one is left alone: no UPDATE runs. *)
Lemma upsert_found_same r rest :
  List.filter (row_matches [(k, v)]) (t_rows t) = r :: rest ->
  any (differences r values_dict) = false ->
  _upsert_and_get_id tbl values_dict di db = (Ok (row_id r), db).
Proof.
  intros Hsel Hsame. unfold _upsert_and_get_id. rewrite Hkey. simpl.
  unfold where_clause_of, execute_select_where. simpl.
  rewrite (parse_where_single k Hident). simpl.
  unfold bind, read_table. rewrite Htbl, Hsel, Hsame. reflexivity.
Qed.

(** A row found with some provided value different gets one UPDATE of
    all the provided columns, by id. *)
Lemma upsert_found_changed r rest :
  List.filter (row_matches [(k, v)]) (t_rows t) = r :: rest ->
  any (differences r values_dict) = true ->
  _upsert_and_get_id tbl values_dict di db
  = (Ok (row_id r),
     <[tbl := update_ignore (unique_key tbl) values_dict (row_id r) t]> db).
Proof.
  intros Hsel Hdiff. unfold _upsert_and_get_id. rewrite Hkey. simpl.
  unfold where_clause_of, execute_select_where. simpl.
  rewrite (parse_where_single k Hident). simpl.
  unfold bind, read_table. rewrite Htbl, Hsel, Hdiff.
  unfold write_table. rewrite Htbl. reflexivity.
Qed.

(** No row found: the full value set is inserted and the id returned is
    [lastrowid]. *)
Lemma upsert_missing :
  List.filter (row_matches [(k, v)]) (t_rows t) = [] ->
  _upsert_and_get_id tbl values_dict di db
  = (Ok (insert_ignore (unique_key tbl) values_dict t).2,
     <[tbl := (insert_ignore (unique_key tbl) values_dict t).1]> db).
Proof.
  intros Hsel. unfold _upsert_and_get_id. rewrite Hkey. simpl.
  unfold where_clause_of, execute_select_where. simpl.
  rewrite (parse_where_single k Hident). simpl.
  unfold bind, read_table. rewrite Htbl, Hsel.
  unfold write_table. rewrite Htbl. reflexivity.
Qed.

End UpsertAndGetId.

(** C2 at a two-column natural key: the WHERE clause is joined with
    [' AND'], without the blank after it, so the statement reads
    [name = %s ANDid_tab = %s]; the server rejects it and the method
    raises before any row is selected, updated or inserted. *)
Theorem upsert_two_column_key_raises db :
  where_clause_of [("name", VStr "Fun"); ("id_tab", VInt 1)] = "name = %s ANDid_tab = %s"
  /\ _upsert_and_get_id "attributes" [("name", VStr "Fun"); ("id_tab", VInt 1)]
       (DomList ["name"; "id_tab"]) db
     = (Raise ProgrammingError, db)
  /\ _upsert_and_get_id "attributes" [("name", VStr "Fun"); ("id_tab", VInt 1)]
       DomNone db
     = (Raise ProgrammingError, db).
Proof. repeat split. Qed.

(** ** [insert_city_info] with no related city *)

Lemma related_Near d : related "Near" d = default [] (d_Near d).
Proof. reflexivity. Qed.
Lemma related_Next d : related "Next" d = default [] (d_Next d).
Proof. reflexivity. Qed.
Lemma related_Similar d : related "Similar" d = default [] (d_Similar d).
Proof. reflexivity. Qed.

Lemma related_cities_unfold d :
  related_cities d
  = remove_dups (default [] (d_Near d) ++ default [] (d_Next d) ++ default [] (d_Similar d)).
Proof.
  unfold related_cities, types. simpl.
  by rewrite related_Near, related_Next, related_Similar, <- app_assoc.
Qed.

(** C10: with the three relation lists empty or absent the related-city
    SELECT is sent with [IN ()] and raises; [insert_city_info] never
    returns normally, and when the earlier steps went through the store
    is left as they wrote it. *)
Theorem empty_relations_raise d db :
  default [] (d_Near d) = [] ->
  default [] (d_Next d) = [] ->
  default [] (d_Similar d) = [] ->
  (exists e db', insert_city_info d db = (Raise e, db'))
  /\ (forall id_city db8,
        steps_before_relationships d db = (Ok id_city, db8) ->
        _insert_relationships id_city d db8 = (Raise ProgrammingError, db8)
        /\ insert_city_info d db = (Raise ProgrammingError, db8)).
Proof.
  intros Hn Hx Hs.
  assert (Hrel : forall id_city db8,
             _insert_relationships id_city d db8 = (Raise ProgrammingError, db8)).
  { intros. unfold _insert_relationships.
    rewrite related_cities_unfold, Hn, Hx, Hs. reflexivity. }
  split.
  - rewrite insert_city_info_steps. unfold bind.
    destruct (steps_before_relationships d db) as [[id_city|e] db8]; [|eauto].
    rewrite Hrel. eauto.
  - intros id_city db8 H. split; [apply Hrel|].
    rewrite insert_city_info_steps, (bind_ok _ _ _ _ _ H). apply Hrel.
Qed.

Lemma empty_relations_raise_witness :
  default [] (d_Near lonely) = [] /\ default [] (d_Next lonely) = []
  /\ default [] (d_Similar lonely) = []
  /\ (exists e db', insert_city_info lonely empty_store = (Raise e, db'))
  /\ rows_of "cities" (insert_city_info lonely empty_store).2
     = [Row 1 (<["id_country" := VInt 1]> (<["city_rank" := VInt 7]> {["name" := VStr "Valletta"]}))].
Proof.
  split; [reflexivity|]. split; [reflexivity|]. split; [reflexivity|].
  split.
  - apply (empty_relations_raise lonely empty_store); reflexivity.
  - vm_compute. reflexivity.
Defined.

(** ** The row engine: facts *)

Lemma sql_eq_true a b : sql_eq a b = true -> a = b /\ a <> VNone.
Proof.
  destruct a, b; simpl; try discriminate; intros H; apply bool_decide_eq_true in H;
    split; congruence.
Qed.

Lemma sql_eq_str x s : sql_eq x (VStr s) = bool_decide (x = VStr s).
Proof. destruct x; simpl; try reflexivity. Qed.

Lemma sql_eq_int x z : sql_eq x (VInt z) = bool_decide (x = VInt z).
Proof. destruct x; simpl; try reflexivity. Qed.

Lemma insert_ignore_rows key cvs t :
  t_rows (insert_ignore key cvs t).1
  = t_rows t ++ (if existsb (conflicts key cvs) (t_rows t) then []
                 else [fresh_row cvs (t_next t)]).
Proof.
  unfold insert_ignore. destruct (existsb _ _); simpl; by rewrite ?app_nil_r.
Qed.

Lemma insert_ignore_noop key cvs t :
  existsb (conflicts key cvs) (t_rows t) = true -> insert_ignore key cvs t = (t, 0).
Proof. intros H. unfold insert_ignore. by rewrite H. Qed.

Lemma insert_ignore_conflict_after key cvs t :
  self_conflict key cvs ->
  existsb (conflicts key cvs) (t_rows (insert_ignore key cvs t).1) = true.
Proof.
  intros Hs. unfold insert_ignore.
  destruct (existsb _ (t_rows t)) eqn:E; simpl; [done|].
  rewrite existsb_app. simpl. by rewrite Hs, orb_true_r.
Qed.

Lemma insert_ignore_ids_ok key cvs t : ids_ok t -> ids_ok (insert_ignore key cvs t).1.
Proof.
  intros [Hnd Hlt]. unfold insert_ignore.
  destruct (existsb _ (t_rows t)); simpl; [done|]. split; simpl.
  - rewrite fmap_app. simpl. apply NoDup_app. split; [done|]. split.
    + intros x Hx ->%list_elem_of_singleton.
      apply list_elem_of_fmap in Hx as (r & Hr & Hin).
      rewrite Forall_forall in Hlt. specialize (Hlt r Hin). lia.
    + apply NoDup_singleton.
  - apply Forall_app. split.
    + eapply Forall_impl; [exact Hlt|]. simpl. intros; lia.
    + constructor; [|constructor]. simpl. lia.
Qed.

(** *** A run of [INSERT IGNORE] statements *)

Lemma insert_all_prefix tbl args t :
  exists extra, t_rows (insert_all tbl t args) = t_rows t ++ extra.
Proof.
  revert t. induction args as [|cvs args IH]; intros t; simpl.
  - exists []. by rewrite app_nil_r.
  - destruct (IH (insert_ignore_stmt tbl cvs t)) as [extra He].
    unfold insert_all in *. rewrite He. unfold insert_ignore_stmt.
    rewrite insert_ignore_rows, <- app_assoc. eauto.
Qed.

Lemma insert_all_ids_ok tbl args t : ids_ok t -> ids_ok (insert_all tbl t args).
Proof.
  revert t. induction args as [|cvs args IH]; intros t H; simpl; [done|].
  apply IH. by apply insert_ignore_ids_ok.
Qed.

Lemma existsb_prefix {A} (p : A -> bool) l extra :
  existsb p l = true -> existsb p (l ++ extra) = true.
Proof. intros H. by rewrite existsb_app, H. Qed.

Lemma insert_all_conflict_after tbl args t cvs :
  cvs ∈ args -> self_conflict (unique_key tbl) cvs ->
  existsb (conflicts (unique_key tbl) cvs) (t_rows (insert_all tbl t args)) = true.
Proof.
  revert t. induction args as [|a args IH]; intros t Hin Hs.
  - by apply elem_of_nil in Hin.
  - apply elem_of_cons in Hin as [->|Hin]; simpl.
    + destruct (insert_all_prefix tbl args (insert_ignore_stmt tbl a t)) as [extra ->].
      apply existsb_prefix. by apply insert_ignore_conflict_after.
    + by apply IH.
Qed.

(** Statements that all collide with stored rows change nothing. *)
Lemma insert_all_noop tbl args t :
  (forall cvs, cvs ∈ args -> existsb (conflicts (unique_key tbl) cvs) (t_rows t) = true) ->
  insert_all tbl t args = t.
Proof.
  induction args as [|a args IH]; intros H; simpl; [done|].
  unfold insert_ignore_stmt. rewrite insert_ignore_noop by (apply H; left). simpl.
  apply IH. intros cvs Hc. apply H. by right.
Qed.

(** Running the same statements again changes nothing. *)
Lemma insert_all_twice tbl args t :
  (forall cvs, cvs ∈ args -> self_conflict (unique_key tbl) cvs) ->
  insert_all tbl (insert_all tbl t args) args = insert_all tbl t args.
Proof.
  intros H. apply insert_all_noop. intros cvs Hc.
  apply insert_all_conflict_after; auto.
Qed.

(** So does running them on a later state of the table. *)
Lemma insert_all_noop_later tbl args t extra n :
  (forall cvs, cvs ∈ args -> self_conflict (unique_key tbl) cvs) ->
  insert_all tbl (Table n (t_rows (insert_all tbl t args) ++ extra)) args
  = Table n (t_rows (insert_all tbl t args) ++ extra).
Proof.
  intros H. apply insert_all_noop. intros cvs Hc. simpl.
  apply existsb_prefix, insert_all_conflict_after; auto.
Qed.

(** ** Statements on the store *)

Lemma write_table_some {A} tbl (f : table -> table * A) db t :
  db !! tbl = Some t -> write_table tbl f db = (Ok (f t).2, <[tbl := (f t).1]> db).
Proof. intros H. unfold write_table. by rewrite H. Qed.

Lemma read_table_some {A} tbl (f : table -> A) db t :
  db !! tbl = Some t -> read_table tbl f db = (Ok (f t), db).
Proof. intros H. unfold read_table. by rewrite H. Qed.

Lemma write_table_inv {A} tbl (f : table -> table * A) db a db' :
  write_table tbl f db = (Ok a, db') ->
  exists t, db !! tbl = Some t /\ a = (f t).2 /\ db' = <[tbl := (f t).1]> db.
Proof.
  unfold write_table. destruct (db !! tbl) as [t|] eqn:E; [|discriminate].
  intros [= <- <-]. eauto.
Qed.

Lemma read_table_inv {A} tbl (f : table -> A) db a db' :
  read_table tbl f db = (Ok a, db') ->
  exists t, db !! tbl = Some t /\ a = f t /\ db' = db.
Proof.
  unfold read_table. destruct (db !! tbl) as [t|] eqn:E; [|discriminate].
  intros [= <- <-]. eauto.
Qed.

Lemma executemany_some tbl stmt args db t :
  db !! tbl = Some t ->
  executemany tbl stmt args db
  = (Ok tt, <[tbl := foldl (fun t cvs => stmt cvs t) t args]> db).
Proof.
  intros H. destruct args as [|a args]; simpl.
  - unfold ret. by rewrite insert_id.
  - by rewrite (write_table_some _ _ _ _ H).
Qed.

Lemma executemany_inv tbl stmt args db u db' :
  executemany tbl stmt args db = (Ok u, db') ->
  (args = [] /\ db' = db)
  \/ (exists t, db !! tbl = Some t
              /\ db' = <[tbl := foldl (fun t cvs => stmt cvs t) t args]> db).
Proof.
  destruct args as [|a args]; simpl.
  - intros [= <-]. by left.
  - intros (t & Ht & _ & ->)%write_table_inv. right. eauto.
Qed.

(** *** Statements leave the other tables alone *)

Lemma preserves_ret {A} T (a : A) : preserves T (ret a).
Proof. by intros db r db' [= <- <-]. Qed.

Lemma preserves_raise {A} T e : preserves T (@raise A e).
Proof. by intros db r db' [= <- <-]. Qed.

Lemma preserves_lift {A} T (x : result A) : preserves T (lift x).
Proof. destruct x; [apply preserves_ret | apply preserves_raise]. Qed.

Lemma preserves_bind {A B} T (m : M A) (k : A -> M B) :
  preserves T m -> (forall a, preserves T (k a)) -> preserves T (bind m k).
Proof.
  intros Hm Hk db r db'. unfold bind.
  destruct (m db) as [[a|e] db1] eqn:E.
  - intros H. rewrite (Hk _ _ _ _ H). eapply Hm, E.
  - intros [= <- <-]. eapply Hm, E.
Qed.

Lemma preserves_write {A} T tbl (f : table -> table * A) :
  tbl <> T -> preserves T (write_table tbl f).
Proof.
  intros Hne db r db'. unfold write_table. destruct (db !! tbl).
  - intros [= <- <-]. by rewrite lookup_insert_ne.
  - by intros [= <- <-].
Qed.

Lemma preserves_read {A} T tbl (f : table -> A) : preserves T (read_table tbl f).
Proof.
  intros db r db'. unfold read_table. destruct (db !! tbl); by intros [= <- <-].
Qed.

Lemma preserves_executemany T tbl stmt args :
  tbl <> T -> preserves T (executemany tbl stmt args).
Proof.
  intros Hne. destruct args; [apply preserves_ret | by apply preserves_write].
Qed.

Lemma preserves_select_where T tbl clause args :
  preserves T (execute_select_where tbl clause args).
Proof.
  unfold execute_select_where. destruct (parse_where clause);
    [apply preserves_read | apply preserves_raise].
Qed.

Lemma preserves_upsert_and_get_id T tbl values_dict di :
  tbl <> T -> preserves T (_upsert_and_get_id tbl values_dict di).
Proof.
  intros Hne. unfold _upsert_and_get_id.
  apply preserves_bind; [apply preserves_select_where|]. intros [|r found].
  - by apply preserves_write.
  - apply preserves_bind; [|intros; apply preserves_ret].
    destruct (any _); [by apply preserves_write | apply preserves_ret].
Qed.

Lemma preserves_upsert_tab_and_attributes {A} T tab_name (tab_info : list (string * A)) :
  "tabs" <> T -> "attributes" <> T ->
  preserves T (_upsert_tab_and_attributes tab_name tab_info).
Proof.
  intros H1 H2. unfold _upsert_tab_and_attributes.
  apply preserves_bind; [by apply preserves_write|]. intros _.
  apply preserves_bind; [apply preserves_read|]. intros [|r found].
  - apply preserves_raise.
  - apply preserves_bind; [by apply preserves_executemany|]. intros _.
    apply preserves_read.
Qed.

Lemma preserves_upsert_key_value_tab_info T id_city tab_name tab_info :
  "tabs" <> T -> "attributes" <> T -> "city_attributes" <> T ->
  preserves T (_upsert_key_value_tab_info id_city tab_name tab_info).
Proof.
  intros H1 H2 H3. unfold _upsert_key_value_tab_info.
  apply preserves_bind; [by apply preserves_upsert_tab_and_attributes|]. intros attributes.
  apply preserves_bind; [apply preserves_lift|]. intros values.
  by apply preserves_executemany.
Qed.

Lemma preserves_upsert_weather T id_city d :
  "tabs" <> T -> "attributes" <> T -> "monthly_weathers_attributes" <> T ->
  preserves T (_upsert_weather id_city d).
Proof.
  intros H1 H2 H3. unfold _upsert_weather.
  apply preserves_bind; [by apply preserves_upsert_tab_and_attributes|]. intros attributes.
  by apply preserves_executemany.
Qed.

Lemma preserves_upsert_many T tbl id_city columns values :
  tbl <> T -> preserves T (_upsert_many tbl id_city columns values).
Proof. intros H. by apply preserves_executemany. Qed.

Lemma existsb_pointwise {A} (p q : A -> bool) l :
  (forall x, p x = q x) -> existsb p l = existsb q l.
Proof. intros H. induction l as [|x l IH]; simpl; [done|]. by rewrite H, IH. Qed.

Lemma filter_pointwise {A} (p q : A -> bool) l :
  (forall x, p x = q x) -> List.filter p l = List.filter q l.
Proof. intros H. induction l as [|x l IH]; simpl; [done|]. by rewrite H, IH. Qed.

Lemma filter_nil_existsb {A} (p : A -> bool) l :
  List.filter p l = [] <-> existsb p l = false.
Proof.
  induction l as [|x l IH]; simpl; [done|].
  destruct (p x); simpl; [split; discriminate | exact IH].
Qed.

(** *** Reading back what was set *)

Lemma set_cols_lookup_notin cvs m c :
  c ∉ cvs.*1 -> set_cols m cvs !! c = m !! c.
Proof.
  revert m. induction cvs as [|[c1 v1] cvs IH]; intros m Hc; simpl; [done|].
  apply not_elem_of_cons in Hc as [Hne Hc]. simpl in *.
  unfold set_cols in *. rewrite IH by done. simpl. by rewrite lookup_insert_ne.
Qed.

Lemma set_cols_lookup_in cvs m c v :
  NoDup cvs.*1 -> (c, v) ∈ cvs -> set_cols m cvs !! c = Some v.
Proof.
  revert m. induction cvs as [|[c1 v1] cvs IH]; intros m Hnd Hin.
  - by apply elem_of_nil in Hin.
  - apply NoDup_cons in Hnd as [Hnot Hnd]. simpl in *.
    apply elem_of_cons in Hin as [[= -> ->]|Hin].
    + change (set_cols (<[c1:=v1]> m) cvs !! c1 = Some v1).
      rewrite set_cols_lookup_notin by done. apply lookup_insert_eq.
    + by apply IH.
Qed.

Lemma row_get_row_set_in cvs r c v :
  NoDup cvs.*1 -> (c, v) ∈ cvs -> c <> "id" -> row_get c (row_set cvs r) = v.
Proof.
  intros Hnd Hin Hid. unfold row_get, row_set. simpl.
  rewrite bool_decide_false by done.
  change (foldl _ _ _) with (set_cols (row_cols r) cvs).
  by rewrite (set_cols_lookup_in _ _ _ _ Hnd Hin).
Qed.

Lemma row_get_row_set_notin cvs r c :
  c ∉ cvs.*1 -> row_get c (row_set cvs r) = row_get c r.
Proof.
  intros Hc. unfold row_get, row_set. simpl.
  change (foldl _ _ _) with (set_cols (row_cols r) cvs).
  by rewrite set_cols_lookup_notin.
Qed.

Lemma row_id_row_set cvs r : row_id (row_set cvs r) = row_id r.
Proof. reflexivity. Qed.

(** Setting columns to the values they hold changes nothing. *)
Lemma row_set_same cvs r :
  Forall (fun cv => row_cols r !! cv.1 = Some cv.2) cvs -> row_set cvs r = r.
Proof.
  destruct r as [i m]. unfold row_set. simpl. intros H. f_equal.
  induction H as [|[c v] cvs Hc _ IH]; simpl; [done|].
  simpl in Hc. by rewrite insert_id.
Qed.

(** *** Upsert on a table *)

Lemma upsert_and_get_id_table tbl values_dict di k v t db :
  List.filter (fun kv => key_selected di kv.1) values_dict = [(k, v)] ->
  is_ident k = true ->
  db !! tbl = Some t ->
  _upsert_and_get_id tbl values_dict di db
  = (Ok (upsert_table (unique_key tbl) values_dict (k, v) t).2,
     <[tbl := (upsert_table (unique_key tbl) values_dict (k, v) t).1]> db).
Proof.
  intros Hkey Hident Htbl. unfold upsert_table.
  destruct (List.filter (row_matches [(k, v)]) (t_rows t)) as [|r rest] eqn:Hsel.
  - by apply (upsert_missing tbl values_dict di k v t db).
  - destruct (any (differences r values_dict)) eqn:Hd; simpl.
    + by apply (upsert_found_changed tbl values_dict di k v t db Hkey Hident Htbl r rest).
    + rewrite insert_id by done.
      by apply (upsert_found_same tbl values_dict di k v t db Hkey Hident Htbl r rest).
Qed.

Lemma upsert_and_get_id_inv tbl values_dict di k v db i db' :
  List.filter (fun kv => key_selected di kv.1) values_dict = [(k, v)] ->
  is_ident k = true ->
  _upsert_and_get_id tbl values_dict di db = (Ok i, db') ->
  exists t, db !! tbl = Some t
            /\ i = (upsert_table (unique_key tbl) values_dict (k, v) t).2
            /\ db' = <[tbl := (upsert_table (unique_key tbl) values_dict (k, v) t).1]> db.
Proof.
  intros Hkey Hident H.
  destruct (db !! tbl) as [t|] eqn:Htbl.
  - rewrite (upsert_and_get_id_table _ _ _ _ _ _ _ Hkey Hident Htbl) in H.
    injection H as <- <-. eauto.
  - exfalso. unfold _upsert_and_get_id in H. rewrite Hkey in H. simpl in H.
    unfold where_clause_of, execute_select_where in H. simpl in H.
    rewrite (parse_where_single k Hident) in H.
    unfold bind, read_table in H. rewrite Htbl in H. discriminate.
Qed.

Lemma update_first_keeps p f rs r :
  r ∈ rs -> p r = true -> f r ∈ update_first p f rs \/ r ∈ update_first p f rs.
Proof.
  induction rs as [|x rs IH]; intros Hin Hp; [by apply elem_of_nil in Hin|].
  simpl. apply elem_of_cons in Hin as [->|Hin].
  - rewrite Hp. left. left.
  - destruct (p x); [right; by right|].
    destruct (IH Hin Hp); [left | right]; by right.
Qed.

Lemma row_matches_single k v r :
  row_matches [(k, v)] r = sql_eq (row_get k r) v.
Proof. unfold row_matches. simpl. by rewrite andb_true_r. Qed.

(** With the unique key the filter column itself, collision is what the
    WHERE clause tests. *)
Lemma conflicts_single k v values_dict r :
  NoDup values_dict.*1 -> (k, v) ∈ values_dict -> k <> "id" ->
  conflicts [k] values_dict r = row_matches [(k, v)] r.
Proof.
  intros Hnd Hin Hid. unfold conflicts, collides, fresh_row. simpl.
  by rewrite (row_get_row_set_in _ _ _ _ Hnd Hin Hid).
Qed.

(** After the upsert the row whose id is returned holds the key value. *)
Lemma upsert_table_row k v values_dict t :
  NoDup values_dict.*1 -> (k, v) ∈ values_dict -> k <> "id" ->
  exists r, r ∈ t_rows (upsert_table [k] values_dict (k, v) t).1
            /\ row_id r = (upsert_table [k] values_dict (k, v) t).2
            /\ row_get k r = v.
Proof.
  intros Hnd Hin Hid. unfold upsert_table.
  destruct (List.filter (row_matches [(k, v)]) (t_rows t)) as [|r rest] eqn:Hsel.
  - unfold insert_ignore.
    rewrite (existsb_pointwise _ _ _
               (fun r => conflicts_single k v values_dict r Hnd Hin Hid)).
    apply filter_nil_existsb in Hsel. rewrite Hsel. simpl.
    exists (fresh_row values_dict (t_next t)). split; [|split; [done|]].
    + apply elem_of_app. right. left.
    + by apply row_get_row_set_in.
  - assert (Hr : r ∈ t_rows t /\ row_get k r = v).
    { assert (In r (List.filter (row_matches [(k, v)]) (t_rows t))) as Hf
        by (rewrite Hsel; by left).
      apply filter_In in Hf as [Hf Hm]. rewrite row_matches_single in Hm.
      apply sql_eq_true in Hm as [Hm _]. split; [by apply list_elem_of_In | done]. }
    destruct Hr as [Hr Hv]. simpl.
    destruct (any (differences r values_dict)); [|eauto].
    unfold update_ignore. destruct (find _ _) as [old|]; [|eauto].
    destruct (existsb _ _); [eauto|]. simpl.
    destruct (update_first_keeps (has_id (row_id r)) (row_set values_dict) (t_rows t) r Hr)
      as [H|H]; [by apply bool_decide_eq_true | | eauto].
    exists (row_set values_dict r). split; [done|]. split; [done|].
    by apply row_get_row_set_in.
Qed.

(** ** Related cities *)

Lemma conflicts_name n r : conflicts ["name"] (name_row n) r = named n r.
Proof.
  unfold conflicts, collides, named. simpl.
  change (row_get "name" (fresh_row (name_row n) 0)) with (VStr n).
  by rewrite sql_eq_str, andb_true_r.
Qed.

Lemma named_fresh n m i : named n (fresh_row (name_row m) i) = bool_decide (m = n).
Proof.
  unfold named. change (row_get "name" (fresh_row (name_row m) i)) with (VStr m).
  apply bool_decide_ext. split; congruence.
Qed.

Lemma insert_name_rows m t :
  t_rows (insert_ignore_stmt "cities" (name_row m) t)
  = t_rows t ++ (if existsb (named m) (t_rows t) then [] else [fresh_row (name_row m) (t_next t)]).
Proof.
  unfold insert_ignore_stmt. rewrite insert_ignore_rows.
  change (unique_key "cities") with ["name"].
  by rewrite (existsb_pointwise _ _ _ (conflicts_name m)).
Qed.

(** A name that has its row keeps that one row. *)
Lemma insert_names_keep n names t r :
  List.filter (named n) (t_rows t) = [r] ->
  List.filter (named n) (t_rows (insert_all "cities" t (name_rows names))) = [r].
Proof.
  revert t. induction names as [|m names IH]; intros t H; simpl; [done|].
  apply IH. rewrite insert_name_rows, List.filter_app, H.
  destruct (existsb (named m) (t_rows t)) eqn:E; simpl; [done|].
  rewrite named_fresh. case_bool_decide as Hm; [|done]. subst m.
  apply filter_nil_existsb in E. rewrite E in H. discriminate.
Qed.

(** A name without a row gets exactly one, holding the name alone. *)
Lemma insert_names_new n names t :
  List.filter (named n) (t_rows t) = [] ->
  n ∈ names ->
  exists i,
    List.filter (named n) (t_rows (insert_all "cities" t (name_rows names)))
    = [fresh_row (name_row n) i].
Proof.
  revert t. induction names as [|m names IH]; intros t H Hin.
  - by apply elem_of_nil in Hin.
  - simpl. destruct (decide (m = n)) as [->|Hne].
    + exists (t_next t). apply insert_names_keep.
      rewrite insert_name_rows, List.filter_app, H.
      apply filter_nil_existsb in H. rewrite H. simpl.
      rewrite named_fresh, bool_decide_true; done.
    + apply IH.
      * rewrite insert_name_rows, List.filter_app, H.
        destruct (existsb (named m) (t_rows t)); simpl; [done|].
        rewrite named_fresh, bool_decide_false; done.
      * apply elem_of_cons in Hin as [Heq|Hin]; [congruence | done].
Qed.

Lemma elem_of_related_cities n d :
  n ∈ related_cities d
  <-> n ∈ default [] (d_Near d) \/ n ∈ default [] (d_Next d) \/ n ∈ default [] (d_Similar d).
Proof.
  rewrite related_cities_unfold, elem_of_remove_dups, !elem_of_app. tauto.
Qed.

Lemma edge_row_self_conflict a b c :
  self_conflict (unique_key "cities_relationships") (edge_row a b c).
Proof.
  intros i. unfold conflicts, collides. simpl.
  change (row_get "id_city" (fresh_row (edge_row a b c) i)) with (VInt a).
  change (row_get "id_city" (fresh_row (edge_row a b c) 0)) with (VInt a).
  change (row_get "id_related_city" (fresh_row (edge_row a b c) i)) with (VInt b).
  change (row_get "id_related_city" (fresh_row (edge_row a b c) 0)) with (VInt b).
  change (row_get "type" (fresh_row (edge_row a b c) i)) with (VInt c).
  change (row_get "type" (fresh_row (edge_row a b c) 0)) with (VInt c).
  rewrite !sql_eq_int, !bool_decide_true; done.
Qed.

Lemma edge_row_conflict a b c e :
  conflicts (unique_key "cities_relationships") (edge_row a b c) e = true ->
  row_get "id_city" e = VInt a /\ row_get "id_related_city" e = VInt b
  /\ row_get "type" e = VInt c.
Proof.
  unfold conflicts, collides. simpl.
  change (row_get "id_city" (fresh_row (edge_row a b c) 0)) with (VInt a).
  change (row_get "id_related_city" (fresh_row (edge_row a b c) 0)) with (VInt b).
  change (row_get "type" (fresh_row (edge_row a b c) 0)) with (VInt c).
  rewrite !sql_eq_int, andb_true_r, !andb_true_iff, !bool_decide_eq_true. tauto.
Qed.

(** The edge of a fetched related city under the Near key is among the
    rows the method inserts. *)
Lemma near_edge_in_relationship_rows id_city fetched d i n :
  (i, VStr n) ∈ fetched ->
  n ∈ default [] (d_Near d) ->
  edge_row id_city i 0 ∈ relationship_rows id_city fetched d.
Proof.
  intros Hf Hn. unfold relationship_rows.
  apply list_elem_of_In, in_flat_map. exists (i, VStr n).
  split; [by apply list_elem_of_In|].
  apply in_flat_map. exists (0, "Near"). split; [by left|].
  simpl. rewrite related_Near, bool_decide_true by done. by left.
Qed.

Lemma preserves_upsert_sections T id_city d :
  "tabs" <> T -> "attributes" <> T -> "city_attributes" <> T ->
  "monthly_weathers_attributes" <> T -> "photos" <> T -> "pros_and_cons" <> T ->
  "reviews" <> T ->
  preserves T (upsert_sections id_city d).
Proof.
  intros. unfold upsert_sections.
  repeat first
    [ by apply preserves_upsert_key_value_tab_info
    | by apply preserves_upsert_many
    | by apply preserves_upsert_weather
    | apply preserves_lift
    | apply preserves_bind; [|intros] ].
Qed.

Lemma steps_before_relationships_inv d db id_city db8 :
  steps_before_relationships d db = (Ok id_city, db8) ->
  exists db3, upsert_place d db = (Ok id_city, db3)
              /\ upsert_sections id_city d db3 = (Ok tt, db8).
Proof.
  unfold steps_before_relationships.
  intros (i & db3 & Hp & H)%bind_inv_ok.
  apply bind_inv_ok in H as ([] & db8' & Hs & [= <- <-]). eauto.
Qed.

(** The city row that [upsert_place] returns the id of. *)
Lemma upsert_place_city d db id_city db3 :
  upsert_place d db = (Ok id_city, db3) ->
  exists c, c ∈ rows_of "cities" db3 /\ row_id c = id_city
            /\ row_get "name" c = VStr (d_city d).
Proof.
  unfold upsert_place.
  intros (i1 & db1 & _ & H)%bind_inv_ok.
  apply bind_inv_ok in H as (i2 & db2 & _ & H).
  apply (upsert_and_get_id_inv _ _ _ "name" (VStr (d_city d))) in H
    as (t & Ht & -> & ->); [|reflexivity..].
  unfold rows_of. rewrite lookup_insert_eq.
  change (unique_key "cities") with ["name"].
  apply upsert_table_row; [|left|done].
  by apply (bool_decide_unpack _).
Qed.

Lemma insert_relationships_inv id_city d db8 db' n :
  n ∈ related_cities d ->
  _insert_relationships id_city d db8 = (Ok tt, db') ->
  exists tc fetched,
    db8 !! "cities" = Some tc
    /\ fetched = map (fun r => (row_id r, row_get "name" r))
                   (List.filter (name_in (related_cities d))
                      (t_rows (insert_all "cities" tc (name_rows (related_cities d)))))
    /\ ((relationship_rows id_city fetched d = []
         /\ db' = <["cities" := insert_all "cities" tc (name_rows (related_cities d))]> db8)
        \/ exists tr,
             db8 !! "cities_relationships" = Some tr
             /\ db' = <["cities_relationships" :=
                          insert_all "cities_relationships" tr
                            (relationship_rows id_city fetched d)]>
                        (<["cities" := insert_all "cities" tc
                                          (name_rows (related_cities d))]> db8)).
Proof.
  intros Hn. unfold _insert_relationships.
  intros ([] & dbA & H1 & H)%bind_inv_ok.
  apply executemany_inv in H1 as [[Hnil _]|(tc & Htc & ->)].
  { apply (f_equal length) in Hnil. rewrite length_map in Hnil.
    destruct (related_cities d); [by apply elem_of_nil in Hn | discriminate]. }
  apply bind_inv_ok in H as (fetched & dbB & H2 & H3).
  unfold execute_select_cities_in in H2.
  destruct (parse_in_list _); [|discriminate].
  apply read_table_inv in H2 as (tc' & Htc' & -> & ->).
  rewrite lookup_insert_eq in Htc'. injection Htc' as <-.
  exists tc, (map (fun r => (row_id r, row_get "name" r))
                (List.filter (name_in (related_cities d))
                   (t_rows (insert_all "cities" tc (name_rows (related_cities d)))))).
  split; [done|]. split; [done|].
  apply executemany_inv in H3 as [[Hnil ->]|(tr & Htr & ->)]; [by left|].
  right. exists tr. rewrite lookup_insert_ne in Htr by done. done.
Qed.

(** A name under the Near key that has no row in [cities] when the
    relationships are resolved has, once [insert_city_info] returns,
    exactly one row, holding the name alone, and [cities_relationships]
    has an edge of type 0 (the index of Near) from the persisted city to
    that row. *)
Lemma new_name_is_linked d db id_city db8 db' n :
  steps_before_relationships d db = (Ok id_city, db8) ->
  insert_city_info d db = (Ok tt, db') ->
  n ∈ default [] (d_Near d) ->
  (forall r, r ∈ rows_of "cities" db8 -> row_get "name" r <> VStr n) ->
  (exists c, c ∈ rows_of "cities" db' /\ row_id c = id_city
             /\ row_get "name" c = VStr (d_city d))
  /\ exists r,
       List.filter (named n) (rows_of "cities" db') = [r]
       /\ row_cols r = {["name" := VStr n]}
       /\ exists e, e ∈ rows_of "cities_relationships" db'
                    /\ row_get "id_city" e = VInt id_city
                    /\ row_get "id_related_city" e = VInt (row_id r)
                    /\ row_get "type" e = VInt 0.
Proof.
  intros Hsteps Hall Hn Hnew.
  rewrite insert_city_info_steps, (bind_ok _ _ _ _ _ Hsteps) in Hall.
  assert (Hrel : n ∈ related_cities d) by (apply elem_of_related_cities; auto).
  apply (insert_relationships_inv _ _ _ _ n Hrel) in Hall
    as (tc & fetched & Htc & Hfetched & Hdb).
  set (tc' := insert_all "cities" tc (name_rows (related_cities d))) in *.
  (* the row of the name *)
  assert (Hnone : List.filter (named n) (t_rows tc) = []).
  { apply filter_nil_existsb. apply not_true_is_false.
    intros (r & Hr & Hnamed)%existsb_exists.
    apply bool_decide_eq_true in Hnamed. apply (Hnew r); [|done].
    unfold rows_of. rewrite Htc. by apply list_elem_of_In. }
  destruct (insert_names_new n (related_cities d) tc Hnone Hrel) as [i Hi].
  fold tc' in Hi.
  assert (Hfi : (i, VStr n) ∈ fetched).
  { subst fetched. apply list_elem_of_In, in_map_iff.
    exists (fresh_row (name_row n) i). split; [done|].
    apply filter_In. split.
    - assert (In (fresh_row (name_row n) i) (List.filter (named n) (t_rows tc')))
        as Hf by (rewrite Hi; by left).
      by apply filter_In in Hf as [Hf _].
    - unfold name_in. apply existsb_exists. exists n.
      split; [by apply list_elem_of_In|].
      change (row_get "name" (fresh_row (name_row n) i)) with (VStr n).
      rewrite sql_eq_str. by apply bool_decide_eq_true. }
  pose proof (near_edge_in_relationship_rows id_city fetched d i n Hfi Hn) as Hedge.
  destruct Hdb as [[Hnil _]|(tr & Htr & ->)].
  { rewrite Hnil in Hedge. by apply elem_of_nil in Hedge. }
  assert (Hc' : rows_of "cities"
                  (<["cities_relationships" :=
                       insert_all "cities_relationships" tr
                         (relationship_rows id_city fetched d)]>
                     (<["cities" := tc']> db8)) = t_rows tc').
  { unfold rows_of. by rewrite lookup_insert_ne, lookup_insert_eq. }
  rewrite Hc'. split.
  - (* the persisted city *)
    apply steps_before_relationships_inv in Hsteps as (db3 & Hplace & Hsec).
    destruct (upsert_place_city _ _ _ _ Hplace) as (c & Hc & Hid & Hname).
    exists c. split; [|done].
    assert (Hkeep : db8 !! "cities" = db3 !! "cities")
      by (by apply (preserves_upsert_sections "cities" id_city d) in Hsec).
    unfold rows_of in Hc. rewrite <- Hkeep, Htc in Hc.
    destruct (insert_all_prefix "cities" (name_rows (related_cities d)) tc) as [extra He].
    unfold tc'. rewrite He. apply elem_of_app. by left.
  - exists (fresh_row (name_row n) i). split; [done|].
    split; [apply insert_empty|].
    pose proof (insert_all_conflict_after "cities_relationships"
                  (relationship_rows id_city fetched d) tr _ Hedge
                  (edge_row_self_conflict id_city i 0)) as Hex.
    apply existsb_exists in Hex as (e & He & Hconf).
    apply edge_row_conflict in Hconf. exists e. split; [|done].
    unfold rows_of. rewrite lookup_insert_eq. by apply list_elem_of_In.
Qed.

Lemma update_first_rows (p : row -> bool) f rs r :
  r ∈ update_first p f rs -> r ∈ rs \/ exists r0, r = f r0.
Proof.
  induction rs as [|x rs IH]; simpl; [by left|].
  destruct (p x).
  - intros [->|H]%elem_of_cons; [right; eauto | left; by right].
  - intros [->|H]%elem_of_cons; [left; left|].
    destruct (IH H) as [?|?]; [left; by right | by right].
Qed.

(** A row of the table after an upsert was there before, or holds the
    upserted values. *)
Lemma upsert_table_rows key values_dict kv t r :
  r ∈ t_rows (upsert_table key values_dict kv t).1 ->
  r ∈ t_rows t \/ exists r0, r = row_set values_dict r0.
Proof.
  unfold upsert_table. destruct (List.filter _ _) as [|r1 rest].
  - rewrite insert_ignore_rows. intros [H|H]%elem_of_app; [by left|].
    destruct (existsb _ _); [by apply elem_of_nil in H|].
    apply list_elem_of_singleton in H. right. by exists (Row (t_next t) ∅).
  - simpl. destruct (any _); [|by left].
    unfold update_ignore. destruct (find _ _); [|by left].
    destruct (existsb _ _); [by left|]. simpl. apply update_first_rows.
Qed.

(** A name other than the city's own that has no row in [cities] before
    [insert_city_info] has none when the relationships are resolved. *)
Lemma name_still_absent d db id_city db8 n :
  steps_before_relationships d db = (Ok id_city, db8) ->
  n <> d_city d ->
  (forall r, r ∈ rows_of "cities" db -> row_get "name" r <> VStr n) ->
  forall r, r ∈ rows_of "cities" db8 -> row_get "name" r <> VStr n.
Proof.
  intros Hsteps Hne Hnew r Hr.
  apply steps_before_relationships_inv in Hsteps as (db3 & Hplace & Hsec).
  assert (K8 : db8 !! "cities" = db3 !! "cities")
    by (by apply (preserves_upsert_sections "cities" id_city d) in Hsec).
  unfold upsert_place in Hplace.
  apply bind_inv_ok in Hplace as (i1 & db1 & H1 & Hplace).
  apply bind_inv_ok in Hplace as (i2 & db2 & H2 & H3).
  assert (K2 : db2 !! "cities" = db !! "cities").
  { apply (preserves_upsert_and_get_id "cities") in H1, H2; [|done..]. congruence. }
  apply (upsert_and_get_id_inv _ _ _ "name" (VStr (d_city d))) in H3
    as (t & Ht & _ & ->); [|reflexivity..].
  unfold rows_of in Hr, Hnew. rewrite K8, lookup_insert_eq in Hr.
  rewrite <- K2, Ht in Hnew.
  apply upsert_table_rows in Hr as [Hr|[r0 ->]]; [by apply Hnew|].
  rewrite (row_get_row_set_in _ r0 "name" (VStr (d_city d)));
    [congruence | by apply (bool_decide_unpack _) | left | done].
Qed.

(** C7, corrected: a name under the Near key, other than the record's
    own city name, that has no row in [cities] when [insert_city_info]
    is called has, once the call returns, exactly one row, holding the
    name alone, and [cities_relationships] has an edge of type 0 (the
    index of Near) from the row of the persisted city to that row. *)
Theorem related_city_created d db db' n :
  insert_city_info d db = (Ok tt, db') ->
  n ∈ default [] (d_Near d) ->
  n <> d_city d ->
  (forall r, r ∈ rows_of "cities" db -> row_get "name" r <> VStr n) ->
  exists c r,
    c ∈ rows_of "cities" db'
    /\ row_get "name" c = VStr (d_city d)
    /\ List.filter (named n) (rows_of "cities" db') = [r]
    /\ row_cols r = {["name" := VStr n]}
    /\ exists e, e ∈ rows_of "cities_relationships" db'
                 /\ row_get "id_city" e = VInt (row_id c)
                 /\ row_get "id_related_city" e = VInt (row_id r)
                 /\ row_get "type" e = VInt 0.
Proof.
  intros Hall Hn Hne Hnew. pose proof Hall as Hall'.
  rewrite insert_city_info_steps in Hall'.
  apply bind_inv_ok in Hall' as (id_city & db8 & Hsteps & _).
  destruct (new_name_is_linked d db id_city db8 db' n Hsteps Hall Hn
              (name_still_absent d db id_city db8 n Hsteps Hne Hnew))
    as ((c & Hc & Hid & Hname) & r & Hr & Hbare & e & He & H1 & H2 & H3).
  exists c, r. rewrite Hid. eauto 10.
Qed.

Lemma related_city_created_witness :
  insert_city_info lisbon empty_store = (Ok tt, (insert_city_info lisbon empty_store).2)
  /\ "Porto" ∈ default [] (d_Near lisbon)
  /\ "Porto" <> d_city lisbon
  /\ exists r,
       List.filter (named "Porto")
         (rows_of "cities" (insert_city_info lisbon empty_store).2) = [r]
       /\ row_cols r = {["name" := VStr "Porto"]}.
Proof.
  assert (H1 : insert_city_info lisbon empty_store
               = (Ok tt, (insert_city_info lisbon empty_store).2))
    by (apply run_ok; vm_compute; reflexivity).
  assert (H2 : "Porto" ∈ default [] (d_Near lisbon)) by (simpl; left).
  assert (H3 : "Porto" <> d_city lisbon) by discriminate.
  split; [exact H1|]. split; [exact H2|]. split; [exact H3|].
  destruct (related_city_created lisbon empty_store _ "Porto" H1 H2 H3)
    as (c & r & _ & _ & Hr & Hbare & _); [|eauto].
  intros r Hr. exfalso.
  assert (E : rows_of "cities" empty_store = []) by (vm_compute; reflexivity).
  rewrite E in Hr. by apply elem_of_nil in Hr.
Defined.

(** C7 as stated fails for the record's own name: a record whose Near
    list names the city itself, a name that has no row in [cities]
    before, is persisted, and afterwards the one row with that name is
    the city's full row, with its rank and country, not a row holding
    the name alone; the edge goes from that row to itself. *)
Lemma related_city_not_bare_counterexample :
  (forall r, r ∈ rows_of "cities" empty_store -> row_get "name" r <> VStr "Lisbon")
  /\ "Lisbon" ∈ default [] (d_Near lisbon_near_itself)
  /\ (insert_city_info lisbon_near_itself empty_store).1 = Ok tt
  /\ exists r,
       List.filter (named "Lisbon")
         (rows_of "cities" (insert_city_info lisbon_near_itself empty_store).2) = [r]
       /\ row_get "city_rank" r = VInt 1
       /\ row_get "id_country" r = VInt 1
       /\ row_cols r <> {["name" := VStr "Lisbon"]}
       /\ exists e,
            rows_of "cities_relationships"
              (insert_city_info lisbon_near_itself empty_store).2 = [e]
            /\ row_get "id_city" e = VInt (row_id r)
            /\ row_get "id_related_city" e = VInt (row_id r)
            /\ row_get "type" e = VInt 0.
Proof.
  split; [|split; [|split]].
  - intros r Hr. exfalso.
    assert (E : rows_of "cities" empty_store = []) by (vm_compute; reflexivity).
    rewrite E in Hr. by apply elem_of_nil in Hr.
  - simpl. left.
  - vm_compute; reflexivity.
  - eexists. split; [vm_compute; reflexivity|].
    split; [reflexivity|]. split; [reflexivity|]. split.
    + intros Heq. apply (f_equal (fun m => m !! "city_rank")) in Heq.
      vm_compute in Heq. discriminate.
    + eexists. split; [vm_compute; reflexivity|]. by repeat split.
Qed.

(** ** [INSERT ... ON DUPLICATE KEY UPDATE] *)

Section OnDuplicate.

Variables (key upd : list string).
Hypothesis key_not_id : "id" ∉ key.
Hypothesis upd_not_key : forall c, c ∈ upd -> c ∉ key.

Lemma key_of_fresh cvs i : key_of key (fresh_row cvs i) = key_of key (fresh_row cvs 0).
Proof.
  unfold key_of. apply map_ext_in. intros c Hc%list_elem_of_In.
  unfold row_get. rewrite bool_decide_false; [done|]. intros ->. done.
Qed.

Lemma collides_key_of new r :
  collides key new r = true -> key_of key r = key_of key new.
Proof.
  unfold collides, key_of. destruct key as [|c0 key']; [discriminate|].
  intros H. apply map_ext_in. intros c Hc.
  rewrite forallb_forall in H. specialize (H c Hc).
  by apply sql_eq_true in H as [H _].
Qed.

Lemma collides_same_key new new' r :
  key_of key new = key_of key new' -> collides key new r = collides key new' r.
Proof.
  unfold collides, key_of. destruct key as [|c0 key']; [done|].
  generalize (c0 :: key'). intros l H.
  induction l as [|c l IH]; simpl in *; [done|].
  injection H as H1 H2. by rewrite H1, IH.
Qed.

Lemma collides_same_row new r r' :
  key_of key r = key_of key r' -> collides key new r = collides key new r'.
Proof.
  unfold collides, key_of. destruct key as [|c0 key']; [done|].
  generalize (c0 :: key'). intros l H.
  induction l as [|c l IH]; simpl in *; [done|].
  injection H as H1 H2. by rewrite H1, IH.
Qed.

(** Two sets of values with different keys never collide with the same
    row. *)
Lemma conflicts_disjoint cvs cvs' r :
  key_of key (fresh_row cvs 0) <> key_of key (fresh_row cvs' 0) ->
  conflicts key cvs r = true -> conflicts key cvs' r = false.
Proof.
  intros Hne H. apply not_true_is_false. intros H'.
  apply collides_key_of in H, H'. congruence.
Qed.

Lemma upd_part_keeps_key cvs r :
  key_of key (row_set (upd_part upd cvs) r) = key_of key r.
Proof.
  unfold key_of. apply map_ext_in. intros c Hc%list_elem_of_In.
  apply row_get_row_set_notin. intros Hin.
  apply list_elem_of_fmap in Hin as ([c' v'] & -> & Hin).
  apply list_elem_of_In, filter_In in Hin as [_ Hu].
  apply bool_decide_eq_true in Hu. by apply (upd_not_key c').
Qed.

Lemma filter_update_first_other (p q : row -> bool) f rs :
  (forall x, q x = true -> p x = false /\ p (f x) = false) ->
  List.filter p (update_first q f rs) = List.filter p rs.
Proof.
  intros H. induction rs as [|x rs IH]; simpl; [done|].
  destruct (q x) eqn:Hq; simpl.
  - destruct (H x Hq) as [-> ->]. done.
  - by rewrite IH.
Qed.

Lemma filter_update_first_same (p : row -> bool) f rs r rest :
  (forall x, p (f x) = p x) ->
  List.filter p rs = r :: rest ->
  List.filter p (update_first p f rs) = f r :: rest.
Proof.
  intros H. induction rs as [|x rs IH]; simpl; [discriminate|].
  destruct (p x) eqn:Hp; simpl.
  - intros [= -> <-]. by rewrite H, Hp.
  - rewrite Hp. exact IH.
Qed.

Lemma update_first_fixed (p : row -> bool) f rs r rest :
  List.filter p rs = r :: rest -> f r = r -> update_first p f rs = rs.
Proof.
  intros Hf Hr. induction rs as [|x rs IH]; simpl in *; [done|].
  destruct (p x); [|by rewrite IH]. injection Hf as -> _. by rewrite Hr.
Qed.

Lemma length_filter_update_first (p q : row -> bool) f rs :
  (forall x, p (f x) = p x) ->
  length (List.filter p (update_first q f rs)) = length (List.filter p rs).
Proof.
  intros H. induction rs as [|x rs IH]; simpl; [done|].
  destruct (q x); simpl.
  - rewrite H. by destruct (p x).
  - destruct (p x); simpl; by rewrite IH.
Qed.

(** The statement changes nothing when the values are already stored. *)
Lemma on_duplicate_noop cvs t :
  stored key upd cvs t -> insert_on_duplicate key upd cvs t = t.
Proof.
  intros (r & rest & Hf & Hr). unfold insert_on_duplicate.
  assert (existsb (conflicts key cvs) (t_rows t) = true) as ->.
  { apply not_false_iff_true. intros E%filter_nil_existsb. congruence. }
  fold (upd_part upd cvs). rewrite (update_first_fixed _ _ _ _ _ Hf Hr). by destruct t.
Qed.

Lemma row_set_fresh_upd_part cvs i :
  NoDup cvs.*1 -> row_set (upd_part upd cvs) (fresh_row cvs i) = fresh_row cvs i.
Proof.
  intros Hnd. apply row_set_same. apply Forall_forall. intros [c v] Hin.
  apply list_elem_of_In, filter_In in Hin as [Hin _]. simpl.
  change (set_cols ∅ cvs !! c = Some v).
  apply set_cols_lookup_in; [done | by apply list_elem_of_In].
Qed.

Lemma row_set_twice cvs r :
  NoDup cvs.*1 -> row_set cvs (row_set cvs r) = row_set cvs r.
Proof.
  intros Hnd. apply row_set_same. apply Forall_forall. intros [c v] Hin.
  simpl. change (set_cols (row_cols r) cvs !! c = Some v).
  by apply set_cols_lookup_in.
Qed.

Lemma NoDup_upd_part cvs : NoDup cvs.*1 -> NoDup (upd_part upd cvs).*1.
Proof.
  intros H. unfold upd_part. induction cvs as [|[c v] cvs IH]; simpl; [constructor|].
  apply NoDup_cons in H as [Hc H]. destruct (bool_decide _); simpl; [|by apply IH].
  apply NoDup_cons. split; [|by apply IH]. intros Hin. apply Hc.
  apply list_elem_of_fmap in Hin as ([c' v'] & -> & Hin).
  apply list_elem_of_In, filter_In in Hin as [Hin _].
  apply list_elem_of_fmap. exists (c', v'). split; [done | by apply list_elem_of_In].
Qed.

Lemma conflicts_row_set_upd cvs cvs' r :
  conflicts key cvs (row_set (upd_part upd cvs') r) = conflicts key cvs r.
Proof. apply collides_same_row, upd_part_keeps_key. Qed.

(** After the statement the values are stored. *)
Lemma on_duplicate_stored cvs t :
  NoDup cvs.*1 -> self_conflict key cvs ->
  stored key upd cvs (insert_on_duplicate key upd cvs t).
Proof.
  intros Hnd Hself. unfold insert_on_duplicate, stored. fold (upd_part upd cvs).
  destruct (existsb (conflicts key cvs) (t_rows t)) eqn:E; simpl.
  - destruct (List.filter (conflicts key cvs) (t_rows t)) as [|r rest] eqn:Hf.
    { apply filter_nil_existsb in Hf. congruence. }
    exists (row_set (upd_part upd cvs) r), rest. split.
    + apply filter_update_first_same; [|done]. intros x. apply conflicts_row_set_upd.
    + apply row_set_twice, NoDup_upd_part, Hnd.
  - exists (fresh_row cvs (t_next t)), []. split.
    + rewrite List.filter_app. apply filter_nil_existsb in E. rewrite E. simpl.
      by rewrite Hself.
    + by apply row_set_fresh_upd_part.
Qed.

(** A statement with another key leaves stored values stored. *)
Lemma on_duplicate_keeps_stored cvs cvs' t :
  key_of key (fresh_row cvs 0) <> key_of key (fresh_row cvs' 0) ->
  stored key upd cvs t ->
  stored key upd cvs (insert_on_duplicate key upd cvs' t).
Proof.
  intros Hne (r & rest & Hf & Hr). unfold insert_on_duplicate, stored.
  fold (upd_part upd cvs').
  destruct (existsb (conflicts key cvs') (t_rows t)); simpl.
  - exists r, rest. split; [|done]. rewrite <- Hf.
    apply filter_update_first_other. intros x Hx.
    assert (conflicts key cvs x = false) as Hc.
    { apply not_true_is_false. intros Hc.
      apply (conflicts_disjoint cvs cvs' x Hne) in Hc. congruence. }
    by rewrite conflicts_row_set_upd.
  - rewrite List.filter_app, Hf. simpl. eauto.
Qed.

(** *** A run of such statements with pairwise different keys *)

Lemma upsert_all_keeps_stored cvs args t :
  (forall cvs', cvs' ∈ args ->
     key_of key (fresh_row cvs 0) <> key_of key (fresh_row cvs' 0)) ->
  stored key upd cvs t ->
  stored key upd cvs (upsert_all key upd t args).
Proof.
  revert t. induction args as [|a args IH]; intros t Hne Hs; simpl; [done|].
  apply IH.
  - intros cvs' Hin. apply Hne. by right.
  - apply on_duplicate_keeps_stored; [apply Hne; left | done].
Qed.

Lemma upsert_all_stored args t cvs :
  NoDup ((fun cvs => key_of key (fresh_row cvs 0)) <$> args) ->
  (forall cvs, cvs ∈ args -> NoDup cvs.*1 /\ self_conflict key cvs) ->
  cvs ∈ args ->
  stored key upd cvs (upsert_all key upd t args).
Proof.
  revert t. induction args as [|a args IH]; intros t Hnd Hok Hin.
  - by apply elem_of_nil in Hin.
  - simpl in Hnd. apply NoDup_cons in Hnd as [Ha Hnd]. simpl.
    apply elem_of_cons in Hin as [->|Hin].
    + apply upsert_all_keeps_stored.
      * intros cvs' Hin' Heq. apply Ha. rewrite Heq.
        apply list_elem_of_fmap. eauto.
      * apply on_duplicate_stored; apply Hok; left.
    + apply IH; [done| |done]. intros c Hc. apply Hok. by right.
Qed.

Lemma upsert_all_noop args t :
  (forall cvs, cvs ∈ args -> stored key upd cvs t) ->
  upsert_all key upd t args = t.
Proof.
  induction args as [|a args IH]; intros H; simpl; [done|].
  rewrite on_duplicate_noop by (apply H; left). apply IH.
  intros cvs Hc. apply H. by right.
Qed.

Lemma on_duplicate_key_unique cvs t :
  key_unique key t -> key_unique key (insert_on_duplicate key upd cvs t).
Proof.
  intros Hu X. unfold insert_on_duplicate. fold (upd_part upd cvs).
  destruct (existsb (conflicts key cvs) (t_rows t)) eqn:E; simpl.
  - rewrite length_filter_update_first; [apply Hu|].
    intros x. apply conflicts_row_set_upd.
  - rewrite List.filter_app, length_app. simpl.
    destruct (conflicts key X (fresh_row cvs (t_next t))) eqn:Hc; simpl.
    + apply collides_key_of in Hc. rewrite key_of_fresh in Hc.
      rewrite (filter_pointwise (conflicts key X) (conflicts key cvs)).
      * apply filter_nil_existsb in E. by rewrite E.
      * intros r. apply collides_same_key. done.
    + specialize (Hu X). lia.
Qed.

Lemma upsert_all_key_unique args t :
  key_unique key t -> key_unique key (upsert_all key upd t args).
Proof.
  revert t. induction args as [|a args IH]; intros t H; simpl; [done|].
  by apply IH, on_duplicate_key_unique.
Qed.

(** Under the UNIQUE constraint the stored values sit in the one row with
    their key. *)
Lemma stored_unique cvs t :
  key_unique key t -> stored key upd cvs t ->
  exists r, List.filter (conflicts key cvs) (t_rows t) = [r]
            /\ row_set (upd_part upd cvs) r = r.
Proof.
  intros Hu (r & rest & Hf & Hr). specialize (Hu cvs). rewrite Hf in Hu.
  destruct rest; [eauto | simpl in Hu; lia].
Qed.

Lemma stored_value cvs r c v :
  NoDup cvs.*1 -> row_set (upd_part upd cvs) r = r ->
  (c, v) ∈ cvs -> c ∈ upd -> c <> "id" -> row_get c r = v.
Proof.
  intros Hnd Hr Hin Hc Hid. rewrite <- Hr.
  apply row_get_row_set_in; [by apply NoDup_upd_part | | done].
  apply list_elem_of_In, filter_In. split; [by apply list_elem_of_In|].
  by apply bool_decide_eq_true.
Qed.

End OnDuplicate.

Lemma empty_store_lookup tbl t : empty_store !! tbl = Some t -> t = Table 1 [].
Proof.
  unfold empty_store. intros H%elem_of_list_to_map_2.
  apply list_elem_of_fmap in H as (n & [= _ ->] & _). done.
Qed.

Lemma empty_store_ok : store_ok empty_store.
Proof.
  intros tbl t ->%empty_store_lookup. split.
  - split; simpl; constructor.
  - intros cvs. simpl. lia.
Qed.

(** ** Tabs and attributes *)

Lemma row_matches_name n r : row_matches [("name", VStr n)] r = named n r.
Proof. by rewrite row_matches_single, sql_eq_str. Qed.

Lemma name_row_self_conflict n : self_conflict ["name"] (name_row n).
Proof.
  intros i. rewrite conflicts_name, named_fresh. by apply bool_decide_eq_true.
Qed.

Lemma tab_row_after_insert X t :
  exists r rest,
    List.filter (named X) (t_rows (insert_ignore_stmt "tabs" (name_row X) t)) = r :: rest.
Proof.
  pose proof (insert_ignore_conflict_after ["name"] (name_row X) t
                (name_row_self_conflict X)) as H.
  rewrite (existsb_pointwise _ _ _ (conflicts_name X)) in H.
  unfold insert_ignore_stmt. change (unique_key "tabs") with ["name"].
  destruct (List.filter _ _) as [|r rest] eqn:E; [|eauto].
  apply filter_nil_existsb in E. congruence.
Qed.

Lemma upsert_tab_and_attributes_eq {A} X (info : list (string * A)) db tt0 ta :
  db !! "tabs" = Some tt0 ->
  db !! "attributes" = Some ta ->
  _upsert_tab_and_attributes X info db
  = (Ok (selected_attributes (tab_id X (insert_ignore_stmt "tabs" (name_row X) tt0))
           (insert_all "attributes" ta
              (attr_rows (tab_id X (insert_ignore_stmt "tabs" (name_row X) tt0)) info.*1))),
     <["attributes" :=
         insert_all "attributes" ta
           (attr_rows (tab_id X (insert_ignore_stmt "tabs" (name_row X) tt0)) info.*1)]>
       (<["tabs" := insert_ignore_stmt "tabs" (name_row X) tt0]> db)).
Proof.
  intros Ht Ha. unfold _upsert_tab_and_attributes.
  rewrite (bind_ok _ _ _ _ _ (write_table_some _ _ _ _ Ht)).
  set (tt1 := insert_ignore_stmt "tabs" (name_row X) tt0).
  change ((insert_ignore (unique_key "tabs") [("name", VStr X)] tt0).1) with tt1.
  erewrite bind_ok; [|apply read_table_some, lookup_insert_eq].
  rewrite (filter_pointwise _ _ _ (row_matches_name X)).
  unfold tab_id. destruct (tab_row_after_insert X tt0) as (r & rest & Hr).
  fold tt1 in Hr. rewrite Hr.
  erewrite bind_ok.
  2:{ apply executemany_some. by rewrite lookup_insert_ne. }
  erewrite read_table_some; [|apply lookup_insert_eq]. reflexivity.
Qed.

Lemma upsert_tab_and_attributes_inv {A} X (info : list (string * A)) db attrs db1 :
  _upsert_tab_and_attributes X info db = (Ok attrs, db1) ->
  exists tt0 ta, db !! "tabs" = Some tt0 /\ db !! "attributes" = Some ta.
Proof.
  intros H. destruct (db !! "tabs") as [tt0|] eqn:Ht.
  - destruct (db !! "attributes") as [ta|] eqn:Ha; [eauto|]. exfalso.
    unfold _upsert_tab_and_attributes in H.
    rewrite (bind_ok _ _ _ _ _ (write_table_some _ _ _ _ Ht)) in H.
    erewrite bind_ok in H; [|apply read_table_some, lookup_insert_eq].
    destruct (List.filter _ _) as [|r rest]; [discriminate|].
    apply bind_inv_ok in H as ([] & db2 & H1 & H2).
    apply read_table_inv in H2 as (ta & Hta & _).
    apply executemany_inv in H1 as [[_ ->]|(ta' & Hta' & ->)].
    + rewrite lookup_insert_ne, Ha in Hta; done.
    + rewrite lookup_insert_ne, Ha in Hta'; done.
  - exfalso. unfold _upsert_tab_and_attributes in H.
    apply bind_inv_ok in H as (? & ? & H & _).
    apply write_table_inv in H as (? & ? & _). congruence.
Qed.

Lemma attr_row_self_conflict a id_tab :
  self_conflict (unique_key "attributes") (attr_row a id_tab).
Proof.
  intros i. unfold conflicts, collides. simpl.
  change (row_get "name" (fresh_row (attr_row a id_tab) i)) with (VStr a).
  change (row_get "name" (fresh_row (attr_row a id_tab) 0)) with (VStr a).
  change (row_get "id_tab" (fresh_row (attr_row a id_tab) i)) with (VInt id_tab).
  change (row_get "id_tab" (fresh_row (attr_row a id_tab) 0)) with (VInt id_tab).
  rewrite sql_eq_str, sql_eq_int, !bool_decide_true; done.
Qed.

Lemma attr_row_conflict a id_tab r :
  conflicts (unique_key "attributes") (attr_row a id_tab) r = true ->
  row_get "name" r = VStr a /\ row_get "id_tab" r = VInt id_tab.
Proof.
  unfold conflicts, collides. simpl.
  change (row_get "name" (fresh_row (attr_row a id_tab) 0)) with (VStr a).
  change (row_get "id_tab" (fresh_row (attr_row a id_tab) 0)) with (VInt id_tab).
  rewrite sql_eq_str, sql_eq_int, andb_true_r, andb_true_iff, !bool_decide_eq_true. tauto.
Qed.

(** Every attribute of the tab information is among the selected ones. *)
Lemma selected_attributes_has_key a id_tab keys ta :
  a ∈ keys ->
  exists id_attribute,
    (id_attribute, VStr a)
    ∈ selected_attributes id_tab (insert_all "attributes" ta (attr_rows id_tab keys)).
Proof.
  intros Ha.
  pose proof (insert_all_conflict_after "attributes" (attr_rows id_tab keys) ta
                (attr_row a id_tab)) as H.
  apply existsb_exists in H as (r & Hr & Hc).
  - apply attr_row_conflict in Hc as [Hn Ht]. exists (row_id r).
    unfold selected_attributes. apply list_elem_of_In, in_map_iff. exists r.
    split; [by rewrite Hn|]. apply filter_In. split; [done|].
    rewrite row_matches_single, Ht, sql_eq_int. by apply bool_decide_eq_true.
  - unfold attr_rows. apply list_elem_of_In, in_map_iff. exists a.
    split; [done | by apply list_elem_of_In].
  - apply attr_row_self_conflict.
Qed.

Lemma NoDup_fmap_filter {A B} (f : A -> B) (p : A -> bool) l :
  NoDup (f <$> l) -> NoDup (f <$> List.filter p l).
Proof.
  induction l as [|x l IH]; simpl; [done|]. intros [Hx Hl]%NoDup_cons.
  destruct (p x); simpl; [|by apply IH]. apply NoDup_cons. split; [|by apply IH].
  intros Hin. apply Hx. apply list_elem_of_fmap in Hin as (y & -> & Hy).
  apply list_elem_of_In, filter_In in Hy as [Hy _].
  apply list_elem_of_fmap. exists y. split; [done | by apply list_elem_of_In].
Qed.

Lemma selected_attributes_nodup id_tab t :
  ids_ok t -> NoDup (selected_attributes id_tab t).*1.
Proof.
  intros [Hnd _]. unfold selected_attributes.
  change (map ?f ?l) with (f <$> l). rewrite <- list_fmap_compose.
  by apply (NoDup_fmap_filter row_id).
Qed.

(** ** The monthly rows *)

Lemma monthly_key_not_id : "id" ∉ monthly_key.
Proof. by apply (bool_decide_unpack _). Qed.

Lemma monthly_upd_not_key c : c ∈ monthly_upd -> c ∉ monthly_key.
Proof.
  assert (H : Forall (fun c => c ∉ monthly_key) monthly_upd)
    by (by apply (bool_decide_unpack _)).
  rewrite Forall_forall in H. apply H.
Qed.

Lemma month_row_key c a m v d :
  key_of monthly_key (fresh_row (month_row c a m v d) 0) = [VInt c; VInt a; VInt m].
Proof. reflexivity. Qed.

Lemma month_row_self_conflict c a m v d : self_conflict monthly_key (month_row c a m v d).
Proof.
  intros i. unfold conflicts, collides. simpl.
  change (row_get "id_city" (fresh_row (month_row c a m v d) i)) with (VInt c).
  change (row_get "id_city" (fresh_row (month_row c a m v d) 0)) with (VInt c).
  change (row_get "id_attribute" (fresh_row (month_row c a m v d) i)) with (VInt a).
  change (row_get "id_attribute" (fresh_row (month_row c a m v d) 0)) with (VInt a).
  change (row_get "month_number" (fresh_row (month_row c a m v d) i)) with (VInt m).
  change (row_get "month_number" (fresh_row (month_row c a m v d) 0)) with (VInt m).
  rewrite !sql_eq_int, !bool_decide_true; done.
Qed.

Lemma month_row_conflicts c a m v d r :
  conflicts monthly_key (month_row c a m v d) r = month_key c a m r.
Proof.
  unfold conflicts, collides, month_key. simpl.
  change (row_get "id_city" (fresh_row (month_row c a m v d) 0)) with (VInt c).
  change (row_get "id_attribute" (fresh_row (month_row c a m v d) 0)) with (VInt a).
  change (row_get "month_number" (fresh_row (month_row c a m v d) 0)) with (VInt m).
  rewrite !sql_eq_int, andb_true_r.
  apply eq_true_iff_eq.
  rewrite !andb_true_iff, !bool_decide_eq_true. tauto.
Qed.

Lemma month_row_nodup c a m v d : NoDup (month_row c a m v d).*1.
Proof. by apply (bool_decide_unpack _). Qed.

(** The rows of one attribute carry the months [i + 1, i + 2, ...] in the
    order of the series. *)
Lemma month_rows_months c a i s :
  (fun cvs => row_get "month_number" (fresh_row cvs 0)) <$> month_rows c a i s
  = VInt <$> seqZ (i + 1) (Z.of_nat (length s)).
Proof.
  revert i. induction s as [|[[l v] d] s IH]; intros i; [done|].
  simpl length. rewrite seqZ_cons by lia.
  replace (Z.pred (Z.of_nat (S (length s)))) with (Z.of_nat (length s)) by lia.
  replace (Z.succ (i + 1)) with (i + 1 + 1) by lia.
  simpl. f_equal. apply IH.
Qed.

Lemma month_rows_keys c a i s :
  (fun cvs => key_of monthly_key (fresh_row cvs 0)) <$> month_rows c a i s
  = (fun m => [VInt c; VInt a; VInt m]) <$> seqZ (i + 1) (Z.of_nat (length s)).
Proof.
  revert i. induction s as [|[[l v] d] s IH]; intros i; [done|].
  simpl length. rewrite seqZ_cons by lia.
  replace (Z.pred (Z.of_nat (S (length s)))) with (Z.of_nat (length s)) by lia.
  replace (Z.succ (i + 1)) with (i + 1 + 1) by lia.
  simpl. f_equal. apply IH.
Qed.

Lemma month_rows_lookup c a i s m l v d :
  s !! m = Some (l, v, d) ->
  month_row c a (i + Z.of_nat m + 1) v d ∈ month_rows c a i s.
Proof.
  revert i m. induction s as [|[[l' v'] d'] s IH]; intros i m H; [done|].
  destruct m as [|m].
  - injection H as -> -> ->. replace (i + Z.of_nat 0 + 1) with (i + 1) by lia. left.
  - right. replace (i + Z.of_nat (S m) + 1) with (i + 1 + Z.of_nat m + 1) by lia.
    by apply IH.
Qed.

Lemma month_rows_shape c a i s cvs :
  cvs ∈ month_rows c a i s -> exists m v d, cvs = month_row c a m v d.
Proof.
  revert i. induction s as [|[[l' v'] d'] s IH]; intros i H; simpl in H.
  - by apply elem_of_nil in H.
  - apply elem_of_cons in H as [->|H]; [by eexists _, _, _ | by eapply IH].
Qed.

Lemma weather_values_cons c ia attrs info :
  weather_values c (ia :: attrs) info
  = month_rows c ia.1 0 (series_of info ia.2) ++ weather_values c attrs info.
Proof. reflexivity. Qed.

Lemma weather_values_shape c attrs info cvs :
  cvs ∈ weather_values c attrs info ->
  exists a m v d, a ∈ attrs.*1 /\ cvs = month_row c a m v d.
Proof.
  induction attrs as [|ia attrs IH]; intros H.
  - by apply elem_of_nil in H.
  - rewrite weather_values_cons in H. apply elem_of_app in H as [H|H].
    + apply month_rows_shape in H as (m & v & d & ->).
      exists ia.1, m, v, d. split; [left | done].
    + destruct (IH H) as (a & m & v & d & Ha & ->).
      exists a, m, v, d. split; [by right | done].
Qed.

Lemma weather_values_nodup c attrs info :
  NoDup attrs.*1 ->
  NoDup ((fun cvs => key_of monthly_key (fresh_row cvs 0)) <$> weather_values c attrs info).
Proof.
  induction attrs as [|ia attrs IH]; intros H; [constructor|].
  simpl in H. apply NoDup_cons in H as [Hia H].
  rewrite weather_values_cons, fmap_app. apply NoDup_app. split; [|split].
  - rewrite month_rows_keys. apply NoDup_fmap_2; [|apply NoDup_seqZ].
    intros m1 m2 [= ->]. done.
  - intros k Hk1 Hk2. rewrite month_rows_keys in Hk1.
    apply list_elem_of_fmap in Hk1 as (m & -> & _).
    apply list_elem_of_fmap in Hk2 as (cvs & Hk & Hc).
    apply weather_values_shape in Hc as (a & m' & v & d & Ha & ->).
    rewrite month_row_key in Hk. injection Hk as Heq _. apply Hia. by rewrite Heq.
  - by apply IH.
Qed.

Lemma month_row_in_weather_values c attrs info ida a s m l v d :
  (ida, VStr a) ∈ attrs ->
  dict_get a info = Some s ->
  s !! m = Some (l, v, d) ->
  month_row c ida (Z.of_nat m + 1) v d ∈ weather_values c attrs info.
Proof.
  intros Ha Hs Hm. unfold weather_values. apply list_elem_of_In, in_flat_map.
  exists (ida, VStr a). split; [by apply list_elem_of_In|].
  simpl. rewrite Hs. simpl. apply list_elem_of_In.
  by apply (month_rows_lookup c ida 0 s m l v d).
Qed.

Lemma dict_get_key {A} a (info : list (string * A)) s :
  dict_get a info = Some s -> a ∈ info.*1.
Proof.
  induction info as [|[k x] info IH]; simpl; [discriminate|].
  case_bool_decide as Hk; [intros _; subst; left | intros H; right; by apply IH].
Qed.

(** C8: for an attribute of the Weather tab with a series of length 12,
    [_upsert_weather] writes the months 1 to 12 in the order of the series,
    and afterwards each (city, attribute, month) has exactly one row in
    [monthly_weathers_attributes], holding the value and the description
    of that month. *)
Theorem weather_months_written id_city d db db' a series :
  store_ok db ->
  _upsert_weather id_city d db = (Ok tt, db') ->
  dict_get a (default [] (d_Weather d)) = Some series ->
  length series = 12%nat ->
  exists id_attribute,
    (exists ar, ar ∈ rows_of "attributes" db' /\ row_id ar = id_attribute
                /\ row_get "name" ar = VStr a)
    /\ (fun cvs => row_get "month_number" (fresh_row cvs 0))
         <$> month_rows id_city id_attribute 0 series
       = VInt <$> seqZ 1 12
    /\ forall month, 1 <= month <= 12 ->
         exists l v description r,
           series !! Z.to_nat (month - 1) = Some (l, v, description)
           /\ List.filter (month_key id_city id_attribute month)
                (rows_of "monthly_weathers_attributes" db') = [r]
           /\ row_get "attribute_value" r = v
           /\ row_get "description" r = description.
Proof.
  intros Hok H Hs Hlen. unfold _upsert_weather in H.
  set (info := default [] (d_Weather d)) in *.
  apply bind_inv_ok in H as (attrs & db1 & Hattrs & Hmany).
  destruct (upsert_tab_and_attributes_inv _ _ _ _ _ Hattrs) as (tt0 & ta & Htt0 & Hta).
  rewrite (upsert_tab_and_attributes_eq _ _ _ _ _ Htt0 Hta) in Hattrs.
  set (tt1 := insert_ignore_stmt "tabs" (name_row "Weather") tt0) in *.
  set (ta1 := insert_all "attributes" ta (attr_rows (tab_id "Weather" tt1) info.*1)) in *.
  injection Hattrs as <- <-.
  destruct (selected_attributes_has_key a (tab_id "Weather" tt1) info.*1 ta
              (dict_get_key _ _ _ Hs)) as [ida Hida].
  fold ta1 in Hida.
  assert (Hnd : NoDup (selected_attributes (tab_id "Weather" tt1) ta1).*1).
  { apply selected_attributes_nodup, insert_all_ids_ok. by apply (Hok "attributes"). }
  exists ida. split; [|split].
  - (* the attribute row *)
    unfold selected_attributes in Hida.
    apply list_elem_of_In, in_map_iff in Hida as (ar & [= Hid Hname] & Har).
    apply filter_In in Har as [Har _]. exists ar.
    split; [|done].
    assert (Hpres : db' !! "attributes" = Some ta1).
    { rewrite (preserves_executemany "attributes" "monthly_weathers_attributes" _ _
                 ltac:(done) _ _ _ Hmany).
      apply lookup_insert_eq. }
    unfold rows_of. rewrite Hpres. by apply list_elem_of_In.
  - rewrite month_rows_months, Hlen. reflexivity.
  - intros month Hmonth.
    assert (Hlt : (Z.to_nat (month - 1) < length series)%nat) by lia.
    apply lookup_lt_is_Some in Hlt as [[[l v] description] Hm].
    exists l, v, description.
    pose proof (month_row_in_weather_values id_city _ info ida a series _ l v description
                  Hida Hs Hm) as Hin.
    replace (Z.of_nat (Z.to_nat (month - 1)) + 1) with month in Hin by lia.
    apply executemany_inv in Hmany as [[Hnil _]|(tm & Htm & ->)].
    { rewrite Hnil in Hin. by apply elem_of_nil in Hin. }
    rewrite !lookup_insert_ne in Htm by done.
    unfold rows_of. rewrite lookup_insert_eq.
    change (foldl _ tm ?args) with (upsert_all monthly_key monthly_upd tm args).
    set (tm' := upsert_all monthly_key monthly_upd tm _).
    assert (Hst : stored monthly_key monthly_upd (month_row id_city ida month v description) tm').
    { apply upsert_all_stored; [apply monthly_key_not_id | apply monthly_upd_not_key | | | done].
      - by apply weather_values_nodup.
      - intros cvs (a' & m' & v' & d' & _ & ->)%weather_values_shape.
        split; [apply month_row_nodup | apply month_row_self_conflict]. }
    assert (Hu : key_unique monthly_key tm').
    { apply upsert_all_key_unique;
        [apply monthly_key_not_id | apply monthly_upd_not_key |].
      by apply (Hok "monthly_weathers_attributes"). }
    destruct (stored_unique _ _ _ _ Hu Hst) as (r & Hr & Hset).
    rewrite (filter_pointwise _ _ _ (month_row_conflicts id_city ida month v description))
      in Hr.
    exists r. split; [done|]. split; [done|]. split.
    + apply (stored_value monthly_upd _ r "attribute_value" v
               (month_row_nodup id_city ida month v description) Hset);
        [do 3 right; left | left | done].
    + apply (stored_value monthly_upd _ r "description" description
               (month_row_nodup id_city ida month v description) Hset);
        [do 4 right; left | right; left | done].
Qed.

Lemma weather_months_written_witness :
  store_ok empty_store
  /\ _upsert_weather 1 lisbon_year empty_store
     = (Ok tt, (_upsert_weather 1 lisbon_year empty_store).2)
  /\ dict_get "Temperature" (default [] (d_Weather lisbon_year)) = Some lisbon_weather
  /\ length lisbon_weather = 12%nat
  /\ exists id_attribute r,
       List.filter (month_key 1 id_attribute 12)
         (rows_of "monthly_weathers_attributes"
            (_upsert_weather 1 lisbon_year empty_store).2) = [r]
       /\ row_get "attribute_value" r = VInt 15.
Proof.
  assert (H1 : _upsert_weather 1 lisbon_year empty_store
               = (Ok tt, (_upsert_weather 1 lisbon_year empty_store).2))
    by (apply run_ok; vm_compute; reflexivity).
  assert (H2 : dict_get "Temperature" (default [] (d_Weather lisbon_year))
               = Some lisbon_weather) by reflexivity.
  assert (H3 : length lisbon_weather = 12%nat) by reflexivity.
  split; [exact empty_store_ok|]. split; [exact H1|]. split; [exact H2|].
  split; [exact H3|].
  destruct (weather_months_written 1 lisbon_year empty_store _ "Temperature"
              lisbon_weather empty_store_ok H1 H2 H3) as (ida & _ & _ & Hm).
  destruct (Hm 12 ltac:(lia)) as (l & v & desc & r & Hs & Hr & Hv & _).
  exists ida, r. split; [exact Hr|].
  vm_compute in Hs. injection Hs as _ <- _. exact Hv.
Defined.

(** ** Upsert of a keyed row, again *)

Lemma any_differences_false r (values_dict : list (string * value)) :
  (forall cv, cv ∈ values_dict -> row_get cv.1 r = cv.2) ->
  any (differences r values_dict) = false.
Proof.
  intros H. unfold any, differences. apply not_true_is_false.
  intros (b & Hb & ->)%existsb_exists.
  apply in_map_iff in Hb as (cv & Hne & Hin).
  apply bool_decide_eq_true in Hne. apply Hne, H. by apply list_elem_of_In.
Qed.

Lemma filter_update_first_hit (p : row -> bool) f rs r rest :
  (forall x, p x = true -> p (f x) = true) ->
  List.filter p rs = r :: rest ->
  List.filter p (update_first p f rs) = f r :: rest.
Proof.
  intros H. induction rs as [|x rs IH]; simpl; [discriminate|].
  destruct (p x) eqn:Hp; simpl.
  - intros [= -> <-]. by rewrite (H _ Hp).
  - rewrite Hp. exact IH.
Qed.

(** With unique ids, the row found by the WHERE clause is the row the
    UPDATE by id rewrites. *)
Lemma update_first_by_id (p : row -> bool) f rs r rest :
  NoDup (row_id <$> rs) ->
  List.filter p rs = r :: rest ->
  update_first (has_id (row_id r)) f rs = update_first p f rs.
Proof.
  induction rs as [|x rs IH]; simpl; [done|].
  intros [Hx Hnd]%NoDup_cons. destruct (p x) eqn:Hp.
  - intros [= -> _]. unfold has_id. by rewrite bool_decide_true.
  - intros Hf. unfold has_id at 1. rewrite bool_decide_false.
    + f_equal. by apply IH.
    + intros Heq. apply Hx. rewrite Heq. apply list_elem_of_fmap. exists r.
      split; [done|]. apply list_elem_of_In.
      assert (In r (List.filter p rs)) as Hin by (rewrite Hf; by left).
      by apply filter_In in Hin as [Hin _].
Qed.

Section UpsertTable.

Variables (k : string) (v : value) (values_dict : list (string * value)).
Hypothesis Hnd : NoDup values_dict.*1.
Hypothesis Hin : (k, v) ∈ values_dict.
Hypothesis Hid : "id" ∉ values_dict.*1.
Hypothesis Hv : v <> VNone.

Lemma key_not_id : k <> "id".
Proof.
  intros ->. apply Hid. apply list_elem_of_fmap. by exists ("id", v).
Qed.

Lemma row_get_after_set r cv : cv ∈ values_dict -> row_get cv.1 (row_set values_dict r) = cv.2.
Proof.
  intros Hcv. destruct cv as [c x]. simpl. apply row_get_row_set_in; [done..|].
  intros ->. apply Hid. apply list_elem_of_fmap. by exists ("id", x).
Qed.

Lemma row_matches_after_set r : row_matches [(k, v)] (row_set values_dict r) = true.
Proof.
  rewrite row_matches_single, (row_get_row_set_in _ _ _ _ Hnd Hin key_not_id).
  destruct v; simpl; [done | by apply bool_decide_eq_true..].
Qed.

(** After the upsert, the first row the WHERE clause finds has the id
    returned and holds every provided value. *)
Lemma upsert_table_first t :
  ids_ok t -> key_unique [k] t ->
  exists r rest,
    List.filter (row_matches [(k, v)]) (t_rows (upsert_table [k] values_dict (k, v) t).1)
    = r :: rest
    /\ row_id r = (upsert_table [k] values_dict (k, v) t).2
    /\ any (differences r values_dict) = false.
Proof.
  intros [Hids _] Hu. unfold upsert_table.
  destruct (List.filter (row_matches [(k, v)]) (t_rows t)) as [|r rest] eqn:Hsel.
  - unfold insert_ignore.
    rewrite (existsb_pointwise _ _ _
               (fun r => conflicts_single k v values_dict r Hnd Hin key_not_id)).
    pose proof Hsel as He. apply filter_nil_existsb in He. rewrite He. simpl.
    exists (fresh_row values_dict (t_next t)), [].
    rewrite List.filter_app, Hsel.
    pose proof (row_matches_after_set (Row (t_next t) ∅)) as Hfresh.
    change (row_set values_dict (Row (t_next t) ∅))
      with (fresh_row values_dict (t_next t)) in Hfresh.
    cbn [List.filter app]. rewrite Hfresh.
    split; [done|]. split; [done|].
    apply any_differences_false. intros cv Hcv. by apply row_get_after_set.
  - simpl. destruct (any (differences r values_dict)) eqn:Hd; [|eauto].
    assert (Hrest : rest = []).
    { specialize (Hu values_dict).
      rewrite (filter_pointwise _ _ _
                 (fun r => conflicts_single k v values_dict r Hnd Hin key_not_id)), Hsel in Hu.
      destruct rest; [done | simpl in Hu; lia]. }
    subst rest.
    assert (Hr : In r (t_rows t) /\ row_matches [(k, v)] r = true).
    { apply filter_In. rewrite Hsel. by left. }
    destruct Hr as [Hr Hm].
    unfold update_ignore.
    destruct (find (has_id (row_id r)) (t_rows t)) as [old|] eqn:Hfind.
    2:{ apply (find_none _ _ Hfind) in Hr. unfold has_id in Hr.
        by rewrite bool_decide_true in Hr. }
    assert (existsb (fun x => negb (has_id (row_id r) x)
                              && collides [k] (row_set values_dict old) x) (t_rows t)
            = false) as ->.
    { apply not_true_is_false. intros (x & Hx & Hc)%existsb_exists.
      apply andb_true_iff in Hc as [Hneg Hc].
      assert (row_matches [(k, v)] x = true) as Hmx.
      { unfold collides in Hc. simpl in Hc.
        rewrite (row_get_row_set_in _ old _ _ Hnd Hin key_not_id) in Hc.
        by rewrite row_matches_single, <- (andb_true_r (sql_eq _ _)). }
      assert (In x (List.filter (row_matches [(k, v)]) (t_rows t))) as Hxf
        by (by apply filter_In).
      rewrite Hsel in Hxf. destruct Hxf as [<-|[]].
      unfold has_id in Hneg. by rewrite bool_decide_true in Hneg. }
    simpl. rewrite (update_first_by_id _ _ _ _ _ Hids Hsel).
    exists (row_set values_dict r), [].
    split; [|split; [done|]].
    + apply filter_update_first_hit; [|done]. intros x _. apply row_matches_after_set.
    + apply any_differences_false. intros cv Hcv. by apply row_get_after_set.
Qed.

(** So the same upsert on the table, or on the table with more rows
    appended, returns the same id and changes nothing. *)
Lemma upsert_table_settled t extra n :
  ids_ok t -> key_unique [k] t ->
  upsert_table [k] values_dict (k, v)
    (Table n (t_rows (upsert_table [k] values_dict (k, v) t).1 ++ extra))
  = (Table n (t_rows (upsert_table [k] values_dict (k, v) t).1 ++ extra),
     (upsert_table [k] values_dict (k, v) t).2).
Proof.
  intros Hids Hu.
  destruct (upsert_table_first t Hids Hu) as (r & rest & Hf & Hi & Hd).
  unfold upsert_table at 1. simpl. rewrite List.filter_app, Hf. simpl.
  by rewrite Hd, Hi.
Qed.

End UpsertTable.

(** ** Tables that only grow *)

Lemma grows_refl t : grows t t.
Proof. exists []. by rewrite app_nil_r. Qed.

Lemma grows_trans t1 t2 t3 : grows t1 t2 -> grows t2 t3 -> grows t1 t3.
Proof.
  intros [e1 H1] [e2 H2]. exists (e1 ++ e2). by rewrite H2, H1, app_assoc.
Qed.

Lemma insert_ignore_grows tbl cvs t : grows t (insert_ignore_stmt tbl cvs t).
Proof. unfold insert_ignore_stmt. eexists. apply insert_ignore_rows. Qed.

Lemma insert_all_grows tbl args t : grows t (insert_all tbl t args).
Proof. apply insert_all_prefix. Qed.

Lemma grows_existsb (p : row -> bool) t t' :
  grows t t' -> existsb p (t_rows t) = true -> existsb p (t_rows t') = true.
Proof. intros [e ->] H. by apply existsb_prefix. Qed.

Lemma grows_table t t' :
  grows t t' -> exists extra, t' = Table (t_next t') (t_rows t ++ extra).
Proof. intros [e He]. exists e. destruct t'. simpl in *. by rewrite He. Qed.

Lemma tab_id_grows X t t' :
  grows t t' -> existsb (named X) (t_rows t) = true -> tab_id X t' = tab_id X t.
Proof.
  intros [e He] H. unfold tab_id. rewrite He, List.filter_app.
  destruct (List.filter (named X) (t_rows t)) as [|r rest] eqn:E; [|done].
  apply filter_nil_existsb in E. congruence.
Qed.

Lemma tab_named_after_insert X t :
  existsb (named X) (t_rows (insert_ignore_stmt "tabs" (name_row X) t)) = true.
Proof.
  destruct (tab_row_after_insert X t) as (r & rest & H).
  apply not_false_iff_true. intros E%filter_nil_existsb. congruence.
Qed.

Lemma tab_insert_noop X t :
  existsb (named X) (t_rows t) = true -> insert_ignore_stmt "tabs" (name_row X) t = t.
Proof.
  intros H. unfold insert_ignore_stmt. rewrite insert_ignore_noop; [done|].
  change (unique_key "tabs") with ["name"].
  by rewrite (existsb_pointwise _ _ _ (conflicts_name X)).
Qed.

Lemma NoDup_fmap_elem_inj {A B} (f : A -> B) (l : list A) x y :
  NoDup (f <$> l) -> x ∈ l -> y ∈ l -> f x = f y -> x = y.
Proof.
  induction l as [|a l IH]; simpl; intros Hnd Hx Hy Hf.
  - by apply elem_of_nil in Hx.
  - apply NoDup_cons in Hnd as [Ha Hnd].
    apply elem_of_cons in Hx as [->|Hx]; apply elem_of_cons in Hy as [->|Hy].
    + done.
    + exfalso. apply Ha. rewrite Hf. by apply list_elem_of_fmap_2.
    + exfalso. apply Ha. rewrite <- Hf. by apply list_elem_of_fmap_2.
    + by apply IH.
Qed.

Lemma tab_id_row X t :
  existsb (named X) (t_rows t) = true ->
  exists r, r ∈ t_rows t /\ named X r = true /\ row_id r = tab_id X t.
Proof.
  intros H. unfold tab_id.
  destruct (List.filter (named X) (t_rows t)) as [|r rest] eqn:E.
  - apply filter_nil_existsb in E. congruence.
  - assert (In r (List.filter (named X) (t_rows t))) as Hr by (rewrite E; by left).
    apply filter_In in Hr as [Hr Hn]. exists r. by rewrite <- list_elem_of_In in Hr.
Qed.

(** Tabs with different names have different ids. *)
Lemma tab_ids_distinct X Y t :
  ids_ok t -> X <> Y ->
  existsb (named X) (t_rows t) = true -> existsb (named Y) (t_rows t) = true ->
  tab_id X t <> tab_id Y t.
Proof.
  intros [Hnd _] Hne HX HY Heq.
  destruct (tab_id_row X t HX) as (rx & Hrx & Hnx & Hix).
  destruct (tab_id_row Y t HY) as (ry & Hry & Hny & Hiy).
  assert (rx = ry) as -> by (apply (NoDup_fmap_elem_inj row_id (t_rows t)); congruence).
  apply bool_decide_eq_true in Hnx, Hny. congruence.
Qed.

Lemma grows_off_refl id t : grows_off id t t.
Proof. exists []. by rewrite app_nil_r. Qed.

Lemma grows_off_trans id t1 t2 t3 :
  grows_off id t1 t2 -> grows_off id t2 t3 -> grows_off id t1 t3.
Proof.
  intros (e1 & H1 & F1) (e2 & H2 & F2). exists (e1 ++ e2).
  split; [by rewrite H2, H1, app_assoc | by apply Forall_app].
Qed.

Lemma grows_off_grows id t t' : grows_off id t t' -> grows t t'.
Proof. intros (e & H & _). by exists e. Qed.

Lemma insert_attr_grows_off id id' a t :
  id <> id' -> grows_off id t (insert_ignore_stmt "attributes" (attr_row a id') t).
Proof.
  intros Hne. unfold insert_ignore_stmt. eexists. split; [apply insert_ignore_rows|].
  destruct (existsb _ _); constructor; [|constructor].
  change (row_get "id_tab" (fresh_row (attr_row a id') (t_next t))) with (VInt id').
  congruence.
Qed.

Lemma insert_attrs_grows_off id id' keys t :
  id <> id' -> grows_off id t (insert_all "attributes" t (attr_rows id' keys)).
Proof.
  intros Hne. revert t. induction keys as [|a keys IH]; intros t; simpl.
  - apply grows_off_refl.
  - eapply grows_off_trans; [by apply insert_attr_grows_off | apply IH].
Qed.

Lemma selected_attributes_grows_off id t t' :
  grows_off id t t' -> selected_attributes id t' = selected_attributes id t.
Proof.
  intros (e & He & Hf). unfold selected_attributes. rewrite He, List.filter_app.
  assert (List.filter (row_matches [("id_tab", VInt id)]) e = []) as ->.
  { clear He. induction Hf as [|r e Hr _ IH]; [done|]. cbn [List.filter].
    rewrite row_matches_single, sql_eq_int, bool_decide_false by done. exact IH. }
  by rewrite app_nil_r.
Qed.

Lemma attrs_insert_noop_later id keys t t' :
  grows (insert_all "attributes" t (attr_rows id keys)) t' ->
  insert_all "attributes" t' (attr_rows id keys) = t'.
Proof.
  intros Hg. apply insert_all_noop. intros cvs Hc.
  eapply grows_existsb; [exact Hg|].
  apply insert_all_conflict_after; [done|].
  unfold attr_rows in Hc. apply list_elem_of_In, in_map_iff in Hc as (a & <- & _).
  apply attr_row_self_conflict.
Qed.

(** The attributes selected under two different tabs have different ids. *)
Lemma selected_attributes_disjoint id id' t i :
  ids_ok t -> id <> id' ->
  i ∈ (selected_attributes id t).*1 -> i ∉ (selected_attributes id' t).*1.
Proof.
  intros [Hnd _] Hne H1 H2. unfold selected_attributes in *.
  apply list_elem_of_fmap in H1 as ([i1 n1] & -> & H1).
  apply list_elem_of_fmap in H2 as ([i2 n2] & Hi & H2). simpl in Hi. subst i2.
  apply list_elem_of_In, in_map_iff in H1 as (r1 & [= Hi1 _] & Hr1).
  apply list_elem_of_In, in_map_iff in H2 as (r2 & [= Hi2 _] & Hr2).
  apply filter_In in Hr1 as [Hr1 Hm1]. apply filter_In in Hr2 as [Hr2 Hm2].
  assert (r1 = r2) as ->.
  { apply (NoDup_fmap_elem_inj row_id (t_rows t)); [done| | |congruence];
      by apply list_elem_of_In. }
  rewrite row_matches_single, sql_eq_int in Hm1, Hm2.
  apply bool_decide_eq_true in Hm1, Hm2. congruence.
Qed.

(** ** More on the pipeline driver *)

Section DriverMore.

Variable g : string -> result (option details).

Lemma try_body_http_error res db :
  400 <= status_code res < 600 -> try_body g res db = (Raise HTTPError, db).
Proof.
  intros H. unfold try_body, _map_details.
  assert ((400 <=? status_code res) && (status_code res <? 600) = true) as ->
    by (apply andb_true_iff; split; [apply Z.leb_le | apply Z.ltb_lt]; lia).
  reflexivity.
Qed.

(** X1: a response with a 4xx or 5xx status is counted as one failure and
    logged as an HTTP error; the extractor's answer plays no part and
    nothing is stored. *)
Theorem http_error_status_is_a_failure res st :
  400 <= status_code res < 600 ->
  loop_body g res st
  = Run (returned st)
        (Counters (total (counts st) + 1) (successes (counts st)) (failures (counts st) + 1))
        (logged st ++ [HTTPErrorRaised]) (store st).
Proof.
  intros H. unfold loop_body. by rewrite (try_body_http_error res (store st) H).
Qed.

(** X2: an exception of the detail extractor on a response with a good
    status is counted as one failure; nothing is stored; unless it is an
    [HTTPError], which the first [except] clause takes, it is logged by
    the generic handler. *)
Theorem extraction_error_is_a_failure res e st :
  ~ (400 <= status_code res < 600) ->
  g (content res) = Raise e ->
  counts (loop_body g res st)
  = Counters (total (counts st) + 1) (successes (counts st)) (failures (counts st) + 1)
  /\ store (loop_body g res st) = store st
  /\ (e <> HTTPError -> logged (loop_body g res st) = logged st ++ [ExceptionRaised e]).
Proof.
  intros Hs Hg. unfold loop_body, try_body, _map_details.
  assert ((400 <=? status_code res) && (status_code res <? 600) = false) as ->.
  { apply not_true_is_false. intros [H1 H2]%andb_true_iff.
    apply Z.leb_le in H1. apply Z.ltb_lt in H2. lia. }
  rewrite Hg. simpl. destruct e; simpl; auto; split; auto; split; auto; congruence.
Qed.

Lemma loop_body_balance res st :
  total (counts (loop_body g res st))
  - successes (counts (loop_body g res st)) - failures (counts (loop_body g res st))
  = total (counts st) - successes (counts st) - failures (counts st)
    + (if no_data g res then 1 else 0).
Proof.
  unfold loop_body, try_body, no_data.
  destruct (_map_details g res) as [[d|]|e]; unfold bind, lift, ret, raise.
  - destruct (insert_city_info d (store st)) as [[[]|e] db']; simpl;
      [lia | destruct e; simpl; lia].
  - simpl. lia.
  - destruct e; simpl; lia.
Qed.

Lemma loop_balance evs st :
  total (counts (foldl (loop_step g) st evs))
  - successes (counts (foldl (loop_step g) st evs))
  - failures (counts (foldl (loop_step g) st evs))
  = total (counts st) - successes (counts st) - failures (counts st)
    + Z.of_nat (length (List.filter (no_data g) (yielded evs))).
Proof.
  revert st. induction evs as [|[l|res] evs IH]; intros st; simpl.
  - lia.
  - rewrite IH. simpl. lia.
  - rewrite IH, loop_body_balance. destruct (no_data g res); simpl; lia.
Qed.

(** X3: at the end of a run every fetched response has been counted
    once: the total is the successes, plus the failures, plus the
    responses that gave no data. *)
Theorem total_is_successes_failures_and_empty lis db :
  total (counts (scrap_cities g lis db))
  = successes (counts (scrap_cities g lis db))
    + failures (counts (scrap_cities g lis db))
    + Z.of_nat (length (List.filter (no_data g) (yielded (_fetch_details lis)))).
Proof.
  unfold scrap_cities. simpl.
  pose proof (loop_balance (_fetch_details lis) (Run None (Counters 0 0 0) [] db)) as H.
  simpl in H. lia.
Qed.

(** X4: a city tag that [valid_tag] rejects is dropped before any request
    is made: the run is the run without it, counts, store and logged
    error and report lines included. *)
Theorem invalid_tag_is_ignored l1 l2 t db :
  valid_tag t = false ->
  scrap_cities g (l1 ++ t :: l2) db = scrap_cities g (l1 ++ l2) db.
Proof.
  intros Hv. unfold scrap_cities, _fetch_details.
  rewrite !List.filter_app. simpl. by rewrite Hv.
Qed.

Lemma length_yielded_fetch lis :
  (length (yielded (_fetch_details lis)) <= length lis)%nat.
Proof.
  unfold _fetch_details. induction lis as [|t lis IH]; simpl; [done|].
  destruct (valid_tag t); simpl; [|lia].
  destruct (fetched t); simpl; lia.
Qed.

(** X5: with [num_of_cities = n], [n] not negative, at most [n] cities
    are processed, and zero means none; the cities taken are the first
    ones of the listing. *)
Theorem num_of_cities_bounds_the_run tags n lis db :
  0 <= n ->
  _get_cities (Some tags) (Some n) = Some lis ->
  lis = take (Z.to_nat n) tags
  /\ total (counts (scrap_cities g lis db)) <= n.
Proof.
  intros Hn [= <-]. unfold slice_to.
  assert ((0 <=? n) = true) as -> by (apply Z.leb_le; lia).
  split; [done|].
  unfold scrap_cities. simpl.
  destruct (loop_accounting g (_fetch_details (take (Z.to_nat n) tags))
              (Run None (Counters 0 0 0) [] db)) as (Ht & _).
  simpl in Ht. rewrite Ht.
  pose proof (length_yielded_fetch (take (Z.to_nat n) tags)) as Hl.
  rewrite length_take in Hl. lia.
Qed.

End DriverMore.

Lemma http_error_status_is_a_failure_witness :
  400 <= status_code (Response 404 "lisbon") < 600
  /\ loop_body example_extractor (Response 404 "lisbon") (initial_run empty_store)
     = Run None (Counters (0 + 1) 0 (0 + 1)) ([] ++ [HTTPErrorRaised]) empty_store.
Proof.
  assert (H : 400 <= status_code (Response 404 "lisbon") < 600) by (simpl; lia).
  split; [exact H|].
  exact (http_error_status_is_a_failure example_extractor (Response 404 "lisbon")
           (initial_run empty_store) H).
Defined.

Lemma extraction_error_is_a_failure_witness :
  ~ (400 <= status_code (Response 200 "garbage") < 600)
  /\ example_extractor (content (Response 200 "garbage")) = Raise ExtractionError
  /\ counts (loop_body example_extractor (Response 200 "garbage") (initial_run empty_store))
     = Counters (0 + 1) 0 (0 + 1).
Proof.
  assert (H1 : ~ (400 <= status_code (Response 200 "garbage") < 600)) by (simpl; lia).
  assert (H2 : example_extractor (content (Response 200 "garbage")) = Raise ExtractionError)
    by reflexivity.
  split; [exact H1|]. split; [exact H2|].
  exact (proj1 (extraction_error_is_a_failure example_extractor (Response 200 "garbage")
                  ExtractionError (initial_run empty_store) H1 H2)).
Defined.

Lemma invalid_tag_is_ignored_witness :
  valid_tag (CityTag false (Responded (Response 200 "porto"))) = false
  /\ scrap_cities example_extractor
       ([answered "lisbon"] ++ CityTag false (Responded (Response 200 "porto")) :: [])
       empty_store
     = scrap_cities example_extractor ([answered "lisbon"] ++ []) empty_store.
Proof.
  split; [reflexivity|].
  exact (invalid_tag_is_ignored example_extractor [answered "lisbon"] []
           (CityTag false (Responded (Response 200 "porto"))) empty_store eq_refl).
Defined.

Lemma num_of_cities_bounds_the_run_witness :
  0 <= 1
  /\ _get_cities (Some [answered "lisbon"; answered "porto"]) (Some 1)
     = Some [answered "lisbon"]
  /\ total (counts (scrap_cities example_extractor [answered "lisbon"] empty_store)) <= 1.
Proof.
  assert (H1 : 0 <= 1) by lia.
  assert (H2 : _get_cities (Some [answered "lisbon"; answered "porto"]) (Some 1)
               = Some [answered "lisbon"]) by reflexivity.
  split; [exact H1|]. split; [exact H2|].
  exact (proj2 (num_of_cities_bounds_the_run example_extractor
                  [answered "lisbon"; answered "porto"] 1 [answered "lisbon"]
                  empty_store H1 H2)).
Defined.

(** ** More on the connector *)

Lemma selected_filter_elem (di : domain_identifier) (values_dict : list (string * value)) k v :
  List.filter (fun kv => key_selected di kv.1) values_dict = [(k, v)] ->
  (k, v) ∈ values_dict.
Proof.
  intros H. apply list_elem_of_In.
  assert (In (k, v) (List.filter (fun kv => key_selected di kv.1) values_dict)) as Hin
    by (rewrite H; by left).
  by apply filter_In in Hin as [Hin _].
Qed.

Lemma table_eta t : Table (t_next t) (t_rows t ++ []) = t.
Proof. destruct t. simpl. by rewrite app_nil_r. Qed.

(** X6: with the unique key of the table as the one-column natural key
    and a store that satisfies its schema, calling [_upsert_and_get_id]
    again with the same values returns the same id and leaves the store
    as the first call left it: no row is added and none is rewritten. *)
Theorem upsert_and_get_id_twice tbl values_dict di k v db i db' :
  List.filter (fun kv => key_selected di kv.1) values_dict = [(k, v)] ->
  is_ident k = true ->
  unique_key tbl = [k] ->
  NoDup values_dict.*1 ->
  "id" ∉ values_dict.*1 ->
  v <> VNone ->
  store_ok db ->
  _upsert_and_get_id tbl values_dict di db = (Ok i, db') ->
  _upsert_and_get_id tbl values_dict di db' = (Ok i, db').
Proof.
  intros Hkey Hident Huk Hnd Hid Hv Hok H.
  pose proof (selected_filter_elem _ _ _ _ Hkey) as Hin.
  apply (upsert_and_get_id_inv _ _ _ k v) in H as (t & Ht & -> & ->); [|done..].
  rewrite Huk. destruct (Hok tbl t Ht) as [Hids Hu]. rewrite Huk in Hu.
  rewrite (upsert_and_get_id_table tbl values_dict di k v
             (upsert_table [k] values_dict (k, v) t).1 _ Hkey Hident (lookup_insert_eq _ _ _)).
  rewrite Huk.
  pose proof (upsert_table_settled k v values_dict Hnd Hin Hid Hv t []
                (t_next (upsert_table [k] values_dict (k, v) t).1) Hids Hu) as Hs.
  rewrite table_eta in Hs. rewrite Hs. simpl. by rewrite insert_insert_eq.
Qed.

(** X7: the id that [_upsert_and_get_id] returns is the id of a row of
    the table that holds the key value, whether the row was found,
    updated or inserted. *)
Theorem upsert_and_get_id_returns_row tbl values_dict di k v db i db' :
  List.filter (fun kv => key_selected di kv.1) values_dict = [(k, v)] ->
  is_ident k = true ->
  unique_key tbl = [k] ->
  NoDup values_dict.*1 ->
  k <> "id" ->
  _upsert_and_get_id tbl values_dict di db = (Ok i, db') ->
  exists r, r ∈ rows_of tbl db' /\ row_id r = i /\ row_get k r = v.
Proof.
  intros Hkey Hident Huk Hnd Hid H.
  pose proof (selected_filter_elem _ _ _ _ Hkey) as Hin.
  apply (upsert_and_get_id_inv _ _ _ k v) in H as (t & Ht & -> & ->); [|done..].
  unfold rows_of. rewrite lookup_insert_eq, Huk.
  by apply upsert_table_row.
Qed.

Lemma zip_columns_self_conflict key (columns : list string) (vals : list value) :
  key <> [] -> "id" ∉ key ->
  (forall c, c ∈ key -> c ∈ columns) ->
  NoDup columns ->
  length vals = length columns ->
  VNone ∉ vals ->
  self_conflict key (zip columns vals).
Proof.
  intros Hk Hid Hsub Hnd Hlen Hnone i. unfold conflicts, collides.
  destruct key as [|c0 key']; [done|]. apply forallb_forall. intros c Hc%list_elem_of_In.
  assert (Hfst : (zip columns vals).*1 = columns) by (apply fst_zip; lia).
  assert (c ∈ (zip columns vals).*1) as Hcz by (rewrite Hfst; by apply Hsub).
  apply list_elem_of_fmap in Hcz as ([c' x] & -> & Hin). simpl in *.
  assert (c' <> "id") as Hne by (intros ->; done).
  unfold fresh_row.
  rewrite !(row_get_row_set_in _ _ c' x); [|by rewrite Hfst|done|done|by rewrite Hfst|done|done].
  apply elem_of_zip_r in Hin.
  destruct x; simpl; [done | by apply bool_decide_eq_true..].
Qed.

(** X8: when no value is [None], every item has one value per column and
    the unique key of the table lies within [id_city] and the columns,
    calling [_upsert_many] again with the same values changes nothing:
    the rows inserted by the first call suppress the second. *)
Theorem upsert_many_twice tbl id_city columns values db db' :
  unique_key tbl <> [] -> "id" ∉ unique_key tbl ->
  (forall c, c ∈ unique_key tbl -> c ∈ "id_city" :: columns) ->
  NoDup ("id_city" :: columns) ->
  (forall it, it ∈ values ->
     length (as_tuple it) = length columns /\ VNone ∉ as_tuple it) ->
  _upsert_many tbl id_city columns values db = (Ok tt, db') ->
  _upsert_many tbl id_city columns values db' = (Ok tt, db').
Proof.
  intros Hk Hid Hsub Hnd Hvals H. unfold _upsert_many in *.
  set (args := map (fun it => zip ("id_city" :: columns) (VInt id_city :: as_tuple it)) values)
    in *.
  apply executemany_inv in H as [[Hnil ->]|(t & Ht & ->)].
  - by rewrite Hnil.
  - rewrite (executemany_some _ _ _ _ _ (lookup_insert_eq _ _ _)).
    assert (Hself : forall cvs, cvs ∈ args -> self_conflict (unique_key tbl) cvs).
    2:{ pose proof (insert_all_twice tbl args t Hself) as Htw. unfold insert_all in Htw.
        by rewrite Htw, insert_insert_eq. }
    intros cvs Hc. unfold args in Hc.
    apply list_elem_of_In, in_map_iff in Hc as (it & <- & Hit).
    destruct (Hvals it) as [Hlen Hnone]; [by apply list_elem_of_In|].
    apply zip_columns_self_conflict; [done..| simpl; lia |].
    intros [?|?]%elem_of_cons; done.
Qed.

Lemma upsert_and_get_id_twice_witness :
  store_ok empty_store
  /\ _upsert_and_get_id "countries" [("name", VStr "Portugal"); ("id_continent", VInt 1)]
       (DomStr "name")
       (_upsert_and_get_id "countries" [("name", VStr "Portugal"); ("id_continent", VInt 1)]
          (DomStr "name") empty_store).2
     = (Ok 1,
        (_upsert_and_get_id "countries" [("name", VStr "Portugal"); ("id_continent", VInt 1)]
           (DomStr "name") empty_store).2).
Proof.
  split; [exact empty_store_ok|].
  apply (upsert_and_get_id_twice "countries"
           [("name", VStr "Portugal"); ("id_continent", VInt 1)] (DomStr "name")
           "name" (VStr "Portugal") empty_store 1).
  - reflexivity.
  - reflexivity.
  - reflexivity.
  - by apply (bool_decide_unpack _).
  - by apply (bool_decide_unpack _).
  - discriminate.
  - exact empty_store_ok.
  - apply run_ok. vm_compute; reflexivity.
Defined.

Lemma upsert_and_get_id_returns_row_witness :
  _upsert_and_get_id "continents" [("name", VStr "Europe")] (DomStr "name") empty_store
  = (Ok 1, (_upsert_and_get_id "continents" [("name", VStr "Europe")] (DomStr "name")
              empty_store).2)
  /\ exists r,
       r ∈ rows_of "continents"
             (_upsert_and_get_id "continents" [("name", VStr "Europe")] (DomStr "name")
                empty_store).2
       /\ row_id r = 1 /\ row_get "name" r = VStr "Europe".
Proof.
  assert (H : _upsert_and_get_id "continents" [("name", VStr "Europe")] (DomStr "name")
                empty_store
              = (Ok 1, (_upsert_and_get_id "continents" [("name", VStr "Europe")]
                          (DomStr "name") empty_store).2))
    by (apply run_ok; vm_compute; reflexivity).
  split; [exact H|].
  apply (upsert_and_get_id_returns_row "continents" [("name", VStr "Europe")] (DomStr "name")
           "name" (VStr "Europe") empty_store 1 _).
  - reflexivity.
  - reflexivity.
  - reflexivity.
  - by apply (bool_decide_unpack _).
  - discriminate.
  - exact H.
Defined.

Lemma upsert_many_twice_witness :
  _upsert_many "pros_and_cons" 1 ["description"; "type"]
    [Tuple [VStr "sunny"; VStr "P"]; Tuple [VStr "hilly"; VStr "C"];
     Tuple [VStr "sunny"; VStr "P"]]
    (_upsert_many "pros_and_cons" 1 ["description"; "type"]
       [Tuple [VStr "sunny"; VStr "P"]; Tuple [VStr "hilly"; VStr "C"];
        Tuple [VStr "sunny"; VStr "P"]] empty_store).2
  = (Ok tt,
     (_upsert_many "pros_and_cons" 1 ["description"; "type"]
        [Tuple [VStr "sunny"; VStr "P"]; Tuple [VStr "hilly"; VStr "C"];
         Tuple [VStr "sunny"; VStr "P"]] empty_store).2).
Proof.
  apply (upsert_many_twice "pros_and_cons" 1 ["description"; "type"] _ empty_store).
  - discriminate.
  - by apply (bool_decide_unpack _).
  - intros c Hc. vm_compute in Hc.
    repeat (apply elem_of_cons in Hc as [->|Hc]; [by apply (bool_decide_unpack _)|]).
    by apply elem_of_nil in Hc.
  - by apply (bool_decide_unpack _).
  - intros it Hit.
    repeat (apply elem_of_cons in Hit as [->|Hit];
            [split; [reflexivity | by apply (bool_decide_unpack _)]|]).
    by apply elem_of_nil in Hit.
  - apply run_ok. vm_compute; reflexivity.
Defined.

(** ** Tabs, attributes and their values *)

Lemma tab_row_in_store X (db : database) tt0 :
  db !! "tabs" = Some (insert_ignore_stmt "tabs" (name_row X) tt0) ->
  exists r, r ∈ rows_of "tabs" db /\ row_get "name" r = VStr X.
Proof.
  intros H. destruct (tab_row_after_insert X tt0) as (r & rest & Hf).
  assert (In r (List.filter (named X) (t_rows (insert_ignore_stmt "tabs" (name_row X) tt0))))
    as Hr by (rewrite Hf; by left).
  apply filter_In in Hr as [Hr Hn]. exists r. unfold rows_of. rewrite H.
  split; [by apply list_elem_of_In | by apply bool_decide_eq_true in Hn].
Qed.

(** X9: on a store with the tables [tabs] and [attributes],
    [_upsert_tab_and_attributes] returns, registers the tab, and lists an
    (id, name) pair for every key of [tab_info]; with unique primary keys
    in [attributes] no id is listed twice. *)
Theorem upsert_tab_and_attributes_lists_every_key {A} X (info : list (string * A))
    db tt0 ta :
  plain_name X = true ->
  db !! "tabs" = Some tt0 ->
  db !! "attributes" = Some ta ->
  ids_ok ta ->
  exists attrs db',
    _upsert_tab_and_attributes X info db = (Ok attrs, db')
    /\ (exists r, r ∈ rows_of "tabs" db' /\ row_get "name" r = VStr X)
    /\ (forall a, a ∈ info.*1 -> exists id_attribute, (id_attribute, VStr a) ∈ attrs)
    /\ NoDup attrs.*1.
Proof.
  intros _ Ht Ha Hids. rewrite (upsert_tab_and_attributes_eq X info db tt0 ta Ht Ha).
  eexists _, _. split; [reflexivity|]. split; [|split].
  - apply (tab_row_in_store X _ tt0).
    rewrite lookup_insert_ne by done. apply lookup_insert_eq.
  - intros a Hin. by apply selected_attributes_has_key.
  - by apply selected_attributes_nodup, insert_all_ids_ok.
Qed.

Lemma upsert_tab_and_attributes_again {A} X (info : list (string * A)) db attrs db' :
  _upsert_tab_and_attributes X info db = (Ok attrs, db') ->
  _upsert_tab_and_attributes X info db' = (Ok attrs, db').
Proof.
  intros H.
  destruct (upsert_tab_and_attributes_inv _ _ _ _ _ H) as (tt0 & ta & Ht & Ha).
  rewrite (upsert_tab_and_attributes_eq X info db tt0 ta Ht Ha) in H.
  set (tt1 := insert_ignore_stmt "tabs" (name_row X) tt0) in *.
  set (ta1 := insert_all "attributes" ta (attr_rows (tab_id X tt1) info.*1)) in *.
  injection H as <- <-.
  assert (Ht1 : (<["attributes" := ta1]> (<["tabs" := tt1]> db)) !! "tabs" = Some tt1).
  { rewrite lookup_insert_ne by done. apply lookup_insert_eq. }
  rewrite (upsert_tab_and_attributes_eq X info _ tt1 ta1 Ht1 (lookup_insert_eq _ _ _)).
  rewrite (tab_insert_noop X tt1) by apply tab_named_after_insert.
  assert (insert_all "attributes" ta1 (attr_rows (tab_id X tt1) info.*1) = ta1) as ->.
  { apply (attrs_insert_noop_later _ _ ta), grows_refl. }
  f_equal. apply map_eq. intros tbl.
  destruct (decide (tbl = "attributes")) as [->|Hne1].
  { by rewrite !lookup_insert_eq. }
  rewrite (lookup_insert_ne _ "attributes" tbl) by done.
  destruct (decide (tbl = "tabs")) as [->|Hne2].
  { by rewrite lookup_insert_eq. }
  by rewrite (lookup_insert_ne _ "tabs" tbl), (lookup_insert_ne _ "attributes" tbl) by done.
Qed.

(** X12: calling [_upsert_tab_and_attributes] again with the same tab
    returns the same attributes and leaves the store as the first call
    left it. *)
Theorem upsert_tab_and_attributes_twice {A} X (info : list (string * A)) db attrs db' :
  plain_name X = true ->
  _upsert_tab_and_attributes X info db = (Ok attrs, db') ->
  _upsert_tab_and_attributes X info db' = (Ok attrs, db').
Proof. intros _. apply upsert_tab_and_attributes_again. Qed.

(** [city_attribute_values] raises nothing but [IndexError]. *)
Lemma city_attribute_values_raise id_city attrs info e :
  city_attribute_values id_city attrs info = Raise e -> e = IndexError.
Proof.
  induction attrs as [|[ida att] attrs IH]; simpl; [discriminate|].
  destruct (dict_get_value att info) as [[|i0 [|i1 more]]|]; [done| |  |done].
  - by intros [= <-].
  - destruct (city_attribute_values id_city attrs info); [discriminate|].
    intros [= <-]. by apply IH.
Qed.

Lemma city_attribute_values_short id_city attrs info ida a x :
  (ida, VStr a) ∈ attrs -> dict_get a info = Some [x] ->
  city_attribute_values id_city attrs info = Raise IndexError.
Proof.
  intros Hin Ha. induction attrs as [|[ida' att] attrs IH].
  - by apply elem_of_nil in Hin.
  - apply elem_of_cons in Hin as [[= <- <-]|Hin]; simpl.
    + by rewrite Ha.
    + specialize (IH Hin).
      destruct (dict_get_value att info) as [[|i0 [|i1 more]]|]; [done|done| |done].
      by rewrite IH.
Qed.

(** X10: when some key of [tab_info] holds a tuple of one element,
    [_upsert_key_value_tab_info] raises [IndexError]; by then the tab and
    the attribute are registered, and [city_attributes] is left as it
    was. *)
Theorem one_element_tuple_raises id_city X info db tt0 ta a x :
  plain_name X = true ->
  db !! "tabs" = Some tt0 ->
  db !! "attributes" = Some ta ->
  dict_get a info = Some [x] ->
  exists db',
    _upsert_key_value_tab_info id_city X info db = (Raise IndexError, db')
    /\ db' !! "city_attributes" = db !! "city_attributes"
    /\ (exists r, r ∈ rows_of "tabs" db' /\ row_get "name" r = VStr X)
    /\ (exists r, r ∈ rows_of "attributes" db' /\ row_get "name" r = VStr a).
Proof.
  intros _ Ht Ha Hx. unfold _upsert_key_value_tab_info.
  rewrite (bind_ok _ _ _ _ _ (upsert_tab_and_attributes_eq X info db tt0 ta Ht Ha)).
  set (tt1 := insert_ignore_stmt "tabs" (name_row X) tt0).
  set (ta1 := insert_all "attributes" ta (attr_rows (tab_id X tt1) info.*1)).
  destruct (selected_attributes_has_key a (tab_id X tt1) info.*1 ta
              (dict_get_key _ _ _ Hx)) as [ida Hida].
  fold ta1 in Hida.
  rewrite (city_attribute_values_short id_city _ info ida a x Hida Hx).
  eexists. split; [reflexivity|]. split; [|split].
  - by rewrite !lookup_insert_ne by done.
  - apply (tab_row_in_store X _ tt0).
    rewrite lookup_insert_ne by done. apply lookup_insert_eq.
  - unfold selected_attributes in Hida.
    apply list_elem_of_In, in_map_iff in Hida as (ar & [= _ Hname] & Har).
    apply filter_In in Har as [Har _]. exists ar.
    unfold rows_of. rewrite lookup_insert_eq. split; [by apply list_elem_of_In | done].
Qed.

Lemma weather_values_no_info c attrs : weather_values c attrs [] = [].
Proof.
  unfold weather_values. induction attrs as [|[i a] attrs IH]; [done|].
  simpl. rewrite IH. by destruct a.
Qed.

(** X11: for details without a Weather section, or with an empty one,
    [_upsert_weather] returns after registering the tab 'Weather': no
    attribute and no monthly value is written, and the monthly table is
    not even looked up. *)
Theorem weather_without_section id_city d db tt0 ta :
  db !! "tabs" = Some tt0 ->
  db !! "attributes" = Some ta ->
  default [] (d_Weather d) = [] ->
  exists db',
    _upsert_weather id_city d db = (Ok tt, db')
    /\ (exists r, r ∈ rows_of "tabs" db' /\ row_get "name" r = VStr "Weather")
    /\ db' !! "attributes" = db !! "attributes"
    /\ db' !! "monthly_weathers_attributes" = db !! "monthly_weathers_attributes".
Proof.
  intros Ht Ha Hw. unfold _upsert_weather. rewrite Hw.
  rewrite (bind_ok _ _ _ _ _
             (upsert_tab_and_attributes_eq "Weather" ([] : list (string * list (value * value * value)))
                db tt0 ta Ht Ha)).
  rewrite weather_values_no_info. simpl.
  eexists. split; [reflexivity|]. split; [|split].
  - apply (tab_row_in_store "Weather" _ tt0).
    rewrite lookup_insert_ne by done. apply lookup_insert_eq.
  - by rewrite lookup_insert_eq.
  - by rewrite !lookup_insert_ne by done.
Qed.

Lemma weather_rows_stored c attrs info tm cvs :
  NoDup attrs.*1 ->
  cvs ∈ weather_values c attrs info ->
  stored monthly_key monthly_upd cvs
    (upsert_all monthly_key monthly_upd tm (weather_values c attrs info)).
Proof.
  intros Hnd Hin.
  apply upsert_all_stored; [apply monthly_key_not_id | apply monthly_upd_not_key | | | done].
  - by apply weather_values_nodup.
  - intros cvs' (a' & m' & v' & d' & _ & ->)%weather_values_shape.
    split; [apply month_row_nodup | apply month_row_self_conflict].
Qed.

(** X13: with unique primary keys in [attributes], calling
    [_upsert_weather] again with the same details changes nothing: no
    monthly value is duplicated or rewritten. *)
Theorem upsert_weather_twice id_city d db db' :
  (forall ta, db !! "attributes" = Some ta -> ids_ok ta) ->
  _upsert_weather id_city d db = (Ok tt, db') ->
  _upsert_weather id_city d db' = (Ok tt, db').
Proof.
  intros Hok H. unfold _upsert_weather in *.
  set (info := default [] (d_Weather d)) in *.
  apply bind_inv_ok in H as (attrs & db1 & Hattrs & Hmany).
  pose proof (upsert_tab_and_attributes_again "Weather" info db attrs db1 Hattrs)
    as Hagain.
  assert (Hnd : NoDup attrs.*1).
  { destruct (upsert_tab_and_attributes_inv _ _ _ _ _ Hattrs) as (tt0 & ta & Htt0 & Hta).
    rewrite (upsert_tab_and_attributes_eq _ _ _ _ _ Htt0 Hta) in Hattrs.
    injection Hattrs as <- _. apply selected_attributes_nodup, insert_all_ids_ok. auto. }
  apply executemany_inv in Hmany as [[Hnil ->]|(tm & Htm & ->)].
  - rewrite (bind_ok _ _ _ _ _ Hagain). by rewrite Hnil.
  - assert (Hagain' : _upsert_tab_and_attributes "Weather" info
                        (<["monthly_weathers_attributes" :=
                             foldl (fun t cvs => insert_on_duplicate
                                       (unique_key "monthly_weathers_attributes")
                                       ["attribute_value"; "description"] cvs t) tm
                               (weather_values id_city attrs info)]> db1)
                      = (Ok attrs,
                         <["monthly_weathers_attributes" :=
                             foldl (fun t cvs => insert_on_duplicate
                                       (unique_key "monthly_weathers_attributes")
                                       ["attribute_value"; "description"] cvs t) tm
                               (weather_values id_city attrs info)]> db1)).
    { destruct (upsert_tab_and_attributes_inv _ _ _ _ _ Hagain) as (tt1 & ta1 & Htt1 & Hta1).
      rewrite (upsert_tab_and_attributes_eq _ _ _ _ _ Htt1 Hta1) in Hagain.
      injection Hagain as Hsel Hdb.
      rewrite (upsert_tab_and_attributes_eq "Weather" info _ tt1 ta1)
        by (by rewrite lookup_insert_ne by done).
      rewrite Hsel. f_equal.
      rewrite (insert_insert_ne _ "tabs" "monthly_weathers_attributes") by done.
      rewrite (insert_insert_ne _ "attributes" "monthly_weathers_attributes") by done.
      by rewrite Hdb. }
    rewrite (bind_ok _ _ _ _ _ Hagain').
    rewrite (executemany_some _ _ _ _ _ (lookup_insert_eq _ _ _)).
    change (foldl _ ?t (weather_values id_city attrs info))
      with (upsert_all monthly_key monthly_upd t (weather_values id_city attrs info)).
    rewrite (upsert_all_noop monthly_key monthly_upd).
    + by rewrite insert_insert_eq.
    + intros cvs Hc. by apply weather_rows_stored.
Qed.

Lemma upsert_tab_and_attributes_lists_every_key_witness :
  exists attrs db',
    _upsert_tab_and_attributes "Scores" [("Fun", [VStr "Great nightlife"; VInt 8])]
      empty_store = (Ok attrs, db')
    /\ (exists r, r ∈ rows_of "tabs" db' /\ row_get "name" r = VStr "Scores")
    /\ (forall a, a ∈ [("Fun", [VStr "Great nightlife"; VInt 8])].*1 ->
          exists id_attribute, (id_attribute, VStr a) ∈ attrs)
    /\ NoDup attrs.*1.
Proof.
  apply (upsert_tab_and_attributes_lists_every_key "Scores"
           [("Fun", [VStr "Great nightlife"; VInt 8])] empty_store (Table 1 []) (Table 1 [])).
  - reflexivity.
  - vm_compute; reflexivity.
  - vm_compute; reflexivity.
  - apply (empty_store_ok "attributes"). vm_compute; reflexivity.
Defined.

Lemma upsert_tab_and_attributes_twice_witness :
  _upsert_tab_and_attributes "Scores" [("Fun", [VStr "Great nightlife"; VInt 8])]
    (_upsert_tab_and_attributes "Scores" [("Fun", [VStr "Great nightlife"; VInt 8])]
       empty_store).2
  = (Ok [(1, VStr "Fun")],
     (_upsert_tab_and_attributes "Scores" [("Fun", [VStr "Great nightlife"; VInt 8])]
        empty_store).2).
Proof.
  apply (upsert_tab_and_attributes_twice "Scores"
           [("Fun", [VStr "Great nightlife"; VInt 8])] empty_store).
  - reflexivity.
  - apply run_ok. vm_compute; reflexivity.
Defined.

Lemma one_element_tuple_raises_witness :
  exists db',
    _upsert_key_value_tab_info 1 "Scores" [("Fun", [VStr "Great nightlife"])] empty_store
    = (Raise IndexError, db')
    /\ db' !! "city_attributes" = empty_store !! "city_attributes"
    /\ (exists r, r ∈ rows_of "tabs" db' /\ row_get "name" r = VStr "Scores")
    /\ (exists r, r ∈ rows_of "attributes" db' /\ row_get "name" r = VStr "Fun").
Proof.
  apply (one_element_tuple_raises 1 "Scores" [("Fun", [VStr "Great nightlife"])]
           empty_store (Table 1 []) (Table 1 []) "Fun" (VStr "Great nightlife")).
  - reflexivity.
  - vm_compute; reflexivity.
  - vm_compute; reflexivity.
  - reflexivity.
Defined.

Lemma weather_without_section_witness :
  exists db',
    _upsert_weather 1 lonely empty_store = (Ok tt, db')
    /\ (exists r, r ∈ rows_of "tabs" db' /\ row_get "name" r = VStr "Weather")
    /\ db' !! "attributes" = empty_store !! "attributes"
    /\ db' !! "monthly_weathers_attributes" = empty_store !! "monthly_weathers_attributes".
Proof.
  apply (weather_without_section 1 lonely empty_store (Table 1 []) (Table 1 [])).
  - vm_compute; reflexivity.
  - vm_compute; reflexivity.
  - reflexivity.
Defined.

Lemma upsert_weather_twice_witness :
  _upsert_weather 1 lisbon_year (_upsert_weather 1 lisbon_year empty_store).2
  = (Ok tt, (_upsert_weather 1 lisbon_year empty_store).2).
Proof.
  apply (upsert_weather_twice 1 lisbon_year empty_store).
  - intros ta Hta. exact (proj1 (empty_store_ok "attributes" ta Hta)).
  - apply run_ok. vm_compute; reflexivity.
Defined.

(** ** What the connector never does to the store *)

Section EvolutionFacts.

Variable R : string -> table -> table -> Prop.
Hypothesis R_refl : forall tbl t, R tbl t t.
Hypothesis R_trans : forall tbl t1 t2 t3, R tbl t1 t2 -> R tbl t2 t3 -> R tbl t1 t3.

(** The three kinds of statement. *)
Hypothesis R_insert_ignore :
  forall tbl cvs t, R tbl t (insert_ignore (unique_key tbl) cvs t).1.
Hypothesis R_on_duplicate :
  forall tbl upd cvs t,
    tbl ∈ ["city_attributes"; "monthly_weathers_attributes"] ->
    R tbl t (insert_on_duplicate (unique_key tbl) upd cvs t).
Hypothesis R_update_ignore :
  forall tbl cvs i t,
    tbl ∈ ["countries"; "cities"] -> R tbl t (update_ignore (unique_key tbl) cvs i t).

Lemma evolves_refl db : evolves R db db.
Proof. intros tbl. destruct (db !! tbl); [apply R_refl | done]. Qed.

Lemma evolves_trans db1 db2 db3 :
  evolves R db1 db2 -> evolves R db2 db3 -> evolves R db1 db3.
Proof.
  intros H1 H2 tbl. specialize (H1 tbl). specialize (H2 tbl).
  destruct (db1 !! tbl), (db2 !! tbl), (db3 !! tbl); try done. by eapply R_trans.
Qed.

Lemma respects_ret {A} (a : A) : respects R (ret a).
Proof. intros db. apply evolves_refl. Qed.

Lemma respects_raise {A} e : respects R (@raise A e).
Proof. intros db. apply evolves_refl. Qed.

Lemma respects_lift {A} (x : result A) : respects R (lift x).
Proof. destruct x; [apply respects_ret | apply respects_raise]. Qed.

Lemma respects_bind {A B} (m : M A) (k : A -> M B) :
  respects R m -> (forall a, respects R (k a)) -> respects R (bind m k).
Proof.
  intros Hm Hk db. unfold bind. specialize (Hm db).
  destruct (m db) as [[a|e] db1]; simpl in *; [|done].
  eapply evolves_trans; [exact Hm | apply Hk].
Qed.

Lemma respects_read {A} tbl (f : table -> A) : respects R (read_table tbl f).
Proof. intros db. unfold read_table. destruct (db !! tbl); apply evolves_refl. Qed.

Lemma respects_write {A} tbl (f : table -> table * A) :
  (forall t, R tbl t (f t).1) -> respects R (write_table tbl f).
Proof.
  intros H db. unfold write_table. destruct (db !! tbl) as [t|] eqn:E; simpl.
  - intros tbl'. destruct (decide (tbl' = tbl)) as [->|Hne].
    + rewrite E, lookup_insert_eq. apply H.
    + rewrite lookup_insert_ne by done. destruct (db !! tbl'); [apply R_refl | done].
  - apply evolves_refl.
Qed.

Lemma respects_executemany tbl stmt args :
  (forall cvs t, R tbl t (stmt cvs t)) -> respects R (executemany tbl stmt args).
Proof.
  intros H. destruct args as [|a args]; [apply respects_ret|].
  apply respects_write. intros t. simpl. generalize (stmt a t) (H a t). clear a.
  induction args as [|b args IH]; intros t' Ht'; simpl; [done|].
  apply IH. eapply R_trans; [exact Ht' | apply H].
Qed.

Lemma respects_select_where tbl clause args :
  respects R (execute_select_where tbl clause args).
Proof.
  unfold execute_select_where. destruct (parse_where clause);
    [apply respects_read | apply respects_raise].
Qed.

Lemma respects_select_cities_in in_list names :
  respects R (execute_select_cities_in in_list names).
Proof.
  unfold execute_select_cities_in. destruct (parse_in_list in_list);
    [apply respects_read | apply respects_raise].
Qed.

Lemma respects_upsert_and_get_id tbl values_dict di :
  tbl ∈ ["countries"; "cities"] ->
  respects R (_upsert_and_get_id tbl values_dict di).
Proof.
  intros Htbl. unfold _upsert_and_get_id.
  apply respects_bind; [apply respects_select_where|]. intros [|r found].
  - apply respects_write. intros t. apply R_insert_ignore.
  - apply respects_bind; [|intros; apply respects_ret].
    destruct (any _); [|apply respects_ret].
    apply respects_write. intros t. by apply R_update_ignore.
Qed.

(** The row of a continent holds its name alone, so it is never
    rewritten. *)
Lemma respects_upsert_continent c :
  respects R (_upsert_and_get_id "continents" [("name", VStr c)] (DomStr "name")).
Proof.
  intros db. destruct (db !! "continents") as [t|] eqn:E.
  - rewrite (upsert_and_get_id_table "continents" [("name", VStr c)] (DomStr "name")
               "name" (VStr c) t db eq_refl eq_refl E).
    simpl. intros tbl'. destruct (decide (tbl' = "continents")) as [->|Hne].
    + rewrite E, lookup_insert_eq. unfold upsert_table.
      destruct (List.filter _ (t_rows t)) as [|r rest] eqn:Hsel; [apply R_insert_ignore|].
      assert (In r (List.filter (row_matches [("name", VStr c)]) (t_rows t))) as Hr
        by (rewrite Hsel; by left).
      apply filter_In in Hr as [_ Hm]. rewrite row_matches_name in Hm.
      apply bool_decide_eq_true in Hm.
      rewrite any_differences_false; [apply R_refl|].
      intros cv ->%list_elem_of_singleton. done.
    + rewrite lookup_insert_ne by done. destruct (db !! tbl'); [apply R_refl | done].
  - assert (Hraise : _upsert_and_get_id "continents" [("name", VStr c)] (DomStr "name") db
                     = (Raise ProgrammingError, db)).
    { unfold _upsert_and_get_id.
      change (List.filter _ [("name", VStr c)]) with [("name", VStr c)].
      unfold where_clause_of, execute_select_where. cbn [map fst snd join].
      rewrite (parse_where_single "name" eq_refl).
      unfold bind, read_table. by rewrite E. }
    rewrite Hraise. apply evolves_refl.
Qed.

Lemma respects_upsert_tab_and_attributes {A} tab_name (tab_info : list (string * A)) :
  respects R (_upsert_tab_and_attributes tab_name tab_info).
Proof.
  unfold _upsert_tab_and_attributes.
  apply respects_bind; [apply respects_write; intros; apply R_insert_ignore|]. intros _.
  apply respects_bind; [apply respects_read|]. intros [|r found].
  - apply respects_raise.
  - apply respects_bind; [|intros; apply respects_read].
    apply respects_executemany. intros. apply R_insert_ignore.
Qed.

Lemma respects_upsert_key_value_tab_info id_city tab_name tab_info :
  respects R (_upsert_key_value_tab_info id_city tab_name tab_info).
Proof.
  unfold _upsert_key_value_tab_info.
  apply respects_bind; [apply respects_upsert_tab_and_attributes|]. intros attributes.
  apply respects_bind; [apply respects_lift|]. intros values.
  apply respects_executemany. intros. apply R_on_duplicate. left.
Qed.

Lemma respects_upsert_weather id_city d : respects R (_upsert_weather id_city d).
Proof.
  unfold _upsert_weather.
  apply respects_bind; [apply respects_upsert_tab_and_attributes|]. intros attributes.
  apply respects_executemany. intros. apply R_on_duplicate. right. left.
Qed.

Lemma respects_upsert_many tbl id_city columns values :
  respects R (_upsert_many tbl id_city columns values).
Proof. apply respects_executemany. intros. apply R_insert_ignore. Qed.

Lemma respects_insert_relationships id_city d :
  respects R (_insert_relationships id_city d).
Proof.
  unfold _insert_relationships.
  apply respects_bind; [apply respects_executemany; intros; apply R_insert_ignore|].
  intros _. apply respects_bind; [apply respects_select_cities_in|]. intros fetched.
  apply respects_executemany. intros. apply R_insert_ignore.
Qed.

Lemma respects_insert_city_info d : respects R (insert_city_info d).
Proof.
  unfold insert_city_info.
  apply respects_bind; [apply respects_upsert_continent|]. intros id_continent.
  apply respects_bind; [apply respects_upsert_and_get_id; left|]. intros id_country.
  apply respects_bind; [apply respects_upsert_and_get_id; right; left|]. intros id_city.
  repeat first
    [ apply respects_upsert_key_value_tab_info
    | apply respects_upsert_many
    | apply respects_upsert_weather
    | apply respects_insert_relationships
    | apply respects_lift
    | apply respects_bind; [|intros] ].
Qed.

Section DriverEvolution.

Variable g : string -> result (option details).

Lemma respects_try_body res : respects R (try_body g res).
Proof.
  unfold try_body. apply respects_bind; [apply respects_lift|]. intros [d|].
  - apply respects_bind; [apply respects_insert_city_info | intros; apply respects_ret].
  - apply respects_ret.
Qed.

Lemma evolves_loop_body res st : evolves R (store st) (store (loop_body g res st)).
Proof.
  unfold loop_body. pose proof (respects_try_body res (store st)) as H.
  destruct (try_body g res (store st)) as [[[|]|e] db']; simpl in *; [done..|].
  by destruct e.
Qed.

Lemma evolves_loop evs st : evolves R (store st) (store (foldl (loop_step g) st evs)).
Proof.
  revert st. induction evs as [|ev evs IH]; intros st; simpl; [apply evolves_refl|].
  eapply evolves_trans; [|apply IH].
  destruct ev as [l|res]; simpl; [apply evolves_refl | apply evolves_loop_body].
Qed.

Lemma evolves_scrap_cities lis db : evolves R db (store (scrap_cities g lis db)).
Proof. unfold scrap_cities. simpl. apply (evolves_loop _ (Run None (Counters 0 0 0) [] db)). Qed.

End DriverEvolution.

End EvolutionFacts.

(** *** Rows are kept *)

Lemma keeps_rows_refl t : keeps_rows t t.
Proof. split; [exists []; by rewrite app_nil_r | done]. Qed.

Lemma keeps_rows_trans t1 t2 t3 : keeps_rows t1 t2 -> keeps_rows t2 t3 -> keeps_rows t1 t3.
Proof.
  intros [[e1 H1] K1] [[e2 H2] K2]. split; [|auto].
  exists (e1 ++ e2). by rewrite H2, H1, app_assoc.
Qed.

Lemma row_id_update_first (p : row -> bool) f rs :
  (forall r, row_id (f r) = row_id r) ->
  row_id <$> update_first p f rs = row_id <$> rs.
Proof.
  intros H. induction rs as [|r rs IH]; [done|]. cbn [update_first].
  destruct (p r); rewrite !fmap_cons; [by rewrite H | by rewrite IH].
Qed.

Lemma ids_ok_same_ids t t' :
  row_id <$> t_rows t' = row_id <$> t_rows t -> t_next t' = t_next t ->
  ids_ok t -> ids_ok t'.
Proof.
  intros Hids Hn [Hnd Hlt]. split; [by rewrite Hids|].
  apply (Forall_fmap row_id (fun i => i < t_next t')). rewrite Hids, Hn.
  by apply Forall_fmap.
Qed.

Lemma keeps_rows_update_first (p : row -> bool) cvs t :
  keeps_rows t (Table (t_next t) (update_first p (row_set cvs) (t_rows t))).
Proof.
  assert (H : row_id <$> update_first p (row_set cvs) (t_rows t) = row_id <$> t_rows t)
    by (apply row_id_update_first; intros; apply row_id_row_set).
  split.
  - exists []. by rewrite app_nil_r.
  - by apply ids_ok_same_ids.
Qed.

Lemma keeps_rows_insert_ignore key cvs t : keeps_rows t (insert_ignore key cvs t).1.
Proof.
  split; [|apply insert_ignore_ids_ok].
  rewrite insert_ignore_rows, fmap_app. eauto.
Qed.

Lemma keeps_rows_update_ignore key cvs i t : keeps_rows t (update_ignore key cvs i t).
Proof.
  unfold update_ignore. destruct (find _ _); [|apply keeps_rows_refl].
  destruct (existsb _ _); [apply keeps_rows_refl | apply keeps_rows_update_first].
Qed.

Lemma keeps_rows_on_duplicate key upd cvs t :
  keeps_rows t (insert_on_duplicate key upd cvs t).
Proof.
  unfold insert_on_duplicate. destruct (existsb _ _) eqn:E.
  - apply keeps_rows_update_first.
  - pose proof (keeps_rows_insert_ignore key cvs t) as H.
    unfold insert_ignore in H. by rewrite E in H.
Qed.

(** X15: whether it returns or raises, [insert_city_info] creates and
    drops no table, deletes no row, changes no id and keeps the rows in
    their order; primary keys that were unique stay unique. *)
Theorem insert_city_info_keeps_rows d db :
  evolves (fun _ => keeps_rows) db (insert_city_info d db).2.
Proof.
  apply respects_insert_city_info.
  - intros _. apply keeps_rows_refl.
  - intros _. apply keeps_rows_trans.
  - intros. apply keeps_rows_insert_ignore.
  - intros. apply keeps_rows_on_duplicate.
  - intros. apply keeps_rows_update_ignore.
Qed.

(** *** Rows are left as they are *)

Lemma appends_refl tbl t : appends tbl t t.
Proof. intros _. apply grows_refl. Qed.

Lemma appends_trans tbl t1 t2 t3 : appends tbl t1 t2 -> appends tbl t2 t3 -> appends tbl t1 t3.
Proof. intros H1 H2 Hin. eapply grows_trans; eauto. Qed.

Lemma appends_insert_ignore tbl cvs t : appends tbl t (insert_ignore (unique_key tbl) cvs t).1.
Proof. intros _. apply (insert_ignore_grows tbl). Qed.

Lemma appends_on_duplicate tbl upd cvs t :
  tbl ∈ ["city_attributes"; "monthly_weathers_attributes"] ->
  appends tbl t (insert_on_duplicate (unique_key tbl) upd cvs t).
Proof.
  intros Hin Hap. exfalso.
  assert (H : Forall (fun x => x ∉ append_only)
                ["city_attributes"; "monthly_weathers_attributes"])
    by (by apply (bool_decide_unpack _)).
  rewrite Forall_forall in H. by apply (H tbl).
Qed.

Lemma appends_update_ignore tbl cvs i t :
  tbl ∈ ["countries"; "cities"] -> appends tbl t (update_ignore (unique_key tbl) cvs i t).
Proof.
  intros Hin Hap. exfalso.
  assert (H : Forall (fun x => x ∉ append_only) ["countries"; "cities"])
    by (by apply (bool_decide_unpack _)).
  rewrite Forall_forall in H. by apply (H tbl).
Qed.

Lemma appends_rows_of T db db' :
  T ∈ append_only -> evolves appends db db' ->
  exists extra, rows_of T db' = rows_of T db ++ extra.
Proof.
  intros HT H. specialize (H T). unfold rows_of.
  destruct (db !! T), (db' !! T); try done; [by apply H | by exists []].
Qed.

(** X16: whether it returns or raises, [insert_city_info] leaves every
    row of [continents], [tabs], [attributes], [photos], [pros_and_cons],
    [reviews] and [cities_relationships] as it is: these tables only have
    rows added at their end. *)
Theorem insert_city_info_appends T d db :
  T ∈ append_only ->
  exists extra, rows_of T (insert_city_info d db).2 = rows_of T db ++ extra.
Proof.
  intros HT. apply appends_rows_of; [done|].
  apply respects_insert_city_info.
  - apply appends_refl.
  - apply appends_trans.
  - apply appends_insert_ignore.
  - apply appends_on_duplicate.
  - apply appends_update_ignore.
Qed.

(** X17: a whole run of [scrap_cities], whatever the extractor returns or
    raises and whichever requests fail, creates and drops no table,
    deletes no row and changes no id; and the rows of the seven
    insert-only tables are left as they are. *)
Theorem scrap_cities_keeps_rows g lis db :
  evolves (fun _ => keeps_rows) db (store (scrap_cities g lis db))
  /\ forall T, T ∈ append_only ->
       exists extra, rows_of T (store (scrap_cities g lis db)) = rows_of T db ++ extra.
Proof.
  split.
  - apply evolves_scrap_cities.
    + intros _. apply keeps_rows_refl.
    + intros _. apply keeps_rows_trans.
    + intros. apply keeps_rows_insert_ignore.
    + intros. apply keeps_rows_on_duplicate.
    + intros. apply keeps_rows_update_ignore.
  - intros T HT. apply appends_rows_of; [done|].
    apply evolves_scrap_cities.
    + apply appends_refl.
    + apply appends_trans.
    + apply appends_insert_ignore.
    + apply appends_on_duplicate.
    + apply appends_update_ignore.
Qed.

Lemma insert_city_info_appends_witness :
  exists extra,
    rows_of "tabs" (insert_city_info lisbon (insert_city_info porto empty_store).2).2
    = rows_of "tabs" (insert_city_info porto empty_store).2 ++ extra.
Proof.
  apply (insert_city_info_appends "tabs" lisbon (insert_city_info porto empty_store).2).
  by apply (bool_decide_unpack _).
Defined.

(** ** Details without pros and cons *)

Lemma never_ok_after_raise {A B} (m : M A) e db :
  exists e' db', bind m (fun _ => @raise B e) db = (Raise e', db').
Proof. unfold bind, raise. destruct (m db) as [[a|e'] db']; eauto. Qed.

(** X14: for details whose ProsAndCons section is missing, or lacks its
    pros or its cons, [insert_city_info] never returns: it raises, and
    the pros and cons, the reviews, the weather and the relationships of
    the city are not written. *)
Theorem no_pros_and_cons_raises d db e0 :
  pros_cons_items (d_ProsAndCons d) = Raise e0 ->
  exists e db',
    insert_city_info d db = (Raise e, db')
    /\ db' !! "pros_and_cons" = db !! "pros_and_cons"
    /\ db' !! "reviews" = db !! "reviews"
    /\ db' !! "monthly_weathers_attributes" = db !! "monthly_weathers_attributes"
    /\ db' !! "cities_relationships" = db !! "cities_relationships".
Proof.
  intros Hpc.
  set (m := (id_continent <- _upsert_and_get_id "continents"
                               [("name", VStr (d_continent d))] (DomStr "name") ;;
             id_country <- _upsert_and_get_id "countries"
                             [("name", VStr (d_country d)); ("id_continent", VInt id_continent)]
                             (DomStr "name") ;;
             id_city <- _upsert_and_get_id "cities"
                          [("name", VStr (d_city d)); ("city_rank", d_rank d);
                           ("id_country", VInt id_country)] (DomStr "name") ;;
             _upsert_key_value_tab_info id_city "Scores" (default [] (d_Scores d)) ;;;
             _upsert_key_value_tab_info id_city "Digital Nomad Guide"
               (default [] (d_DigitalNomadGuide d)) ;;;
             _upsert_key_value_tab_info id_city "Cost of Living"
               (default [] (d_CostOfLiving d)) ;;;
             _upsert_many "photos" id_city ["src"]
               (map (fun s => Scalar (VStr s)) (default [] (d_Photos d)))) : M unit).
  assert (Heq : insert_city_info d db = bind m (fun _ => @raise unit e0) db).
  { unfold insert_city_info, m. rewrite Hpc.
    repeat (rewrite ?bind_assoc; apply bind_ext; intros). reflexivity. }
  assert (Hpres : forall T,
             T ∈ ["pros_and_cons"; "reviews"; "monthly_weathers_attributes";
                  "cities_relationships"] ->
             preserves T (bind m (fun _ => @raise unit e0))).
  { intros T HT. unfold m.
    assert (HF : Forall (fun T => Forall (fun tbl => tbl <> T)
                                    ["continents"; "countries"; "cities"; "tabs";
                                     "attributes"; "city_attributes"; "photos"])
                   ["pros_and_cons"; "reviews"; "monthly_weathers_attributes";
                    "cities_relationships"])
      by (by apply (bool_decide_unpack _)).
    rewrite Forall_forall in HF. specialize (HF T HT).
    rewrite Forall_forall in HF.
    assert (Hne : forall tbl, tbl ∈ ["continents"; "countries"; "cities"; "tabs";
                                     "attributes"; "city_attributes"; "photos"] -> tbl <> T)
      by (intros tbl Htbl; by apply HF).
    repeat first
      [ apply preserves_upsert_and_get_id
      | apply preserves_upsert_key_value_tab_info
      | apply preserves_upsert_many
      | apply preserves_raise
      | apply preserves_bind; [|intros] ];
      apply Hne; by apply (bool_decide_unpack _). }
  destruct (never_ok_after_raise (B:=unit) m e0 db) as (e & db' & Hrun).
  exists e, db'. rewrite Heq. split; [exact Hrun|].
  split; [|split; [|split]].
  - apply (Hpres "pros_and_cons" ltac:(by apply (bool_decide_unpack _)) _ _ _ Hrun).
  - apply (Hpres "reviews" ltac:(by apply (bool_decide_unpack _)) _ _ _ Hrun).
  - apply (Hpres "monthly_weathers_attributes" ltac:(by apply (bool_decide_unpack _))
             _ _ _ Hrun).
  - apply (Hpres "cities_relationships" ltac:(by apply (bool_decide_unpack _)) _ _ _ Hrun).
Qed.

Lemma no_pros_and_cons_raises_witness :
  exists e db',
    insert_city_info
      (Details "Europe" "Malta" "Valletta" (VInt 7) None None None (Some ["v.jpg"])
         None (Some ["quiet"]) None None None None) empty_store = (Raise e, db')
    /\ db' !! "pros_and_cons" = empty_store !! "pros_and_cons"
    /\ db' !! "reviews" = empty_store !! "reviews"
    /\ db' !! "monthly_weathers_attributes" = empty_store !! "monthly_weathers_attributes"
    /\ db' !! "cities_relationships" = empty_store !! "cities_relationships".
Proof.
  apply (no_pros_and_cons_raises _ empty_store AttributeError). reflexivity.
Defined.

(** ** What an upsert leaves in the row *)

Lemma differences_none r (values_dict : list (string * value)) :
  any (differences r values_dict) = false ->
  forall cv, cv ∈ values_dict -> row_get cv.1 r = cv.2.
Proof.
  unfold any, differences. intros H cv Hcv.
  destruct (decide (row_get cv.1 r = cv.2)) as [|Hne]; [done|]. exfalso.
  assert (existsb (fun b : bool => b)
            (map (fun kv => py_ne (row_get kv.1 r) kv.2) values_dict) = true) as Ht.
  { apply existsb_exists. exists true. split; [|done].
    apply in_map_iff. exists cv. split; [|by apply list_elem_of_In].
    unfold py_ne. by apply bool_decide_eq_true. }
  congruence.
Qed.

Lemma upsert_table_holds k v values_dict t :
  NoDup values_dict.*1 -> (k, v) ∈ values_dict -> "id" ∉ values_dict.*1 -> v <> VNone ->
  ids_ok t -> key_unique [k] t ->
  exists r, r ∈ t_rows (upsert_table [k] values_dict (k, v) t).1
            /\ row_id r = (upsert_table [k] values_dict (k, v) t).2
            /\ forall cv, cv ∈ values_dict -> row_get cv.1 r = cv.2.
Proof.
  intros Hnd Hin Hid Hv Hids Hu.
  destruct (upsert_table_first k v values_dict Hnd Hin Hid Hv t Hids Hu)
    as (r & rest & Hf & Hi & Hd).
  exists r. split; [|split; [done | by apply differences_none]].
  assert (In r (List.filter (row_matches [(k, v)])
                  (t_rows (upsert_table [k] values_dict (k, v) t).1))) as Hr
    by (rewrite Hf; by left).
  apply filter_In in Hr as [Hr _]. by apply list_elem_of_In.
Qed.

Lemma upsert_and_get_id_holds tbl values_dict di k v db i db' :
  List.filter (fun kv => key_selected di kv.1) values_dict = [(k, v)] ->
  is_ident k = true ->
  unique_key tbl = [k] ->
  NoDup values_dict.*1 ->
  "id" ∉ values_dict.*1 ->
  v <> VNone ->
  (forall t, db !! tbl = Some t -> ids_ok t /\ key_unique (unique_key tbl) t) ->
  _upsert_and_get_id tbl values_dict di db = (Ok i, db') ->
  exists r, r ∈ rows_of tbl db' /\ row_id r = i
            /\ forall cv, cv ∈ values_dict -> row_get cv.1 r = cv.2.
Proof.
  intros Hkey Hident Huk Hnd Hid Hv Hok H.
  pose proof (selected_filter_elem _ _ _ _ Hkey) as Hin.
  apply (upsert_and_get_id_inv _ _ _ k v) in H as (t & Ht & -> & ->); [|done..].
  destruct (Hok t Ht) as [Hids Hu]. rewrite Huk in *.
  unfold rows_of. rewrite lookup_insert_eq. by apply upsert_table_holds.
Qed.

(** X18: on a store that satisfies its schema, with the unique key of
    the table as the one-column natural key, the row whose id
    [_upsert_and_get_id] returns holds every value of [values_dict]
    afterwards, whether it was found, updated or inserted. *)
Theorem upsert_and_get_id_stores_values tbl values_dict di k v db i db' :
  List.filter (fun kv => key_selected di kv.1) values_dict = [(k, v)] ->
  is_ident k = true ->
  unique_key tbl = [k] ->
  NoDup values_dict.*1 ->
  "id" ∉ values_dict.*1 ->
  v <> VNone ->
  store_ok db ->
  _upsert_and_get_id tbl values_dict di db = (Ok i, db') ->
  exists r, r ∈ rows_of tbl db' /\ row_id r = i
            /\ forall cv, cv ∈ values_dict -> row_get cv.1 r = cv.2.
Proof.
  intros Hkey Hident Huk Hnd Hid Hv Hok.
  apply (upsert_and_get_id_holds tbl values_dict di k v); try done.
  intros t Ht. by apply Hok.
Qed.

Lemma upsert_and_get_id_stores_values_witness :
  exists r,
    r ∈ rows_of "cities"
          (_upsert_and_get_id "cities"
             [("name", VStr "Lisbon"); ("city_rank", VInt 3); ("id_country", VInt 1)]
             (DomStr "name") empty_store).2
    /\ row_id r = 1
    /\ forall cv, cv ∈ [("name", VStr "Lisbon"); ("city_rank", VInt 3); ("id_country", VInt 1)] ->
                  row_get cv.1 r = cv.2.
Proof.
  apply (upsert_and_get_id_stores_values "cities"
           [("name", VStr "Lisbon"); ("city_rank", VInt 3); ("id_country", VInt 1)]
           (DomStr "name") "name" (VStr "Lisbon") empty_store 1 _).
  - reflexivity.
  - reflexivity.
  - reflexivity.
  - by apply (bool_decide_unpack _).
  - by apply (bool_decide_unpack _).
  - discriminate.
  - exact empty_store_ok.
  - apply run_ok. vm_compute; reflexivity.
Defined.

(** ** The place of a stored city *)

Lemma preserves_select_cities_in T in_list names :
  preserves T (execute_select_cities_in in_list names).
Proof.
  unfold execute_select_cities_in. destruct (parse_in_list in_list);
    [apply preserves_read | apply preserves_raise].
Qed.

Lemma preserves_insert_relationships T id_city d :
  "cities" <> T -> "cities_relationships" <> T ->
  preserves T (_insert_relationships id_city d).
Proof.
  intros H1 H2. unfold _insert_relationships.
  apply preserves_bind; [by apply preserves_executemany|]. intros _.
  apply preserves_bind; [apply preserves_select_cities_in|]. intros fetched.
  by apply preserves_executemany.
Qed.

(** The relationship step rewrites no row, of any table. *)
Lemma insert_relationships_grows id_city d :
  respects (fun _ => grows) (_insert_relationships id_city d).
Proof.
  apply (respects_insert_relationships (fun _ => grows) (fun _ => grows_refl)
           (fun _ => grows_trans) insert_ignore_grows).
Qed.

Lemma insert_relationships_keeps_row T id_city d db res db' r :
  _insert_relationships id_city d db = (res, db') ->
  r ∈ rows_of T db -> r ∈ rows_of T db'.
Proof.
  intros H Hr. pose proof (insert_relationships_grows id_city d db T) as Hg.
  rewrite H in Hg. simpl in Hg. unfold rows_of in *.
  destruct (db !! T), (db' !! T); try done.
  destruct Hg as [extra ->]. apply elem_of_app. by left.
Qed.

(** X19: on a store that satisfies its schema, once [insert_city_info]
    has returned there is a city row with the returned chain of ids: it
    holds the city's name and rank and the id of a country row, which
    holds the country's name and the id of a continent row, which holds
    the continent's name. *)
Theorem place_is_stored d db db' :
  store_ok db ->
  insert_city_info d db = (Ok tt, db') ->
  exists continent country city,
    continent ∈ rows_of "continents" db'
    /\ row_get "name" continent = VStr (d_continent d)
    /\ country ∈ rows_of "countries" db'
    /\ row_get "name" country = VStr (d_country d)
    /\ row_get "id_continent" country = VInt (row_id continent)
    /\ city ∈ rows_of "cities" db'
    /\ row_get "name" city = VStr (d_city d)
    /\ row_get "city_rank" city = d_rank d
    /\ row_get "id_country" city = VInt (row_id country).
Proof.
  intros Hok Hall.
  rewrite insert_city_info_steps in Hall.
  apply bind_inv_ok in Hall as (id_city & db8 & Hsteps & Hrel).
  apply steps_before_relationships_inv in Hsteps as (db3 & Hplace & Hsec).
  unfold upsert_place in Hplace.
  apply bind_inv_ok in Hplace as (i1 & db1 & H1 & Hplace).
  apply bind_inv_ok in Hplace as (i2 & db2 & H2 & H3).
  (* the stores in between agree with [db] on the table written next *)
  assert (K2 : db1 !! "countries" = db !! "countries")
    by (by apply (preserves_upsert_and_get_id "countries") in H1).
  assert (K3 : db2 !! "cities" = db !! "cities").
  { apply (preserves_upsert_and_get_id "cities") in H1, H2; [|done..]. congruence. }
  assert (exists continent, continent ∈ rows_of "continents" db1 /\ row_id continent = i1
            /\ forall cv, cv ∈ [("name", VStr (d_continent d))] ->
                          row_get cv.1 continent = cv.2)
    as (continent & Hc1 & Hi1 & Hv1).
  { apply (upsert_and_get_id_holds "continents" [("name", VStr (d_continent d))]
             (DomStr "name") "name" (VStr (d_continent d)) db i1 db1);
      [reflexivity | reflexivity | reflexivity | by apply (bool_decide_unpack _)
      | by apply (bool_decide_unpack _) | done | apply (Hok "continents") | exact H1]. }
  assert (exists country, country ∈ rows_of "countries" db2 /\ row_id country = i2
            /\ forall cv, cv ∈ [("name", VStr (d_country d)); ("id_continent", VInt i1)] ->
                          row_get cv.1 country = cv.2)
    as (country & Hc2 & Hi2 & Hv2).
  { apply (upsert_and_get_id_holds "countries"
             [("name", VStr (d_country d)); ("id_continent", VInt i1)]
             (DomStr "name") "name" (VStr (d_country d)) db1 i2 db2);
      [reflexivity | reflexivity | reflexivity | by apply (bool_decide_unpack _)
      | by apply (bool_decide_unpack _) | done
      | rewrite K2; apply (Hok "countries") | exact H2]. }
  assert (exists city, city ∈ rows_of "cities" db3 /\ row_id city = id_city
            /\ forall cv, cv ∈ [("name", VStr (d_city d)); ("city_rank", d_rank d);
                                ("id_country", VInt i2)] ->
                          row_get cv.1 city = cv.2)
    as (city & Hc3 & Hi3 & Hv3).
  { apply (upsert_and_get_id_holds "cities"
             [("name", VStr (d_city d)); ("city_rank", d_rank d); ("id_country", VInt i2)]
             (DomStr "name") "name" (VStr (d_city d)) db2 id_city db3);
      [reflexivity | reflexivity | reflexivity | by apply (bool_decide_unpack _)
      | by apply (bool_decide_unpack _) | done
      | rewrite K3; apply (Hok "cities") | exact H3]. }
  (* the later steps keep these rows *)
  assert (L1 : continent ∈ rows_of "continents" db').
  { apply (insert_relationships_keeps_row _ _ _ _ _ _ _ Hrel).
    unfold rows_of in *.
    rewrite (preserves_upsert_sections "continents" id_city d
               ltac:(done) ltac:(done) ltac:(done) ltac:(done) ltac:(done) ltac:(done)
               ltac:(done) _ _ _ Hsec).
    rewrite (preserves_upsert_and_get_id "continents" "cities" _ _ ltac:(done) _ _ _ H3).
    by rewrite (preserves_upsert_and_get_id "continents" "countries" _ _ ltac:(done) _ _ _ H2). }
  assert (L2 : country ∈ rows_of "countries" db').
  { apply (insert_relationships_keeps_row _ _ _ _ _ _ _ Hrel).
    unfold rows_of in *.
    rewrite (preserves_upsert_sections "countries" id_city d
               ltac:(done) ltac:(done) ltac:(done) ltac:(done) ltac:(done) ltac:(done)
               ltac:(done) _ _ _ Hsec).
    by rewrite (preserves_upsert_and_get_id "countries" "cities" _ _ ltac:(done) _ _ _ H3). }
  assert (L3 : city ∈ rows_of "cities" db').
  { apply (insert_relationships_keeps_row _ _ _ _ _ _ _ Hrel).
    unfold rows_of in *.
    by rewrite (preserves_upsert_sections "cities" id_city d
                  ltac:(done) ltac:(done) ltac:(done) ltac:(done) ltac:(done) ltac:(done)
                  ltac:(done) _ _ _ Hsec). }
  exists continent, country, city.
  split; [exact L1|]. split; [apply (Hv1 ("name", _)); left|].
  split; [exact L2|]. split; [apply (Hv2 ("name", _)); left|].
  split; [rewrite Hi1; apply (Hv2 ("id_continent", _)); right; left|].
  split; [exact L3|]. split; [apply (Hv3 ("name", _)); left|].
  split; [apply (Hv3 ("city_rank", _)); right; left|].
  rewrite Hi2. apply (Hv3 ("id_country", _)). right; right; left.
Qed.

Lemma place_is_stored_witness :
  exists continent country city,
    continent ∈ rows_of "continents" (insert_city_info lisbon empty_store).2
    /\ row_get "name" continent = VStr (d_continent lisbon)
    /\ country ∈ rows_of "countries" (insert_city_info lisbon empty_store).2
    /\ row_get "name" country = VStr (d_country lisbon)
    /\ row_get "id_continent" country = VInt (row_id continent)
    /\ city ∈ rows_of "cities" (insert_city_info lisbon empty_store).2
    /\ row_get "name" city = VStr (d_city lisbon)
    /\ row_get "city_rank" city = d_rank lisbon
    /\ row_get "id_country" city = VInt (row_id country).
Proof.
  apply (place_is_stored lisbon empty_store).
  - exact empty_store_ok.
  - apply run_ok. vm_compute; reflexivity.
Defined.

(** ** The values of the attributes *)

Lemma attributes_key_not_id : "id" ∉ attributes_key.
Proof. by apply (bool_decide_unpack _). Qed.

Lemma attributes_upd_not_key c : c ∈ attributes_upd -> c ∉ attributes_key.
Proof.
  assert (H : Forall (fun c => c ∉ attributes_key) attributes_upd)
    by (by apply (bool_decide_unpack _)).
  rewrite Forall_forall in H. apply H.
Qed.

Lemma attribute_row_key c a d v u :
  key_of attributes_key (fresh_row (attribute_row c a d v u) 0) = [VInt c; VInt a].
Proof. reflexivity. Qed.

Lemma attribute_row_self_conflict c a d v u :
  self_conflict attributes_key (attribute_row c a d v u).
Proof.
  intros i. unfold conflicts, collides. simpl.
  change (row_get "id_city" (fresh_row (attribute_row c a d v u) i)) with (VInt c).
  change (row_get "id_city" (fresh_row (attribute_row c a d v u) 0)) with (VInt c).
  change (row_get "id_attribute" (fresh_row (attribute_row c a d v u) i)) with (VInt a).
  change (row_get "id_attribute" (fresh_row (attribute_row c a d v u) 0)) with (VInt a).
  rewrite !sql_eq_int, !bool_decide_true; done.
Qed.

Lemma attribute_row_conflicts c a d v u r :
  conflicts attributes_key (attribute_row c a d v u) r = attribute_key c a r.
Proof.
  unfold conflicts, collides, attribute_key. simpl.
  change (row_get "id_city" (fresh_row (attribute_row c a d v u) 0)) with (VInt c).
  change (row_get "id_attribute" (fresh_row (attribute_row c a d v u) 0)) with (VInt a).
  rewrite !sql_eq_int, andb_true_r.
  apply eq_true_iff_eq.
  rewrite !andb_true_iff, !bool_decide_eq_true. tauto.
Qed.

Lemma attribute_row_nodup c a d v u : NoDup (attribute_row c a d v u).*1.
Proof. by apply (bool_decide_unpack _). Qed.

Lemma city_attribute_values_cons c ida att attrs info :
  city_attribute_values c ((ida, att) :: attrs) info
  = match dict_get_value att info with
    | None | Some [] => city_attribute_values c attrs info
    | Some [_] => Raise IndexError
    | Some (i0 :: i1 :: more) =>
        match city_attribute_values c attrs info with
        | Raise e => Raise e
        | Ok vs => Ok (attribute_row c ida i0 i1 (url_of more) :: vs)
        end
    end.
Proof. reflexivity. Qed.

Lemma city_attribute_values_shape c attrs info vs cvs :
  city_attribute_values c attrs info = Ok vs ->
  cvs ∈ vs ->
  exists a d v u, a ∈ attrs.*1 /\ cvs = attribute_row c a d v u.
Proof.
  revert vs. induction attrs as [|[ida att] attrs IH]; intros vs.
  - intros [= <-] H. by apply elem_of_nil in H.
  - rewrite city_attribute_values_cons.
    assert (Hrest : city_attribute_values c attrs info = Ok vs -> cvs ∈ vs ->
                    exists a d v u, a ∈ ((ida, att) :: attrs).*1
                                    /\ cvs = attribute_row c a d v u).
    { intros H Hin. destruct (IH vs H Hin) as (a & d & v & u & Ha & ->).
      exists a, d, v, u. split; [by right | done]. }
    destruct (dict_get_value att info) as [[|i0 [|i1 more]]|]; [done|done| |done].
    destruct (city_attribute_values c attrs info) as [vs'|]; [|done].
    intros [= <-] [->|Hin]%elem_of_cons.
    + exists ida, i0, i1, (url_of more). split; [left | done].
    + destruct (IH vs' eq_refl Hin) as (a & d & v & u & Ha & ->).
      exists a, d, v, u. split; [by right | done].
Qed.

Lemma city_attribute_values_nodup c attrs info vs :
  NoDup attrs.*1 ->
  city_attribute_values c attrs info = Ok vs ->
  NoDup ((fun cvs => key_of attributes_key (fresh_row cvs 0)) <$> vs).
Proof.
  revert vs. induction attrs as [|[ida att] attrs IH]; intros vs Hnd.
  - intros [= <-]. constructor.
  - simpl in Hnd. apply NoDup_cons in Hnd as [Hida Hnd].
    rewrite city_attribute_values_cons.
    destruct (dict_get_value att info) as [[|i0 [|i1 more]]|]; [by apply IH|done| |by apply IH].
    destruct (city_attribute_values c attrs info) as [vs'|] eqn:E; [|done].
    intros [= <-]. rewrite fmap_cons. apply NoDup_cons. split; [|by apply IH].
    intros Hin. apply list_elem_of_fmap in Hin as (cvs & Hk & Hc).
    destruct (city_attribute_values_shape c attrs info vs' cvs E Hc)
      as (a & d & v & u & Ha & ->).
    rewrite !attribute_row_key in Hk. injection Hk as ->. done.
Qed.

Lemma city_attribute_values_elem c attrs info vs ida a i0 i1 more :
  city_attribute_values c attrs info = Ok vs ->
  (ida, VStr a) ∈ attrs ->
  dict_get a info = Some (i0 :: i1 :: more) ->
  attribute_row c ida i0 i1 (url_of more) ∈ vs.
Proof.
  intros H Hin Ha. revert vs H. induction attrs as [|[ida' att] attrs IH]; intros vs.
  - by apply elem_of_nil in Hin.
  - rewrite city_attribute_values_cons.
    apply elem_of_cons in Hin as [[= <- <-]|Hin].
    + simpl. rewrite Ha.
      destruct (city_attribute_values c attrs info); [|done]. intros [= <-]. left.
    + destruct (dict_get_value att info) as [[|j0 [|j1 more']]|]; [by apply IH|done| |by apply IH].
      destruct (city_attribute_values c attrs info) as [vs'|]; [|done].
      intros [= <-]. right. by apply IH.
Qed.

Lemma attribute_rows_stored c attrs info vs tm cvs :
  NoDup attrs.*1 ->
  city_attribute_values c attrs info = Ok vs ->
  cvs ∈ vs ->
  stored attributes_key attributes_upd cvs (upsert_all attributes_key attributes_upd tm vs).
Proof.
  intros Hnd Hvs Hin.
  apply upsert_all_stored;
    [apply attributes_key_not_id | apply attributes_upd_not_key | | | done].
  - by apply (city_attribute_values_nodup c attrs info).
  - intros cvs' Hc.
    destruct (city_attribute_values_shape c attrs info vs cvs' Hvs Hc)
      as (a' & d' & v' & u' & _ & ->).
    split; [apply attribute_row_nodup | apply attribute_row_self_conflict].
Qed.

(** X20: on a store that satisfies its schema, once
    [_upsert_key_value_tab_info] has returned, every key of [tab_info]
    with a tuple of two elements or more has its attribute row, and the
    city has exactly one row in [city_attributes] for that attribute: it
    holds the first element as description, the second as value, and the
    third as url, or NULL when there is none. *)
Theorem city_attribute_is_stored id_city X info db db' a i0 i1 more :
  plain_name X = true ->
  store_ok db ->
  _upsert_key_value_tab_info id_city X info db = (Ok tt, db') ->
  dict_get a info = Some (i0 :: i1 :: more) ->
  exists id_attribute r,
    (exists ar, ar ∈ rows_of "attributes" db' /\ row_id ar = id_attribute
                /\ row_get "name" ar = VStr a)
    /\ List.filter (attribute_key id_city id_attribute) (rows_of "city_attributes" db') = [r]
    /\ row_get "description" r = i0
    /\ row_get "attribute_value" r = i1
    /\ row_get "url" r = url_of more.
Proof.
  intros _ Hok H Ha. unfold _upsert_key_value_tab_info in H.
  apply bind_inv_ok in H as (attrs & db1 & Hattrs & H).
  apply bind_inv_ok in H as (vs & db1' & Hvs & Hmany).
  destruct (city_attribute_values id_city attrs info) as [vs'|] eqn:Evs; [|discriminate].
  injection Hvs as -> <-.
  destruct (upsert_tab_and_attributes_inv _ _ _ _ _ Hattrs) as (tt0 & ta & Htt0 & Hta).
  rewrite (upsert_tab_and_attributes_eq _ _ _ _ _ Htt0 Hta) in Hattrs.
  set (tt1 := insert_ignore_stmt "tabs" (name_row X) tt0) in *.
  set (ta1 := insert_all "attributes" ta (attr_rows (tab_id X tt1) info.*1)) in *.
  injection Hattrs as <- <-.
  destruct (selected_attributes_has_key a (tab_id X tt1) info.*1 ta
              (dict_get_key _ _ _ Ha)) as [ida Hida].
  fold ta1 in Hida.
  assert (Hnd : NoDup (selected_attributes (tab_id X tt1) ta1).*1).
  { apply selected_attributes_nodup, insert_all_ids_ok. by apply (Hok "attributes"). }
  pose proof (city_attribute_values_elem _ _ _ _ _ _ _ _ _ Evs Hida Ha) as Hin.
  exists ida.
  apply executemany_inv in Hmany as [[Hnil _]|(tm & Htm & ->)].
  { rewrite Hnil in Hin. by apply elem_of_nil in Hin. }
  rewrite !lookup_insert_ne in Htm by done.
  change (foldl _ tm vs) with (upsert_all attributes_key attributes_upd tm vs).
  set (tm' := upsert_all attributes_key attributes_upd tm vs).
  assert (Hst : stored attributes_key attributes_upd
                  (attribute_row id_city ida i0 i1 (url_of more)) tm')
    by (by apply (attribute_rows_stored id_city
                    (selected_attributes (tab_id X tt1) ta1) info)).
  assert (Hu : key_unique attributes_key tm').
  { apply upsert_all_key_unique;
      [apply attributes_key_not_id | apply attributes_upd_not_key |].
    by apply (Hok "city_attributes"). }
  destruct (stored_unique _ _ _ _ Hu Hst) as (r & Hr & Hset).
  rewrite (filter_pointwise _ _ _ (attribute_row_conflicts id_city ida i0 i1 (url_of more)))
    in Hr.
  exists r. split; [|split; [|split; [|split]]].
  - unfold selected_attributes in Hida.
    apply list_elem_of_In, in_map_iff in Hida as (ar & [= Hid Hname] & Har).
    apply filter_In in Har as [Har _]. exists ar. split; [|done].
    unfold rows_of. rewrite lookup_insert_ne, lookup_insert_eq by done.
    by apply list_elem_of_In.
  - unfold rows_of. by rewrite lookup_insert_eq.
  - apply (stored_value attributes_upd _ r "description" i0
             (attribute_row_nodup id_city ida i0 i1 (url_of more)) Hset);
      [do 2 right; left | left | done].
  - apply (stored_value attributes_upd _ r "attribute_value" i1
             (attribute_row_nodup id_city ida i0 i1 (url_of more)) Hset);
      [do 3 right; left | right; left | done].
  - apply (stored_value attributes_upd _ r "url" (url_of more)
             (attribute_row_nodup id_city ida i0 i1 (url_of more)) Hset);
      [do 4 right; left | do 2 right; left | done].
Qed.

Lemma upsert_key_value_tab_info_again id_city X info db db' :
  (forall ta, db !! "attributes" = Some ta -> ids_ok ta) ->
  _upsert_key_value_tab_info id_city X info db = (Ok tt, db') ->
  _upsert_key_value_tab_info id_city X info db' = (Ok tt, db').
Proof.
  intros Hok H. unfold _upsert_key_value_tab_info in *.
  apply bind_inv_ok in H as (attrs & db1 & Hattrs & H).
  apply bind_inv_ok in H as (vs & db1' & Hvs & Hmany).
  destruct (city_attribute_values id_city attrs info) as [vs'|] eqn:Evs; [|discriminate].
  injection Hvs as -> <-.
  pose proof (upsert_tab_and_attributes_again X info db attrs db1 Hattrs) as Hagain.
  assert (Hnd : NoDup attrs.*1).
  { destruct (upsert_tab_and_attributes_inv _ _ _ _ _ Hattrs) as (tt0 & ta & Htt0 & Hta).
    rewrite (upsert_tab_and_attributes_eq _ _ _ _ _ Htt0 Hta) in Hattrs.
    injection Hattrs as <- _. apply selected_attributes_nodup, insert_all_ids_ok. auto. }
  apply executemany_inv in Hmany as [[Hnil ->]|(tm & Htm & ->)].
  - rewrite (bind_ok _ _ _ _ _ Hagain). rewrite Evs. simpl.
    unfold bind, ret. by rewrite Hnil.
  - set (M := foldl (fun t cvs => insert_on_duplicate (unique_key "city_attributes")
                                    ["description"; "attribute_value"; "url"] cvs t) tm vs).
    assert (Hagain' : _upsert_tab_and_attributes X info (<["city_attributes" := M]> db1)
                      = (Ok attrs, <["city_attributes" := M]> db1)).
    { destruct (upsert_tab_and_attributes_inv _ _ _ _ _ Hagain) as (tt1 & ta1 & Htt1 & Hta1).
      rewrite (upsert_tab_and_attributes_eq _ _ _ _ _ Htt1 Hta1) in Hagain.
      injection Hagain as Hsel Hdb.
      rewrite (upsert_tab_and_attributes_eq X info _ tt1 ta1)
        by (by rewrite lookup_insert_ne by done).
      rewrite Hsel. f_equal.
      rewrite (insert_insert_ne _ "tabs" "city_attributes") by done.
      rewrite (insert_insert_ne _ "attributes" "city_attributes") by done.
      by rewrite Hdb. }
    rewrite (bind_ok _ _ _ _ _ Hagain'). rewrite Evs. simpl.
    unfold bind at 1. unfold ret at 1.
    rewrite (executemany_some _ _ _ _ _ (lookup_insert_eq _ _ _)).
    fold M.
    change (foldl _ ?t vs) with (upsert_all attributes_key attributes_upd t vs).
    rewrite (upsert_all_noop attributes_key attributes_upd).
    + by rewrite insert_insert_eq.
    + intros cvs Hc. by apply (attribute_rows_stored id_city attrs info).
Qed.

(** X21: with unique primary keys in [attributes], calling
    [_upsert_key_value_tab_info] again with the same arguments changes
    nothing: no tab, attribute or value is duplicated or rewritten. *)
Theorem upsert_key_value_tab_info_twice id_city X info db db' :
  plain_name X = true ->
  (forall ta, db !! "attributes" = Some ta -> ids_ok ta) ->
  _upsert_key_value_tab_info id_city X info db = (Ok tt, db') ->
  _upsert_key_value_tab_info id_city X info db' = (Ok tt, db').
Proof. intros _. apply upsert_key_value_tab_info_again. Qed.

Lemma city_attribute_is_stored_witness :
  exists id_attribute r,
    (exists ar, ar ∈ rows_of "attributes"
                       (_upsert_key_value_tab_info 1 "Scores"
                          [("Fun", [VStr "Great nightlife"; VInt 8])] empty_store).2
                /\ row_id ar = id_attribute /\ row_get "name" ar = VStr "Fun")
    /\ List.filter (attribute_key 1 id_attribute)
         (rows_of "city_attributes"
            (_upsert_key_value_tab_info 1 "Scores"
               [("Fun", [VStr "Great nightlife"; VInt 8])] empty_store).2) = [r]
    /\ row_get "description" r = VStr "Great nightlife"
    /\ row_get "attribute_value" r = VInt 8
    /\ row_get "url" r = url_of [].
Proof.
  apply (city_attribute_is_stored 1 "Scores" [("Fun", [VStr "Great nightlife"; VInt 8])]
           empty_store _ "Fun").
  - reflexivity.
  - exact empty_store_ok.
  - apply run_ok. vm_compute; reflexivity.
  - reflexivity.
Defined.

Lemma upsert_key_value_tab_info_twice_witness :
  _upsert_key_value_tab_info 1 "Scores" [("Fun", [VStr "Great nightlife"; VInt 8])]
    (_upsert_key_value_tab_info 1 "Scores" [("Fun", [VStr "Great nightlife"; VInt 8])]
       empty_store).2
  = (Ok tt,
     (_upsert_key_value_tab_info 1 "Scores" [("Fun", [VStr "Great nightlife"; VInt 8])]
        empty_store).2).
Proof.
  apply (upsert_key_value_tab_info_twice 1 "Scores"
           [("Fun", [VStr "Great nightlife"; VInt 8])] empty_store).
  - reflexivity.
  - intros ta Hta. exact (proj1 (empty_store_ok "attributes" ta Hta)).
  - apply run_ok. vm_compute; reflexivity.
Defined.

(** ** More on related cities *)

Lemma types_lookup i key :
  types !! i = Some key ->
  (Z.of_nat i, key) ∈ enumerate_from 0 types
  /\ forall n d, n ∈ related key d -> n ∈ related_cities d.
Proof.
  intros H. destruct i as [|[|[|i]]]; simpl in H; try discriminate;
    injection H as <-; (split; [by apply (bool_decide_unpack _)|]);
    intros n d Hn; apply elem_of_related_cities.
  - rewrite related_Near in Hn. auto.
  - rewrite related_Next in Hn. auto.
  - rewrite related_Similar in Hn. auto.
Qed.

(** The edge of a fetched city under the [i]-th key is among the rows the
    method inserts. *)
Lemma edge_in_relationship_rows id_city fetched d j n i key :
  (j, VStr n) ∈ fetched ->
  types !! i = Some key ->
  n ∈ related key d ->
  edge_row id_city j (Z.of_nat i) ∈ relationship_rows id_city fetched d.
Proof.
  intros Hf Hi Hn. unfold relationship_rows.
  apply list_elem_of_In, in_flat_map. exists (j, VStr n).
  split; [by apply list_elem_of_In|].
  apply in_flat_map. exists (Z.of_nat i, key).
  split; [apply list_elem_of_In; by apply types_lookup|].
  simpl. rewrite bool_decide_true by done. by left.
Qed.

Lemma enumerate_types it :
  In it (enumerate_from 0 types) -> exists i, it.1 = Z.of_nat i /\ types !! i = Some it.2.
Proof.
  simpl. intros [<-|[<-|[<-|[]]]]; [by exists 0%nat | by exists 1%nat | by exists 2%nat].
Qed.

(** And every row it inserts is such an edge. *)
Lemma relationship_rows_inv id_city fetched d cvs :
  cvs ∈ relationship_rows id_city fetched d ->
  exists j n i key,
    (j, VStr n) ∈ fetched /\ types !! i = Some key /\ n ∈ related key d
    /\ cvs = edge_row id_city j (Z.of_nat i).
Proof.
  unfold relationship_rows.
  intros ([j name] & Hf & H)%list_elem_of_In%in_flat_map.
  apply in_flat_map in H as (it & Hit & H).
  destruct (enumerate_types it Hit) as (i & Hi & Hkey). simpl in H.
  destruct name as [|z|n]; simpl in H; try done.
  case_bool_decide as Hn; [|done]. destruct H as [<-|[]].
  exists j, n, i, it.2. rewrite Hi. split; [by apply list_elem_of_In | done].
Qed.

Lemma relationship_rows_self_conflict id_city fetched d cvs :
  cvs ∈ relationship_rows id_city fetched d ->
  self_conflict (unique_key "cities_relationships") cvs.
Proof.
  intros (j & n & i & key & _ & _ & _ & ->)%relationship_rows_inv.
  apply edge_row_self_conflict.
Qed.

Lemma name_rows_self_conflict names cvs :
  cvs ∈ name_rows names -> self_conflict (unique_key "cities") cvs.
Proof.
  unfold name_rows. intros (n & <- & _)%list_elem_of_In%in_map_iff.
  apply name_row_self_conflict.
Qed.

(** What a returning [_insert_relationships] did, in closed form. *)
Lemma insert_relationships_ok id_city d db db' :
  _insert_relationships id_city d db = (Ok tt, db') ->
  exists tc,
    db !! "cities" = Some tc
    /\ parse_in_list (join ", " (replicate (length (related_cities d)) "%s")) <> None
    /\ let tc1 := insert_all "cities" tc (name_rows (related_cities d)) in
       let fetched := map (fun r => (row_id r, row_get "name" r))
                        (List.filter (name_in (related_cities d)) (t_rows tc1)) in
       (relationship_rows id_city fetched d = [] /\ db' = <["cities" := tc1]> db)
       \/ exists tr,
            db !! "cities_relationships" = Some tr
            /\ db' = <["cities_relationships" :=
                         insert_all "cities_relationships" tr
                           (relationship_rows id_city fetched d)]>
                       (<["cities" := tc1]> db).
Proof.
  unfold _insert_relationships.
  intros ([] & dbA & H1 & H)%bind_inv_ok.
  apply bind_inv_ok in H as (fetched & dbB & H2 & H3).
  unfold execute_select_cities_in in H2.
  destruct (parse_in_list _) eqn:Hparse; [|discriminate].
  apply read_table_inv in H2 as (tc' & Htc' & -> & ->).
  apply executemany_inv in H1 as [[Hnil ->]|(tc & Htc & ->)].
  { apply (f_equal length) in Hnil. rewrite length_map in Hnil. simpl in Hnil.
    rewrite Hnil in Hparse. by rewrite parse_in_list_empty in Hparse. }
  rewrite lookup_insert_eq in Htc'. injection Htc' as <-.
  exists tc. split; [done|]. split; [congruence|]. cbv zeta.
  apply executemany_inv in H3 as [[Hnil ->]|(tr & Htr & ->)]; [by left|].
  right. exists tr. rewrite lookup_insert_ne in Htr by done. done.
Qed.

Lemma insert_relationships_again id_city d db db' :
  _insert_relationships id_city d db = (Ok tt, db') ->
  _insert_relationships id_city d db' = (Ok tt, db').
Proof.
  intros H. apply insert_relationships_ok in H as (tc & Htc & Hparse & H). cbv zeta in H.
  set (names := name_rows (related_cities d)) in *.
  set (tc1 := insert_all "cities" tc names) in *.
  set (fetched := map (fun r => (row_id r, row_get "name" r))
                    (List.filter (name_in (related_cities d)) (t_rows tc1))) in *.
  assert (Htwice : foldl (fun t cvs => insert_ignore_stmt "cities" cvs t) tc1 names = tc1).
  { apply (insert_all_twice "cities" names tc). apply name_rows_self_conflict. }
  assert (Hstep : forall db1 : database,
             db1 !! "cities" = Some tc1 ->
             _insert_relationships id_city d db1
             = executemany "cities_relationships" (insert_ignore_stmt "cities_relationships")
                 (relationship_rows id_city fetched d) db1).
  { intros db1 Hdb1. unfold _insert_relationships.
    change (map (fun n : string => [("name", VStr n)]) (related_cities d)) with names.
    rewrite (bind_ok _ _ _ _ _
               (executemany_some "cities" (insert_ignore_stmt "cities") names db1 tc1 Hdb1)).
    rewrite Htwice, (insert_id _ _ _ Hdb1).
    unfold execute_select_cities_in.
    destruct (parse_in_list _); [|done].
    erewrite bind_ok; [|apply (read_table_some _ _ _ _ Hdb1)]. done. }
  destruct H as [[Hnil ->]|(tr & Htr & ->)].
  - rewrite Hstep by apply lookup_insert_eq. by rewrite Hnil.
  - rewrite Hstep by (by rewrite lookup_insert_ne, lookup_insert_eq).
    rewrite (executemany_some _ _ _ _ _ (lookup_insert_eq _ _ _)).
    pose proof (insert_all_twice "cities_relationships"
                  (relationship_rows id_city fetched d) tr
                  (relationship_rows_self_conflict id_city fetched d)) as Htw.
    unfold insert_all in Htw at 1. rewrite Htw. by rewrite insert_insert_eq.
Qed.

(** X22: calling [_insert_relationships] again with the same city and
    details changes nothing: no related city and no edge is inserted a
    second time. *)
Theorem insert_relationships_twice id_city d db db' :
  _insert_relationships id_city d db = (Ok tt, db') ->
  _insert_relationships id_city d db' = (Ok tt, db').
Proof. apply insert_relationships_again. Qed.

Lemma insert_relationships_twice_witness :
  _insert_relationships 1 lisbon (_insert_relationships 1 lisbon empty_store).2
  = (Ok tt, (_insert_relationships 1 lisbon empty_store).2).
Proof.
  apply (insert_relationships_twice 1 lisbon empty_store).
  apply run_ok. vm_compute; reflexivity.
Defined.

(** X23: a name listed under the [i]-th of the keys Near, Next, Similar
    that has its one row in [cities] keeps that row as it is, and once
    [_insert_relationships] has returned [cities_relationships] has an
    edge of type [i] from the city to that row. *)
Theorem existing_related_city_is_linked id_city d db db' n i key r :
  types !! i = Some key ->
  n ∈ related key d ->
  List.filter (named n) (rows_of "cities" db) = [r] ->
  _insert_relationships id_city d db = (Ok tt, db') ->
  List.filter (named n) (rows_of "cities" db') = [r]
  /\ exists e, e ∈ rows_of "cities_relationships" db'
               /\ row_get "id_city" e = VInt id_city
               /\ row_get "id_related_city" e = VInt (row_id r)
               /\ row_get "type" e = VInt (Z.of_nat i).
Proof.
  intros Hi Hn Hr H.
  destruct (types_lookup i key Hi) as [_ Hrel]. specialize (Hrel n d Hn).
  apply insert_relationships_ok in H as (tc & Htc & _ & H). cbv zeta in H.
  unfold rows_of in Hr. rewrite Htc in Hr.
  set (tc1 := insert_all "cities" tc (name_rows (related_cities d))) in *.
  set (fetched := map (fun r => (row_id r, row_get "name" r))
                    (List.filter (name_in (related_cities d)) (t_rows tc1))) in *.
  pose proof (insert_names_keep n (related_cities d) tc r Hr) as Hkeep. fold tc1 in Hkeep.
  assert (Hrin : In r (List.filter (named n) (t_rows tc1))) by (rewrite Hkeep; by left).
  apply filter_In in Hrin as [Hrin Hnamed]. apply bool_decide_eq_true in Hnamed.
  assert (Hf : (row_id r, VStr n) ∈ fetched).
  { unfold fetched. apply list_elem_of_In, in_map_iff. exists r.
    split; [by rewrite Hnamed|]. apply filter_In. split; [done|].
    unfold name_in. apply existsb_exists. exists n.
    split; [by apply list_elem_of_In|].
    rewrite Hnamed, sql_eq_str. by apply bool_decide_eq_true. }
  pose proof (edge_in_relationship_rows id_city fetched d (row_id r) n i key Hf Hi Hn)
    as Hedge.
  destruct H as [[Hnil _]|(tr & Htr & ->)].
  { rewrite Hnil in Hedge. by apply elem_of_nil in Hedge. }
  unfold rows_of. rewrite lookup_insert_eq, lookup_insert_ne, lookup_insert_eq by done.
  split; [done|].
  pose proof (insert_all_conflict_after "cities_relationships"
                (relationship_rows id_city fetched d) tr _ Hedge
                (edge_row_self_conflict id_city (row_id r) (Z.of_nat i))) as Hex.
  apply existsb_exists in Hex as (e & He & Hconf).
  apply edge_row_conflict in Hconf. exists e. split; [by apply list_elem_of_In | done].
Qed.

Lemma existing_related_city_is_linked_witness :
  exists r,
    List.filter (named "Lisbon") (rows_of "cities" (insert_city_info lisbon empty_store).2)
    = [r]
    /\ List.filter (named "Lisbon")
         (rows_of "cities"
            (_insert_relationships 2 porto (insert_city_info lisbon empty_store).2).2) = [r]
    /\ exists e, e ∈ rows_of "cities_relationships"
                       (_insert_relationships 2 porto
                          (insert_city_info lisbon empty_store).2).2
                 /\ row_get "id_city" e = VInt 2
                 /\ row_get "id_related_city" e = VInt (row_id r)
                 /\ row_get "type" e = VInt (Z.of_nat 0).
Proof.
  eexists. split; [vm_compute; reflexivity|].
  apply (existing_related_city_is_linked 2 porto (insert_city_info lisbon empty_store).2
           _ "Lisbon" 0%nat "Near").
  - reflexivity.
  - vm_compute. left.
  - vm_compute; reflexivity.
  - apply run_ok. vm_compute; reflexivity.
Defined.

Lemma insert_all_extra tbl args t :
  exists extra,
    t_rows (insert_all tbl t args) = t_rows t ++ extra
    /\ Forall (fun r => exists cvs i, cvs ∈ args /\ r = fresh_row cvs i) extra.
Proof.
  revert t. induction args as [|cvs args IH]; intros t; simpl.
  - exists []. by rewrite app_nil_r.
  - destruct (IH (insert_ignore_stmt tbl cvs t)) as (extra & He & Hf).
    unfold insert_all in *. rewrite He. unfold insert_ignore_stmt at 1.
    rewrite insert_ignore_rows, <- app_assoc. eexists. split; [reflexivity|].
    apply Forall_app. split.
    + destruct (existsb _ _); constructor; [|constructor].
      exists cvs, (t_next t). split; [left | done].
    + eapply Forall_impl; [exact Hf|]. simpl.
      intros r (cvs' & i & Hin & ->). exists cvs', i. split; [by right | done].
Qed.

(** X24: the edges that a returning [_insert_relationships] adds all
    start at the given city, and each one has as type the index of a key
    under which the name of the city it ends at is listed. *)
Theorem only_edges_of_the_city id_city d db db' :
  _insert_relationships id_city d db = (Ok tt, db') ->
  exists extra,
    rows_of "cities_relationships" db' = rows_of "cities_relationships" db ++ extra
    /\ forall e, e ∈ extra ->
         row_get "id_city" e = VInt id_city
         /\ exists c n i key,
              c ∈ rows_of "cities" db'
              /\ row_get "id_related_city" e = VInt (row_id c)
              /\ row_get "name" c = VStr n
              /\ types !! i = Some key
              /\ n ∈ related key d
              /\ row_get "type" e = VInt (Z.of_nat i).
Proof.
  intros H. apply insert_relationships_ok in H as (tc & Htc & _ & H). cbv zeta in H.
  set (tc1 := insert_all "cities" tc (name_rows (related_cities d))) in *.
  set (fetched := map (fun r => (row_id r, row_get "name" r))
                    (List.filter (name_in (related_cities d)) (t_rows tc1))) in *.
  destruct H as [[Hnil ->]|(tr & Htr & ->)].
  - exists []. unfold rows_of. rewrite lookup_insert_ne by done.
    split; [by rewrite app_nil_r|]. intros e He. by apply elem_of_nil in He.
  - destruct (insert_all_extra "cities_relationships"
                (relationship_rows id_city fetched d) tr) as (extra & He & Hf).
    exists extra. unfold rows_of at 1 2.
    rewrite lookup_insert_eq, Htr. split; [done|].
    intros e Hin. rewrite Forall_forall in Hf.
    destruct (Hf e Hin) as (cvs & k & Hcvs & ->).
    apply relationship_rows_inv in Hcvs as (j & n & i & key & Hj & Hi & Hn & ->).
    split; [done|].
    unfold fetched in Hj. apply list_elem_of_In, in_map_iff in Hj as (c & [= <- Hname] & Hc).
    apply filter_In in Hc as [Hc _].
    exists c, n, i, key. unfold rows_of.
    rewrite lookup_insert_ne, lookup_insert_eq by done.
    split; [by apply list_elem_of_In | done].
Qed.

Lemma only_edges_of_the_city_witness :
  exists extra,
    rows_of "cities_relationships" (_insert_relationships 1 lisbon empty_store).2
    = rows_of "cities_relationships" empty_store ++ extra
    /\ forall e, e ∈ extra ->
         row_get "id_city" e = VInt 1
         /\ exists c n i key,
              c ∈ rows_of "cities" (_insert_relationships 1 lisbon empty_store).2
              /\ row_get "id_related_city" e = VInt (row_id c)
              /\ row_get "name" c = VStr n
              /\ types !! i = Some key
              /\ n ∈ related key lisbon
              /\ row_get "type" e = VInt (Z.of_nat i).
Proof.
  apply (only_edges_of_the_city 1 lisbon empty_store).
  apply run_ok. vm_compute; reflexivity.
Defined.

(** ** Persisting the same record again *)

Lemma executemany_noop tbl stmt args (db : database) :
  args = [] \/ (exists t, db !! tbl = Some t /\ foldl (fun t cvs => stmt cvs t) t args = t) ->
  executemany tbl stmt args db = (Ok tt, db).
Proof.
  intros [->|(t & Ht & Hf)]; [done|].
  by rewrite (executemany_some _ _ _ _ _ Ht), Hf, insert_id.
Qed.

(** The upsert of a keyed row on a later state of its table, to which
    rows were added: the row is found as the first call left it. *)
Lemma upsert_and_get_id_again_later tbl values_dict di k v db0 i dbA (dbF : database) :
  List.filter (fun kv => key_selected di kv.1) values_dict = [(k, v)] ->
  is_ident k = true ->
  unique_key tbl = [k] ->
  NoDup values_dict.*1 ->
  "id" ∉ values_dict.*1 ->
  v <> VNone ->
  (forall t, db0 !! tbl = Some t -> ids_ok t /\ key_unique (unique_key tbl) t) ->
  _upsert_and_get_id tbl values_dict di db0 = (Ok i, dbA) ->
  (forall tA, dbA !! tbl = Some tA -> exists tF, dbF !! tbl = Some tF /\ grows tA tF) ->
  _upsert_and_get_id tbl values_dict di dbF = (Ok i, dbF).
Proof.
  intros Hkey Hident Huk Hnd Hid Hv Hok H Hg.
  pose proof (selected_filter_elem _ _ _ _ Hkey) as Hin.
  apply (upsert_and_get_id_inv _ _ _ k v) in H as (t & Ht & -> & ->); [|done..].
  destruct (Hok t Ht) as [Hids Hu]. rewrite Huk in *.
  destruct (Hg _ (lookup_insert_eq _ _ _)) as (tF & HF & Hg').
  clear Hg. apply grows_table in Hg' as [extra Hg].
  rewrite (upsert_and_get_id_table tbl values_dict di k v tF dbF Hkey Hident HF), Huk.
  rewrite Hg at 1 2.
  rewrite (upsert_table_settled k v values_dict Hnd Hin Hid Hv t extra (t_next tF) Hids Hu).
  simpl. by rewrite <- Hg, insert_id.
Qed.

(** [_upsert_many] on a store whose table is as the first call left it. *)
Lemma upsert_many_again_later tbl id_city columns values db0 dbA (dbF : database) :
  unique_key tbl <> [] -> "id" ∉ unique_key tbl ->
  (forall c, c ∈ unique_key tbl -> c ∈ "id_city" :: columns) ->
  NoDup ("id_city" :: columns) ->
  (forall it, it ∈ values ->
     length (as_tuple it) = length columns /\ VNone ∉ as_tuple it) ->
  _upsert_many tbl id_city columns values db0 = (Ok tt, dbA) ->
  dbF !! tbl = dbA !! tbl ->
  _upsert_many tbl id_city columns values dbF = (Ok tt, dbF).
Proof.
  intros Hk Hid Hsub Hnd Hvals H HF. unfold _upsert_many in *.
  set (args := map (fun it => zip ("id_city" :: columns) (VInt id_city :: as_tuple it)) values)
    in *.
  apply executemany_noop.
  apply executemany_inv in H as [[Hnil _]|(t & Ht & ->)]; [by left|]. right.
  rewrite lookup_insert_eq in HF. eexists. split; [exact HF|].
  apply (insert_all_twice tbl args t).
  intros cvs Hc. unfold args in Hc.
  apply list_elem_of_In, in_map_iff in Hc as (it & <- & Hit).
  destruct (Hvals it) as [Hlen Hnone]; [by apply list_elem_of_In|].
  apply zip_columns_self_conflict; [done..| simpl; lia |].
  intros [?|?]%elem_of_cons; done.
Qed.

Lemma upsert_tab_and_attributes_after {A} X (info : list (string * A)) (db : database) tt0 ta0 :
  db !! "tabs" = Some tt0 ->
  db !! "attributes" = Some ta0 ->
  _upsert_tab_and_attributes X info db
  = (Ok (selected_attributes (tab_id X (tabs_after X tt0))
           (attributes_after X info.*1 tt0 ta0)),
     <["attributes" := attributes_after X info.*1 tt0 ta0]>
       (<["tabs" := tabs_after X tt0]> db)).
Proof. apply upsert_tab_and_attributes_eq. Qed.

(** On tables in which the tab and its attributes are, the method
    changes nothing. *)
Lemma upsert_tab_and_attributes_noop {A} X (info : list (string * A)) (dbF : database)
    ttF taF :
  dbF !! "tabs" = Some ttF ->
  dbF !! "attributes" = Some taF ->
  existsb (named X) (t_rows ttF) = true ->
  insert_all "attributes" taF (attr_rows (tab_id X ttF) info.*1) = taF ->
  _upsert_tab_and_attributes X info dbF
  = (Ok (selected_attributes (tab_id X ttF) taF), dbF).
Proof.
  intros Ht Ha Hx Hins.
  rewrite (upsert_tab_and_attributes_after X info dbF ttF taF Ht Ha).
  unfold attributes_after, tabs_after. rewrite (tab_insert_noop X ttF Hx), Hins.
  by rewrite (insert_id _ _ _ Ht), (insert_id _ _ _ Ha).
Qed.

Lemma upsert_key_value_tab_info_inv id_city X info (db0 dbA : database) :
  _upsert_key_value_tab_info id_city X info db0 = (Ok tt, dbA) ->
  exists tt0 ta0 vs,
    db0 !! "tabs" = Some tt0 /\ db0 !! "attributes" = Some ta0
    /\ dbA !! "tabs" = Some (tabs_after X tt0)
    /\ dbA !! "attributes" = Some (attributes_after X info.*1 tt0 ta0)
    /\ city_attribute_values id_city
         (selected_attributes (tab_id X (tabs_after X tt0))
            (attributes_after X info.*1 tt0 ta0)) info = Ok vs
    /\ ((vs = [] /\ dbA !! "city_attributes" = db0 !! "city_attributes")
        \/ exists tm0, db0 !! "city_attributes" = Some tm0
                       /\ dbA !! "city_attributes"
                          = Some (upsert_all attributes_key attributes_upd tm0 vs)).
Proof.
  intros H. unfold _upsert_key_value_tab_info in H.
  apply bind_inv_ok in H as (attrs & db1 & Hattrs & H).
  apply bind_inv_ok in H as (vs & db1' & Hvs & Hmany).
  destruct (city_attribute_values id_city attrs info) as [vs'|] eqn:Evs; [|discriminate].
  injection Hvs as -> <-.
  destruct (upsert_tab_and_attributes_inv _ _ _ _ _ Hattrs) as (tt0 & ta0 & Htt0 & Hta0).
  rewrite (upsert_tab_and_attributes_after _ _ _ _ _ Htt0 Hta0) in Hattrs.
  injection Hattrs as <- <-.
  exists tt0, ta0, vs. split; [done|]. split; [done|].
  apply executemany_inv in Hmany as [[Hnil ->]|(tm & Htm & ->)].
  - rewrite lookup_insert_ne, lookup_insert_eq by done.
    rewrite lookup_insert_eq. split; [done|]. split; [done|]. split; [done|].
    left. split; [done|]. by rewrite !lookup_insert_ne by done.
  - rewrite !lookup_insert_ne in Htm by done.
    rewrite (lookup_insert_ne _ "city_attributes" "tabs") by done.
    rewrite (lookup_insert_ne _ "attributes" "tabs"), lookup_insert_eq by done.
    rewrite (lookup_insert_ne _ "city_attributes" "attributes"), lookup_insert_eq by done.
    split; [done|]. split; [done|]. split; [done|].
    right. exists tm. split; [done|]. by rewrite lookup_insert_eq.
Qed.

Lemma upsert_key_value_tab_info_noop id_city X info (dbF : database) ttF taF vs :
  dbF !! "tabs" = Some ttF ->
  dbF !! "attributes" = Some taF ->
  existsb (named X) (t_rows ttF) = true ->
  insert_all "attributes" taF (attr_rows (tab_id X ttF) info.*1) = taF ->
  city_attribute_values id_city (selected_attributes (tab_id X ttF) taF) info = Ok vs ->
  (vs = []
   \/ exists tmF, dbF !! "city_attributes" = Some tmF
                  /\ forall cvs, cvs ∈ vs -> stored attributes_key attributes_upd cvs tmF) ->
  _upsert_key_value_tab_info id_city X info dbF = (Ok tt, dbF).
Proof.
  intros Ht Ha Hx Hins Hvs Hst. unfold _upsert_key_value_tab_info.
  rewrite (bind_ok _ _ _ _ _ (upsert_tab_and_attributes_noop X info dbF ttF taF Ht Ha Hx Hins)).
  rewrite Hvs. simpl. unfold bind at 1. unfold ret at 1.
  apply executemany_noop. destruct Hst as [->|(tmF & Hm & Hst)]; [by left|].
  right. exists tmF. split; [done|].
  by apply (upsert_all_noop attributes_key attributes_upd).
Qed.

Lemma upsert_weather_inv id_city d (db0 dbA : database) :
  _upsert_weather id_city d db0 = (Ok tt, dbA) ->
  exists tt0 ta0,
    db0 !! "tabs" = Some tt0 /\ db0 !! "attributes" = Some ta0
    /\ dbA !! "tabs" = Some (tabs_after "Weather" tt0)
    /\ dbA !! "attributes"
       = Some (attributes_after "Weather" (default [] (d_Weather d)).*1 tt0 ta0)
    /\ let vs := weather_values id_city
                   (selected_attributes (tab_id "Weather" (tabs_after "Weather" tt0))
                      (attributes_after "Weather" (default [] (d_Weather d)).*1 tt0 ta0))
                   (default [] (d_Weather d)) in
       (vs = [] /\ dbA !! "monthly_weathers_attributes" = db0 !! "monthly_weathers_attributes")
       \/ exists tm0, db0 !! "monthly_weathers_attributes" = Some tm0
                      /\ dbA !! "monthly_weathers_attributes"
                         = Some (upsert_all monthly_key monthly_upd tm0 vs).
Proof.
  intros H. unfold _upsert_weather in H.
  apply bind_inv_ok in H as (attrs & db1 & Hattrs & Hmany).
  destruct (upsert_tab_and_attributes_inv _ _ _ _ _ Hattrs) as (tt0 & ta0 & Htt0 & Hta0).
  rewrite (upsert_tab_and_attributes_after _ _ _ _ _ Htt0 Hta0) in Hattrs.
  injection Hattrs as <- <-.
  exists tt0, ta0. split; [done|]. split; [done|]. cbv zeta.
  apply executemany_inv in Hmany as [[Hnil ->]|(tm & Htm & ->)].
  - rewrite lookup_insert_ne, lookup_insert_eq by done.
    rewrite lookup_insert_eq. split; [done|]. split; [done|].
    left. split; [done|]. by rewrite !lookup_insert_ne by done.
  - rewrite !lookup_insert_ne in Htm by done.
    rewrite (lookup_insert_ne _ "monthly_weathers_attributes" "tabs") by done.
    rewrite (lookup_insert_ne _ "attributes" "tabs"), lookup_insert_eq by done.
    rewrite (lookup_insert_ne _ "monthly_weathers_attributes" "attributes"),
      lookup_insert_eq by done.
    split; [done|]. split; [done|].
    right. exists tm. split; [done|]. by rewrite lookup_insert_eq.
Qed.

Lemma upsert_weather_noop id_city d (dbF : database) ttF taF :
  dbF !! "tabs" = Some ttF ->
  dbF !! "attributes" = Some taF ->
  existsb (named "Weather") (t_rows ttF) = true ->
  insert_all "attributes" taF
    (attr_rows (tab_id "Weather" ttF) (default [] (d_Weather d)).*1) = taF ->
  (weather_values id_city (selected_attributes (tab_id "Weather" ttF) taF)
     (default [] (d_Weather d)) = []
   \/ exists tmF,
        dbF !! "monthly_weathers_attributes" = Some tmF
        /\ forall cvs,
             cvs ∈ weather_values id_city (selected_attributes (tab_id "Weather" ttF) taF)
                     (default [] (d_Weather d)) ->
             stored monthly_key monthly_upd cvs tmF) ->
  _upsert_weather id_city d dbF = (Ok tt, dbF).
Proof.
  intros Ht Ha Hx Hins Hst. unfold _upsert_weather.
  rewrite (bind_ok _ _ _ _ _
             (upsert_tab_and_attributes_noop "Weather" (default [] (d_Weather d))
                dbF ttF taF Ht Ha Hx Hins)).
  apply executemany_noop. destruct Hst as [->|(tmF & Hm & Hst)]; [by left|].
  right. exists tmF. split; [done|].
  by apply (upsert_all_noop monthly_key monthly_upd).
Qed.

(** *** A tab among later tabs *)

Lemma settled_tab_refl X tt ta : settled_tab X tt ta tt ta.
Proof. split; [apply grows_refl | apply grows_off_refl]. Qed.

Lemma settled_tab_trans X tt ta tt' ta' tt'' ta'' :
  existsb (named X) (t_rows tt) = true ->
  settled_tab X tt ta tt' ta' -> settled_tab X tt' ta' tt'' ta'' ->
  settled_tab X tt ta tt'' ta''.
Proof.
  intros Hx [G1 O1] [G2 O2]. split; [by eapply grows_trans|].
  rewrite (tab_id_grows X tt tt' G1 Hx) in O2. by eapply grows_off_trans.
Qed.

(** Registering another tab leaves the tab [X] as it is. *)
Lemma settled_tab_step X Y keys tt ta :
  ids_ok tt -> X <> Y -> existsb (named X) (t_rows tt) = true ->
  settled_tab X tt ta (tabs_after Y tt) (attributes_after Y keys tt ta).
Proof.
  intros Hids Hne Hx.
  assert (G : grows tt (tabs_after Y tt)) by apply insert_ignore_grows.
  split; [done|]. unfold attributes_after.
  apply insert_attrs_grows_off.
  rewrite <- (tab_id_grows X tt (tabs_after Y tt) G Hx).
  apply tab_ids_distinct; [|done| |].
  - unfold tabs_after, insert_ignore_stmt. by apply insert_ignore_ids_ok.
  - by apply (grows_existsb _ tt).
  - apply tab_named_after_insert.
Qed.

(** What the method needs of the later tables. *)
Lemma settled_tab_facts X keys tt0 ta0 ttF taF :
  settled_tab X (tabs_after X tt0) (attributes_after X keys tt0 ta0) ttF taF ->
  existsb (named X) (t_rows ttF) = true
  /\ tab_id X ttF = tab_id X (tabs_after X tt0)
  /\ insert_all "attributes" taF (attr_rows (tab_id X ttF) keys) = taF
  /\ selected_attributes (tab_id X ttF) taF
     = selected_attributes (tab_id X (tabs_after X tt0)) (attributes_after X keys tt0 ta0).
Proof.
  intros [G O].
  assert (Hx : existsb (named X) (t_rows (tabs_after X tt0)) = true)
    by apply tab_named_after_insert.
  assert (Hid : tab_id X ttF = tab_id X (tabs_after X tt0)) by (by apply tab_id_grows).
  split; [by apply (grows_existsb _ (tabs_after X tt0))|]. split; [done|].
  rewrite Hid. split.
  - apply (attrs_insert_noop_later _ _ ta0). by apply (grows_off_grows (tab_id X (tabs_after X tt0))).
  - by apply selected_attributes_grows_off.
Qed.

Lemma attribute_values_table id_city X info (db0 dbA : database) :
  _upsert_key_value_tab_info id_city X info db0 = (Ok tt, dbA) ->
  exists tt0 ta0 vs,
    db0 !! "tabs" = Some tt0 /\ db0 !! "attributes" = Some ta0
    /\ dbA !! "tabs" = Some (tabs_after X tt0)
    /\ dbA !! "attributes" = Some (attributes_after X info.*1 tt0 ta0)
    /\ city_attribute_values id_city
         (selected_attributes (tab_id X (tabs_after X tt0))
            (attributes_after X info.*1 tt0 ta0)) info = Ok vs
    /\ (forall tm0, db0 !! "city_attributes" = Some tm0 ->
          dbA !! "city_attributes" = Some (upsert_all attributes_key attributes_upd tm0 vs))
    /\ (db0 !! "city_attributes" = None -> vs = [] /\ dbA !! "city_attributes" = None).
Proof.
  intros (tt0 & ta0 & vs & H1 & H2 & H3 & H4 & H5 & H6)%upsert_key_value_tab_info_inv.
  exists tt0, ta0, vs. repeat (split; [done|]).
  destruct H6 as [[-> H6]|(tm & Htm & H6)]; split.
  - intros tm0 Hm. by rewrite H6, Hm.
  - intros Hn. by rewrite H6.
  - intros tm0 Hm. rewrite Htm in Hm. by injection Hm as <-.
  - intros Hn. by rewrite Hn in Htm.
Qed.

(** The values written under two tabs have different keys. *)
Lemma attribute_values_keys_differ id_city id id' ta info info' vs vs' cvs cvs' :
  ids_ok ta -> id <> id' ->
  city_attribute_values id_city (selected_attributes id ta) info = Ok vs ->
  city_attribute_values id_city (selected_attributes id' ta) info' = Ok vs' ->
  cvs ∈ vs -> cvs' ∈ vs' ->
  key_of attributes_key (fresh_row cvs 0) <> key_of attributes_key (fresh_row cvs' 0).
Proof.
  intros Hids Hne Hvs Hvs' Hc Hc'.
  destruct (city_attribute_values_shape _ _ _ _ _ Hvs Hc) as (a & x & y & z & Ha & ->).
  destruct (city_attribute_values_shape _ _ _ _ _ Hvs' Hc') as (a' & x' & y' & z' & Ha' & ->).
  rewrite !attribute_row_key. intros [= ->].
  by apply (selected_attributes_disjoint id id' ta a').
Qed.

Ltac solve_preserves :=
  repeat first
    [ by apply preserves_upsert_and_get_id
    | by apply preserves_upsert_key_value_tab_info
    | by apply preserves_upsert_many
    | by apply preserves_upsert_weather
    | by apply preserves_insert_relationships
    | apply preserves_lift
    | apply preserves_ret
    | apply preserves_bind; [|intros] ].

(** [frame T H]: the step of [H] leaves the table [T] alone. *)
Ltac frame T H :=
  match type of H with
  | ?m ?d = (?r, ?d') =>
      let K := fresh "K" in
      assert (K : d' !! T = d !! T)
        by (let P := fresh "P" in
            assert (P : preserves T m) by solve_preserves; exact (P d r d' H))
  end.

Lemma photos_items (l : list string) it :
  it ∈ map (fun s => Scalar (VStr s)) l ->
  length (as_tuple it) = length ["src"] /\ VNone ∉ as_tuple it.
Proof.
  intros (s & <- & _)%list_elem_of_In%in_map_iff. split; [done|].
  simpl. by intros [=]%list_elem_of_singleton.
Qed.

Lemma pros_cons_items_ok pc l it :
  pros_cons_items pc = Ok l -> it ∈ l ->
  length (as_tuple it) = length ["description"; "type"] /\ VNone ∉ as_tuple it.
Proof.
  unfold pros_cons_items. destruct pc as [[[pros|] [cons_|]]|]; try discriminate.
  intros [= <-] [H|H]%elem_of_app.
  - apply list_elem_of_In, in_map_iff in H as (s & <- & _). split; [done|]. simpl.
    intros [?|[?|?]%elem_of_cons]%elem_of_cons; try done. by apply elem_of_nil in H.
  - apply list_elem_of_In, in_map_iff in H as (s & <- & _). split; [done|]. simpl.
    intros [?|[?|?]%elem_of_cons]%elem_of_cons; try done. by apply elem_of_nil in H.
Qed.

(** C1: on a store that satisfies its schema, persisting a record that
    [insert_city_info] accepted a second time returns as well and leaves
    the store exactly as the first call left it: no table gains a row and
    no column of any row changes. *)
Theorem insert_city_info_twice d db db' :
  store_ok db ->
  insert_city_info d db = (Ok tt, db') ->
  insert_city_info d db' = (Ok tt, db').
Proof.
  intros Hok H. unfold insert_city_info in H.
  apply bind_inv_ok in H as (i1 & d1 & H1 & H).
  apply bind_inv_ok in H as (i2 & d2 & H2 & H).
  apply bind_inv_ok in H as (ic & d3 & H3 & H).
  apply bind_inv_ok in H as ([] & d4 & H4 & H).
  apply bind_inv_ok in H as ([] & d5 & H5 & H).
  apply bind_inv_ok in H as ([] & d6 & H6 & H).
  apply bind_inv_ok in H as ([] & d7 & H7 & H).
  apply bind_inv_ok in H as (pc & d7' & Hpc & H).
  destruct (pros_cons_items (d_ProsAndCons d)) as [pc'|] eqn:Epc; [|discriminate].
  injection Hpc as -> <-.
  apply bind_inv_ok in H as ([] & d8 & H8 & H).
  apply bind_inv_ok in H as ([] & d9 & H9 & H).
  apply bind_inv_ok in H as ([] & d10 & H10 & H11).
  (* the tables of each section, as the last step that writes them left them *)
  assert (F1 : db' !! "continents" = d1 !! "continents").
  { frame "continents" H2. frame "continents" H3. frame "continents" H4.
    frame "continents" H5. frame "continents" H6. frame "continents" H7.
    frame "continents" H8. frame "continents" H9. frame "continents" H10.
    frame "continents" H11. congruence. }
  assert (F2 : db' !! "countries" = d2 !! "countries").
  { frame "countries" H3. frame "countries" H4.
    frame "countries" H5. frame "countries" H6. frame "countries" H7.
    frame "countries" H8. frame "countries" H9. frame "countries" H10.
    frame "countries" H11. congruence. }
  assert (F3 : d10 !! "cities" = d3 !! "cities").
  { frame "cities" H4. frame "cities" H5. frame "cities" H6. frame "cities" H7.
    frame "cities" H8. frame "cities" H9. frame "cities" H10. congruence. }
  assert (F4 : d3 !! "tabs" = db !! "tabs" /\ d3 !! "attributes" = db !! "attributes"
               /\ d3 !! "city_attributes" = db !! "city_attributes").
  { frame "tabs" H1. frame "tabs" H2. frame "tabs" H3.
    frame "attributes" H1. frame "attributes" H2. frame "attributes" H3.
    frame "city_attributes" H1. frame "city_attributes" H2. frame "city_attributes" H3.
    repeat split; congruence. }
  destruct F4 as (F4t & F4a & F4m).
  assert (F5 : d9 !! "tabs" = d6 !! "tabs" /\ d9 !! "attributes" = d6 !! "attributes").
  { frame "tabs" H7. frame "tabs" H8. frame "tabs" H9.
    frame "attributes" H7. frame "attributes" H8. frame "attributes" H9.
    split; congruence. }
  destruct F5 as (F5t & F5a).
  assert (F6 : db' !! "tabs" = d10 !! "tabs" /\ db' !! "attributes" = d10 !! "attributes"
               /\ db' !! "monthly_weathers_attributes" = d10 !! "monthly_weathers_attributes").
  { frame "tabs" H11. frame "attributes" H11. frame "monthly_weathers_attributes" H11.
    done. }
  destruct F6 as (F6t & F6a & F6w).
  assert (F7 : db' !! "city_attributes" = d6 !! "city_attributes").
  { frame "city_attributes" H7. frame "city_attributes" H8. frame "city_attributes" H9.
    frame "city_attributes" H10. frame "city_attributes" H11. congruence. }
  assert (F8 : db' !! "photos" = d7 !! "photos").
  { frame "photos" H8. frame "photos" H9. frame "photos" H10. frame "photos" H11.
    congruence. }
  assert (F9 : db' !! "pros_and_cons" = d8 !! "pros_and_cons").
  { frame "pros_and_cons" H9. frame "pros_and_cons" H10. frame "pros_and_cons" H11.
    congruence. }
  assert (F10 : db' !! "reviews" = d9 !! "reviews").
  { frame "reviews" H10. frame "reviews" H11. congruence. }
  assert (G1 : d1 !! "countries" = db !! "countries") by (frame "countries" H1; done).
  assert (G2 : d2 !! "cities" = db !! "cities").
  { frame "cities" H1. frame "cities" H2. congruence. }
  (* the three rows of the place *)
  assert (R1 : _upsert_and_get_id "continents" [("name", VStr (d_continent d))]
                 (DomStr "name") db' = (Ok i1, db')).
  { apply (upsert_and_get_id_again_later "continents" _ _ "name" (VStr (d_continent d))
             db i1 d1 db');
      [reflexivity | reflexivity | reflexivity | by apply (bool_decide_unpack _)
      | by apply (bool_decide_unpack _) | done | apply (Hok "continents") | exact H1 |].
    intros tA HA. exists tA. split; [congruence | apply grows_refl]. }
  assert (R2 : _upsert_and_get_id "countries"
                 [("name", VStr (d_country d)); ("id_continent", VInt i1)]
                 (DomStr "name") db' = (Ok i2, db')).
  { apply (upsert_and_get_id_again_later "countries" _ _ "name" (VStr (d_country d))
             d1 i2 d2 db');
      [reflexivity | reflexivity | reflexivity | by apply (bool_decide_unpack _)
      | by apply (bool_decide_unpack _) | done
      | rewrite G1; apply (Hok "countries") | exact H2 |].
    intros tA HA. exists tA. split; [congruence | apply grows_refl]. }
  assert (R3 : _upsert_and_get_id "cities"
                 [("name", VStr (d_city d)); ("city_rank", d_rank d);
                  ("id_country", VInt i2)]
                 (DomStr "name") db' = (Ok ic, db')).
  { apply (upsert_and_get_id_again_later "cities" _ _ "name" (VStr (d_city d))
             d2 ic d3 db');
      [reflexivity | reflexivity | reflexivity | by apply (bool_decide_unpack _)
      | by apply (bool_decide_unpack _) | done
      | rewrite G2; apply (Hok "cities") | exact H3 |].
    intros tA HA. rewrite <- F3 in HA.
    pose proof (insert_relationships_grows ic d d10 "cities") as Hg.
    rewrite H11, HA in Hg. simpl in Hg.
    destruct (db' !! "cities") as [tF|]; [|done]. by exists tF. }
  (* photos, pros and cons, reviews *)
  assert (R7 : _upsert_many "photos" ic ["src"]
                 (map (fun s => Scalar (VStr s)) (default [] (d_Photos d))) db'
               = (Ok tt, db')).
  { apply (upsert_many_again_later _ _ _ _ d6 d7);
      [done | by apply (bool_decide_unpack _) | | by apply (bool_decide_unpack _)
      | apply photos_items | exact H7 | exact F8].
    intros c Hc. exact Hc. }
  assert (R8 : _upsert_many "pros_and_cons" ic ["description"; "type"] pc db'
               = (Ok tt, db')).
  { apply (upsert_many_again_later _ _ _ _ d7 d8);
      [done | by apply (bool_decide_unpack _) | | by apply (bool_decide_unpack _)
      | intros it; by apply (pros_cons_items_ok (d_ProsAndCons d) pc) | exact H8 | exact F9].
    intros c Hc. exact Hc. }
  assert (R9 : _upsert_many "reviews" ic ["description"]
                 (map (fun s => Scalar (VStr s)) (default [] (d_Reviews d))) db'
               = (Ok tt, db')).
  { apply (upsert_many_again_later _ _ _ _ d8 d9);
      [done | by apply (bool_decide_unpack _) | | by apply (bool_decide_unpack _)
      | apply photos_items | exact H9 | exact F10].
    intros c Hc. exact Hc. }
  (* the relationships *)
  pose proof (insert_relationships_again ic d d10 db' H11) as R11.
  (* the four tabs *)
  apply attribute_values_table in H4
    as (tS & aS & vsS & HtS & HaS & HtS' & HaS' & HvS & HmS & HnS).
  apply attribute_values_table in H5
    as (tD & aD & vsD & HtD & HaD & HtD' & HaD' & HvD & HmD & HnD).
  apply attribute_values_table in H6
    as (tC & aC & vsC & HtC & HaC & HtC' & HaC' & HvC & HmC & HnC).
  apply upsert_weather_inv in H10 as (tW & aW & HtW & HaW & HtW' & HaW' & HmW).
  rewrite HtS' in HtD. injection HtD as <-.
  rewrite HaS' in HaD. injection HaD as <-.
  rewrite HtD' in HtC. injection HtC as <-.
  rewrite HaD' in HaC. injection HaC as <-.
  rewrite F5t, HtC' in HtW. injection HtW as <-.
  rewrite F5a, HaC' in HaW. injection HaW as <-.
  rewrite F4t in HtS. rewrite F4a in HaS.
  set (kS := (default [] (d_Scores d)).*1) in *.
  set (kD := (default [] (d_DigitalNomadGuide d)).*1) in *.
  set (kC := (default [] (d_CostOfLiving d)).*1) in *.
  set (kW := (default [] (d_Weather d)).*1) in *.
  set (tt1 := tabs_after "Scores" tS) in *.
  set (ta1 := attributes_after "Scores" kS tS aS) in *.
  set (tt2 := tabs_after "Digital Nomad Guide" tt1) in *.
  set (ta2 := attributes_after "Digital Nomad Guide" kD tt1 ta1) in *.
  set (tt3 := tabs_after "Cost of Living" tt2) in *.
  set (ta3 := attributes_after "Cost of Living" kC tt2 ta2) in *.
  set (tt4 := tabs_after "Weather" tt3) in *.
  set (ta4 := attributes_after "Weather" kW tt3 ta3) in *.
  rewrite <- F6t in HtW'. rewrite <- F6a in HaW'.
  destruct (Hok "tabs" tS HtS) as [It0 _]. destruct (Hok "attributes" aS HaS) as [Ia0 _].
  assert (It1 : ids_ok tt1) by (by apply insert_ignore_ids_ok).
  assert (It2 : ids_ok tt2) by (by apply insert_ignore_ids_ok).
  assert (It3 : ids_ok tt3) by (by apply insert_ignore_ids_ok).
  assert (It4 : ids_ok tt4) by (by apply insert_ignore_ids_ok).
  assert (Ia4 : ids_ok ta4) by (by do 4 apply insert_all_ids_ok).
  assert (N1 : existsb (named "Scores") (t_rows tt1) = true)
    by apply tab_named_after_insert.
  assert (N2 : existsb (named "Digital Nomad Guide") (t_rows tt2) = true)
    by apply tab_named_after_insert.
  assert (N3 : existsb (named "Cost of Living") (t_rows tt3) = true)
    by apply tab_named_after_insert.
  assert (N4 : existsb (named "Weather") (t_rows tt4) = true)
    by apply tab_named_after_insert.
  assert (N12 : existsb (named "Scores") (t_rows tt2) = true)
    by (apply (grows_existsb _ tt1); [apply insert_ignore_grows | done]).
  assert (N13 : existsb (named "Scores") (t_rows tt3) = true)
    by (apply (grows_existsb _ tt2); [apply insert_ignore_grows | done]).
  assert (N23 : existsb (named "Digital Nomad Guide") (t_rows tt3) = true)
    by (apply (grows_existsb _ tt2); [apply insert_ignore_grows | done]).
  assert (SS : settled_tab "Scores" tt1 ta1 tt4 ta4).
  { apply (settled_tab_trans _ _ _ tt2 ta2); [done | by apply settled_tab_step |].
    apply (settled_tab_trans _ _ _ tt3 ta3); [done | by apply settled_tab_step |].
    by apply settled_tab_step. }
  assert (SD : settled_tab "Digital Nomad Guide" tt2 ta2 tt4 ta4).
  { apply (settled_tab_trans _ _ _ tt3 ta3); [done | by apply settled_tab_step |].
    by apply settled_tab_step. }
  assert (SC : settled_tab "Cost of Living" tt3 ta3 tt4 ta4)
    by (by apply settled_tab_step).
  pose proof (settled_tab_refl "Weather" tt4 ta4) as SW.
  apply settled_tab_facts in SS as (XS & IS & AS & LS).
  apply settled_tab_facts in SD as (XD & ID & AD & LD).
  apply settled_tab_facts in SC as (XC & IC & AC & LC).
  apply settled_tab_facts in SW as (XW & IW & AW & LW).
  change (selected_attributes (tab_id "Scores" tt4) ta4
          = selected_attributes (tab_id "Scores" tt1) ta1) in LS.
  change (selected_attributes (tab_id "Digital Nomad Guide" tt4) ta4
          = selected_attributes (tab_id "Digital Nomad Guide" tt2) ta2) in LD.
  change (selected_attributes (tab_id "Cost of Living" tt4) ta4
          = selected_attributes (tab_id "Cost of Living" tt3) ta3) in LC.
  rewrite <- LS in HvS. rewrite <- LD in HvD. rewrite <- LC in HvC.
  cbv zeta in HmW.
  change (tab_id "Scores" tt4 = tab_id "Scores" tt1) in IS.
  change (tab_id "Digital Nomad Guide" tt4 = tab_id "Digital Nomad Guide" tt2) in ID.
  change (tab_id "Cost of Living" tt4 = tab_id "Cost of Living" tt3) in IC.
  (* the ids of the tabs differ *)
  assert (DSD : tab_id "Scores" tt4 <> tab_id "Digital Nomad Guide" tt4)
    by (apply tab_ids_distinct; done).
  assert (DSC : tab_id "Scores" tt4 <> tab_id "Cost of Living" tt4)
    by (apply tab_ids_distinct; done).
  assert (DDC : tab_id "Digital Nomad Guide" tt4 <> tab_id "Cost of Living" tt4)
    by (apply tab_ids_distinct; done).
  assert (NdS : NoDup (selected_attributes (tab_id "Scores" tt4) ta4).*1)
    by (by apply selected_attributes_nodup).
  assert (NdD : NoDup (selected_attributes (tab_id "Digital Nomad Guide" tt4) ta4).*1)
    by (by apply selected_attributes_nodup).
  assert (NdC : NoDup (selected_attributes (tab_id "Cost of Living" tt4) ta4).*1)
    by (by apply selected_attributes_nodup).
  assert (NdW : NoDup (selected_attributes (tab_id "Weather" tt4) ta4).*1)
    by (by apply selected_attributes_nodup).
  (* the values of the attributes *)
  assert (VS : (vsS = []
                \/ exists tmF, db' !! "city_attributes" = Some tmF
                     /\ forall cvs, cvs ∈ vsS -> stored attributes_key attributes_upd cvs tmF)
               /\ (vsD = []
                   \/ exists tmF, db' !! "city_attributes" = Some tmF
                        /\ forall cvs, cvs ∈ vsD ->
                                       stored attributes_key attributes_upd cvs tmF)
               /\ (vsC = []
                   \/ exists tmF, db' !! "city_attributes" = Some tmF
                        /\ forall cvs, cvs ∈ vsC ->
                                       stored attributes_key attributes_upd cvs tmF)).
  { rewrite F7. rewrite F4m in HmS, HnS.
    destruct (db !! "city_attributes") as [tm0|] eqn:Etm.
    - specialize (HmS tm0 eq_refl). specialize (HmD _ HmS). specialize (HmC _ HmD).
      set (tm1 := upsert_all attributes_key attributes_upd tm0 vsS) in *.
      set (tm2 := upsert_all attributes_key attributes_upd tm1 vsD) in *.
      set (tm3 := upsert_all attributes_key attributes_upd tm2 vsC) in *.
      split; [|split]; right; exists tm3; (split; [done|]); intros cvs Hc.
      + apply upsert_all_keeps_stored;
          [apply attributes_key_not_id | apply attributes_upd_not_key | |].
        { intros cvs' Hc'.
          by apply (attribute_values_keys_differ ic _ _ ta4 _ _ vsS vsC _ _ Ia4 DSC HvS HvC). }
        apply upsert_all_keeps_stored;
          [apply attributes_key_not_id | apply attributes_upd_not_key | |].
        { intros cvs' Hc'.
          by apply (attribute_values_keys_differ ic _ _ ta4 _ _ vsS vsD _ _ Ia4 DSD HvS HvD). }
        by apply (attribute_rows_stored ic _ _ _ _ _ NdS HvS).
      + apply upsert_all_keeps_stored;
          [apply attributes_key_not_id | apply attributes_upd_not_key | |].
        { intros cvs' Hc'.
          by apply (attribute_values_keys_differ ic _ _ ta4 _ _ vsD vsC _ _ Ia4 DDC HvD HvC). }
        by apply (attribute_rows_stored ic _ _ _ _ _ NdD HvD).
      + by apply (attribute_rows_stored ic _ _ _ _ _ NdC HvC).
    - destruct (HnS eq_refl) as [-> HS]. destruct (HnD HS) as [-> HD].
      destruct (HnC HD) as [-> HC]. auto. }
  destruct VS as (VS & VD & VC).
  assert (R4 : _upsert_key_value_tab_info ic "Scores" (default [] (d_Scores d)) db'
               = (Ok tt, db'))
    by (by apply (upsert_key_value_tab_info_noop ic "Scores" _ db' tt4 ta4 vsS)).
  assert (R5 : _upsert_key_value_tab_info ic "Digital Nomad Guide"
                 (default [] (d_DigitalNomadGuide d)) db' = (Ok tt, db'))
    by (by apply (upsert_key_value_tab_info_noop ic "Digital Nomad Guide" _ db' tt4 ta4 vsD)).
  assert (R6 : _upsert_key_value_tab_info ic "Cost of Living"
                 (default [] (d_CostOfLiving d)) db' = (Ok tt, db'))
    by (by apply (upsert_key_value_tab_info_noop ic "Cost of Living" _ db' tt4 ta4 vsC)).
  assert (R10 : _upsert_weather ic d db' = (Ok tt, db')).
  { apply (upsert_weather_noop ic d db' tt4 ta4); [done..|].
    fold kW. rewrite LW. fold tt4 ta4 in HmW |- *.
    destruct HmW as [[Hnil _]|(tm0 & Htm0 & HmW)]; [by left|].
    right. rewrite F6w, HmW. eexists. split; [reflexivity|].
    intros cvs Hc. apply weather_rows_stored; [|done].
    change (NoDup (selected_attributes (tab_id "Weather" tt4) ta4).*1). done. }
  (* the second call *)
  unfold insert_city_info.
  rewrite (bind_ok _ _ _ _ _ R1), (bind_ok _ _ _ _ _ R2), (bind_ok _ _ _ _ _ R3).
  rewrite (bind_ok _ _ _ _ _ R4), (bind_ok _ _ _ _ _ R5), (bind_ok _ _ _ _ _ R6).
  rewrite (bind_ok _ _ _ _ _ R7), Epc.
  rewrite (bind_ok _ _ _ pc db' eq_refl).
  rewrite (bind_ok _ _ _ _ _ R8), (bind_ok _ _ _ _ _ R9), (bind_ok _ _ _ _ _ R10).
  exact R11.
Qed.

Lemma insert_city_info_twice_witness :
  store_ok empty_store
  /\ insert_city_info lisbon empty_store
     = (Ok tt, (insert_city_info lisbon empty_store).2)
  /\ insert_city_info lisbon (insert_city_info lisbon empty_store).2
     = (Ok tt, (insert_city_info lisbon empty_store).2).
Proof.
  assert (H : insert_city_info lisbon empty_store
              = (Ok tt, (insert_city_info lisbon empty_store).2))
    by (apply run_ok; vm_compute; reflexivity).
  split; [exact empty_store_ok|]. split; [exact H|].
  exact (insert_city_info_twice lisbon empty_store _ empty_store_ok H).
Defined.
